(** * z.ai2api_deno: the event-stream lexer and the response translators

    A shallow embedding of [app/utils/sse_parser.ts] (the SSE lexer) and of
    the response handlers: the streaming translator
    [StreamResponseHandler] and the aggregate translator
    [NonStreamResponseHandler], with the fragment reassembly they share.

    - JavaScript strings are sequences of UTF-16 code units and are
      modelled as lists of code units; [JS] holds the string methods the
      sources call, [JSON] the values and [JSON.parse].
    - An async generator is modelled by the list of the items it yields,
      the fields of a handler by a state record threaded through the
      calls, a [Map<number, string>] by an association list in insertion
      order.
    - A JavaScript number is an IEEE 754 double, modelled by
      [SpecFloat.spec_float] with the binary64 parameters.
    - What the sources import from files that are not among them (the
      thinking transform, the fallback tool-call extractor, the
      configuration) and the clock are the fields of [Env]; the decoder of
      the byte stream is a [TextDecoder]. *)

From Stdlib Require Import String Ascii DecimalString.
From Stdlib Require Import ZArith NArith Lia Bool List Permutation Sorted.
From Stdlib Require SpecFloat.
Import ListNotations.

Set Implicit Arguments.
Set Warnings "-register-all".

(* ================================================================= *)
(** ** JavaScript strings *)

Module JS.

Definition char := N.
Definition str := list char.

(** A string literal of the source, as code units. *)
Definition lit (s : string) : str :=
  map N_of_ascii (list_ascii_of_string s).

Fixpoint eqb (a b : str) : bool :=
  match a, b with
  | [], [] => true
  | x :: a', y :: b' => N.eqb x y && eqb a' b'
  | _, _ => false
  end.

(** Truthiness of a string: the empty string is falsy. *)
Definition truthy (s : str) : bool :=
  match s with [] => false | _ => true end.

(** [a || b] on strings. *)
Definition or_else (a b : str) : str := if truthy a then a else b.

(** WhiteSpace and LineTerminator code units, the set [String.prototype.trim]
    strips. *)
Definition isWhiteSpace (c : char) : bool :=
  ((9 <=? c) && (c <=? 13) || (c =? 32) || (c =? 160) || (c =? 5760)
   || (8192 <=? c) && (c <=? 8202) || (c =? 8232) || (c =? 8233)
   || (c =? 8239) || (c =? 8287) || (c =? 12288) || (c =? 65279))%N.

Fixpoint trimStart (s : str) : str :=
  match s with
  | [] => []
  | c :: r => if isWhiteSpace c then trimStart r else s
  end.

Definition trimEnd (s : str) : str := rev (trimStart (rev s)).

Definition trim (s : str) : str := trimEnd (trimStart s).

Fixpoint startsWith (s p : str) : bool :=
  match p, s with
  | [], _ => true
  | _ :: _, [] => false
  | c :: p', d :: s' => N.eqb c d && startsWith s' p'
  end.

Definition endsWith (s p : str) : bool := startsWith (rev s) (rev p).

(** [s.indexOf(p)]: the first position where [p] occurs, [-1] if none. *)
Fixpoint indexOf (s p : str) : Z :=
  if startsWith s p then 0%Z
  else match s with
       | [] => (-1)%Z
       | _ :: r => let i := indexOf r p in
                   if (i <? 0)%Z then (-1)%Z else (i + 1)%Z
       end.

Definition clamp (n : Z) (len : nat) : nat :=
  Nat.min (Z.to_nat n) len.

(** [s.substring(a, b)]; [b = None] is the one-argument form. *)
Definition substring (s : str) (a : Z) (b : option Z) : str :=
  let len := length s in
  let i := clamp a len in
  let j := match b with Some b => clamp b len | None => len end in
  let from := Nat.min i j in
  let to := Nat.max i j in
  firstn (to - from) (skipn from s).

(** The text before and after the first occurrence of [sep]. *)
Fixpoint cut (sep s : str) : option (str * str) :=
  if startsWith s sep then Some ([], skipn (length sep) s)
  else match s with
       | [] => None
       | c :: r => match cut sep r with
                   | Some (a, b) => Some (c :: a, b)
                   | None => None
                   end
       end.

(** [s.split(sep)] for a non-empty separator: [skip] counts the code units
    of a separator still to be passed over, [cur] is the piece being read
    (reversed). *)
Fixpoint split_go (sep : str) (skip : nat) (cur : str) (s : str) : list str :=
  match s with
  | [] => [rev cur]
  | c :: r =>
      match skip with
      | S k => split_go sep k cur r
      | O => if startsWith s sep
             then rev cur :: split_go sep (length sep - 1) [] r
             else split_go sep 0 (c :: cur) r
      end
  end.

Definition split (s sep : str) : list str := split_go sep 0 [] s.

(** [parts.join(sep)]. *)
Fixpoint join (sep : str) (parts : list str) : str :=
  match parts with
  | [] => []
  | [p] => p
  | p :: rest => p ++ sep ++ join sep rest
  end.

(** Decimal digits of a non-negative integer, as in a template literal. *)
Definition decimal (z : Z) : str :=
  lit (NilZero.string_of_int (Z.to_int z)).

End JS.

Abbreviation jsstring := JS.str.

(* ================================================================= *)
(** ** JSON values and [JSON.parse] *)

Module JSON.

(** A number literal [(-1)^neg * mant * 10^expo], kept exactly. *)
Record number := { neg : bool; mant : N; expo : Z }.

Inductive value :=
| Null
| Bool (b : bool)
| Num (n : number)
| Str (s : jsstring)
| Arr (l : list value)
| Obj (m : list (jsstring * value)).

(** A number is falsy when it is zero as a double: a literal of magnitude at
    most [2^-1075] rounds to zero. *)
Definition num_truthy (n : number) : bool :=
  negb (N.eqb (mant n) 0)
  && ((0 <=? expo n)%Z
      || (10 ^ (- expo n) <? Z.of_N (mant n) * 2 ^ 1075)%Z).

(** The double a number literal denotes: the value of the literal rounded
    to the nearest double, ties to even (binary64: 53 bits of precision,
    [emax = 1024]); a magnitude too large gives an infinity.  The exact
    value is first cut to 1100 binary places, with one more place that is
    set when something was cut off: every double, and every midpoint
    between two doubles, is a multiple of [2^-1075], so rounding the cut
    value gives the double of the exact one. *)
Definition to_double (n : number) : SpecFloat.spec_float :=
  let m := Z.of_N (mant n) in
  let q :=
    if (0 <=? expo n)%Z then (2 * (m * 10 ^ expo n * 2 ^ 1100))%Z
    else
      let d := (10 ^ (- expo n))%Z in
      let scaled := (m * 2 ^ 1100)%Z in
      (2 * (scaled / d) + (if (scaled mod d =? 0)%Z then 0 else 1))%Z in
  SpecFloat.binary_normalize 53 1024 (if neg n then - q else q)%Z (-1101)
    (neg n).

(** [Boolean(v)]. *)
Definition truthy (v : value) : bool :=
  match v with
  | Null => false
  | Bool b => b
  | Num n => num_truthy n
  | Str s => JS.truthy s
  | Arr _ | Obj _ => true
  end.

(** Truthiness of a possibly [undefined] value. *)
Definition truthy_opt (o : option value) : bool :=
  match o with Some v => truthy v | None => false end.

Fixpoint assoc (m : list (jsstring * value)) (k : jsstring) : option value :=
  match m with
  | [] => None
  | (k', v) :: r => if JS.eqb k' k then Some v else assoc r k
  end.

(** Property read [v.k] on a non-nullish value: only objects carry the
    properties read by the handlers ([data], [metadata], [id], [name],
    [arguments]); on any other value the read gives [undefined]. *)
Definition get (v : value) (k : jsstring) : option value :=
  match v with Obj m => assoc m k | _ => None end.

(** A later duplicate key overwrites the value of the earlier one. *)
Fixpoint obj_set (m : list (jsstring * value)) (k : jsstring) (v : value)
  : list (jsstring * value) :=
  match m with
  | [] => [(k, v)]
  | (k', v') :: r =>
      if JS.eqb k' k then (k', v) :: r else (k', v') :: obj_set r k v
  end.

Definition is_ws (c : N) : bool :=
  ((c =? 32) || (c =? 9) || (c =? 10) || (c =? 13))%N.

Fixpoint skip_ws (s : jsstring) : jsstring :=
  match s with
  | c :: r => if is_ws c then skip_ws r else s
  | [] => []
  end.

Definition is_digit (c : N) : bool := ((48 <=? c) && (c <=? 57))%N.

Definition hex_val (c : N) : option N :=
  if is_digit c then Some (c - 48)%N
  else if ((97 <=? c) && (c <=? 102))%N then Some (c - 87)%N
  else if ((65 <=? c) && (c <=? 70))%N then Some (c - 55)%N
  else None.

Definition hex4 (a b c d : N) : option N :=
  match hex_val a, hex_val b, hex_val c, hex_val d with
  | Some x, Some y, Some z, Some w => Some (((x * 16 + y) * 16 + z) * 16 + w)%N
  | _, _, _, _ => None
  end.

Definition escape (c : N) : option N :=
  if (c =? 34)%N then Some 34%N          (* quote *)
  else if (c =? 92)%N then Some 92%N     (* backslash *)
  else if (c =? 47)%N then Some 47%N     (* slash *)
  else if (c =? 98)%N then Some 8%N      (* b *)
  else if (c =? 102)%N then Some 12%N    (* f *)
  else if (c =? 110)%N then Some 10%N    (* n *)
  else if (c =? 114)%N then Some 13%N    (* r *)
  else if (c =? 116)%N then Some 9%N     (* t *)
  else None.

(** The characters of a string literal after its opening quote, up to the
    closing quote; [acc] is the text read so far, reversed. *)
Fixpoint parse_chars (s acc : jsstring) : option (jsstring * jsstring) :=
  match s with
  | [] => None
  | c :: r =>
      if (c =? 34)%N then Some (rev acc, r)
      else if (c =? 92)%N then
        match r with
        | [] => None
        | e :: r1 =>
            if (e =? 117)%N then
              match r1 with
              | h1 :: h2 :: h3 :: h4 :: r2 =>
                  match hex4 h1 h2 h3 h4 with
                  | Some u => parse_chars r2 (u :: acc)
                  | None => None
                  end
              | _ => None
              end
            else match escape e with
                 | Some u => parse_chars r1 (u :: acc)
                 | None => None
                 end
        end
      else if (c <? 32)%N then None
      else parse_chars r (c :: acc)
  end.

(** The longest prefix of digits, as a number and a count, and the rest. *)
Fixpoint digits (s : jsstring) (acc : N) (n : nat) : N * nat * jsstring :=
  match s with
  | c :: r => if is_digit c then digits r (acc * 10 + (c - 48))%N (S n)
              else (acc, n, s)
  | [] => (acc, n, [])
  end.

(** The grammar of a number after its optional sign: an integer part with
    no leading zero, an optional fraction, an optional exponent. *)
Definition parse_number (negative : bool) (s : jsstring)
  : option (value * jsstring) :=
  match s with
  | [] => None
  | c :: r =>
      if negb (is_digit c) then None else
      let '(ip, _, r1) :=
        if (c =? 48)%N then (0%N, 1%nat, r) else digits s 0%N 0%nat in
      let frac :=
        match r1 with
        | d :: r2 =>
            if (d =? 46)%N then
              let '(m, k, r3) := digits r2 ip 0%nat in
              match k with O => None | _ => Some (m, k, r3) end
            else Some (ip, O, r1)
        | [] => Some (ip, O, r1)
        end in
      match frac with
      | None => None
      | Some (m, k, r3) =>
          let mk e rest :=
            Some (Num {| neg := negative; mant := m;
                         expo := (e - Z.of_nat k)%Z |}, rest) in
          match r3 with
          | x :: r4 =>
              if ((x =? 101) || (x =? 69))%N then
                let '(sgn, r5) :=
                  match r4 with
                  | y :: r5 => if (y =? 43)%N then (1%Z, r5)
                               else if (y =? 45)%N then ((-1)%Z, r5)
                               else (1%Z, r4)
                  | [] => (1%Z, r4)
                  end in
                let '(e, ke, r6) := digits r5 0%N 0%nat in
                match ke with
                | O => None
                | _ => mk (sgn * Z.of_N e)%Z r6
                end
              else mk 0%Z r3
          | [] => mk 0%Z r3
          end
      end
  end.

Definition parse_literal (s : jsstring) : option (value * jsstring) :=
  if JS.startsWith s (JS.lit "true") then Some (Bool true, skipn 4 s)
  else if JS.startsWith s (JS.lit "false") then Some (Bool false, skipn 5 s)
  else if JS.startsWith s (JS.lit "null") then Some (Null, skipn 4 s)
  else match s with
       | c :: r => if (c =? 45)%N then parse_number true r
                   else parse_number false s
       | [] => None
       end.

(** Recursive descent on the JSON grammar.  [fuel] bounds the depth of the
    recursion: a call either reads a code unit itself or is followed at
    once by one that does, so two units of fuel per code unit of the text
    are enough. *)
Fixpoint parse_value (fuel : nat) (s : jsstring) {struct fuel}
  : option (value * jsstring) :=
  match fuel with
  | O => None
  | S f =>
      match skip_ws s with
      | [] => None
      | c :: r =>
          if (c =? 123)%N then
            match skip_ws r with
            | d :: r' => if (d =? 125)%N then Some (Obj [], r')
                         else parse_members f r []
            | [] => None
            end
          else if (c =? 91)%N then
            match skip_ws r with
            | d :: r' => if (d =? 93)%N then Some (Arr [], r')
                         else parse_elements f r []
            | [] => None
            end
          else if (c =? 34)%N then
            match parse_chars r [] with
            | Some (t, r') => Some (Str t, r')
            | None => None
            end
          else parse_literal (c :: r)
      end
  end
with parse_elements (fuel : nat) (s : jsstring) (acc : list value)
  {struct fuel} : option (value * jsstring) :=
  match fuel with
  | O => None
  | S f =>
      match parse_value f s with
      | None => None
      | Some (v, r) =>
          match skip_ws r with
          | c :: r' =>
              if (c =? 44)%N then parse_elements f r' (v :: acc)
              else if (c =? 93)%N then Some (Arr (rev (v :: acc)), r')
              else None
          | [] => None
          end
      end
  end
with parse_members (fuel : nat) (s : jsstring)
  (acc : list (jsstring * value)) {struct fuel}
  : option (value * jsstring) :=
  match fuel with
  | O => None
  | S f =>
      match skip_ws s with
      | q :: r =>
          if negb (q =? 34)%N then None else
          match parse_chars r [] with
          | None => None
          | Some (k, r1) =>
              match skip_ws r1 with
              | c :: r2 =>
                  if negb (c =? 58)%N then None else
                  match parse_value f r2 with
                  | None => None
                  | Some (v, r3) =>
                      match skip_ws r3 with
                      | e :: r4 =>
                          if (e =? 44)%N
                          then parse_members f r4 (obj_set acc k v)
                          else if (e =? 125)%N
                          then Some (Obj (obj_set acc k v), r4)
                          else None
                      | [] => None
                      end
                  end
              | [] => None
              end
          end
      | [] => None
      end
  end.

(** [JSON.parse(text)]: [None] stands for the SyntaxError it throws. *)
Definition parse (text : jsstring) : option value :=
  match parse_value (2 * length text + 2) text with
  | Some (v, r) => match skip_ws r with [] => Some v | _ => None end
  | None => None
  end.

End JSON.

(* ================================================================= *)
(** ** [TextDecoder] in streaming mode *)

(** A decoder used with [{ stream: true }] is a transducer: it keeps a
    state between calls and turns each byte into zero or more code units. *)
Record TextDecoder := {
  dstate : Type;
  dinit : dstate;
  dstep : dstate -> Byte.byte -> dstate * jsstring
}.

(** [decoder.decode(chunk, { stream: true })]. *)
Fixpoint decode (D : TextDecoder) (st : dstate D) (chunk : list Byte.byte)
  : dstate D * jsstring :=
  match chunk with
  | [] => (st, [])
  | b :: r =>
      let (st1, o1) := dstep D st b in
      let (st2, o2) := decode D st1 r in
      (st2, o1 ++ o2)
  end.

Module Utf8.

(** The state of the UTF-8 decoder of the Encoding Standard, with the
    byte-order-mark flag of the [TextDecoder] that owns it. *)
Record state := {
  code_point : N;
  bytes_seen : N;
  bytes_needed : N;
  lower : N;
  upper : N;
  bom_seen : bool
}.

Definition init : state :=
  {| code_point := 0; bytes_seen := 0; bytes_needed := 0;
     lower := 128; upper := 191; bom_seen := false |}.

Definition reset (b : bool) : state :=
  {| code_point := 0; bytes_seen := 0; bytes_needed := 0;
     lower := 128; upper := 191; bom_seen := b |}.

(** A decoded code point as UTF-16 code units; a leading U+FEFF is
    dropped. *)
Definition emit (st : state) (cp : N) : state * jsstring :=
  if negb (bom_seen st) && (cp =? 65279)%N then (reset true, [])
  else (reset true,
        if (cp <? 65536)%N then [cp]
        else [(55296 + (cp - 65536) / 1024)%N;
              (56320 + (cp - 65536) mod 1024)%N]).

Definition lead (st : state) (b : N) : state * jsstring :=
  let start needed cp lo hi :=
    ({| code_point := cp; bytes_seen := 0; bytes_needed := needed;
        lower := lo; upper := hi; bom_seen := bom_seen st |}, []) in
  if (b <=? 127)%N then emit st b
  else if ((194 <=? b) && (b <=? 223))%N then start 1%N (N.land b 31) 128%N 191%N
  else if ((224 <=? b) && (b <=? 239))%N then
    start 2%N (N.land b 15)
      (if (b =? 224)%N then 160%N else 128%N)
      (if (b =? 237)%N then 159%N else 191%N)
  else if ((240 <=? b) && (b <=? 244))%N then
    start 3%N (N.land b 7)
      (if (b =? 240)%N then 144%N else 128%N)
      (if (b =? 244)%N then 143%N else 191%N)
  else emit st 65533%N.

Definition step (st : state) (byte : Byte.byte) : state * jsstring :=
  let b := Byte.to_N byte in
  if (bytes_needed st =? 0)%N then lead st b
  else if ((b <? lower st) || (upper st <? b))%N then
    (* the byte is put back and read again after the error *)
    let (st1, o1) := emit st 65533%N in
    let (st2, o2) := lead st1 b in
    (st2, o1 ++ o2)
  else
    let cp := N.lor (N.shiftl (code_point st) 6) (N.land b 63) in
    let seen := (bytes_seen st + 1)%N in
    if (seen =? bytes_needed st)%N then emit st cp
    else ({| code_point := cp; bytes_seen := seen;
             bytes_needed := bytes_needed st;
             lower := 128; upper := 191; bom_seen := bom_seen st |}, []).

Definition decoder : TextDecoder :=
  {| dstate := state; dinit := init; dstep := step |}.

End Utf8.

(* ================================================================= *)
(** ** The event-stream lexer ([SSEParser]) *)

Module SSE.

(** The result of [parseInt]: a double. *)
Definition jsnumber := SpecFloat.spec_float.

Definition NaN : jsnumber := SpecFloat.S754_nan.

(** The four shapes of [SSEEvent] that [iterEvents] yields. *)
Inductive SSEEvent :=
| DataEvent (data : JSON.value) (raw : jsstring) (is_json : bool)
| EventEvent (event : jsstring)
| IdEvent (id : jsstring)
| RetryEvent (retry : jsnumber).

(** [parseInt(s, 10)]: leading white space and a sign are passed over, the
    longest run of digits is read, and [NaN] results when there is none.  It
    never throws.  The result is the double nearest to the integer read
    (an infinity when it is too large), with the sign of the text also on a
    zero; the rounding is the one of a number literal, which the language
    requires for up to 20 significant digits and allows beyond. *)
Definition parseInt (s : jsstring) : jsnumber :=
  let t := JS.trimStart s in
  let '(sign, t1) :=
    match t with
    | c :: r => if (c =? 45)%N then ((-1)%Z, r)
                else if (c =? 43)%N then (1%Z, r) else (1%Z, t)
    | [] => (1%Z, t)
    end in
  let '(n, k, _) := JSON.digits t1 0%N 0%nat in
  match k with
  | O => NaN
  | _ => SpecFloat.binary_normalize 53 1024 (sign * Z.of_N n) 0 (sign <? 0)%Z
  end.

Definition newline : jsstring := [10%N].
Definition colon : jsstring := [58%N].

(** The chain of tests on [field] in the loop body: the records yielded
    for a field and its value. *)
Definition fieldRecords (field value : jsstring) : list SSEEvent :=
  if JS.eqb field (JS.lit "data") then
    if negb (JS.truthy (JS.trim value)) then []
    else match JSON.parse value with
         | Some data => [DataEvent data value true]
         | None => [DataEvent (JSON.Str value) value false]
         end
  else if JS.eqb field (JS.lit "event") then [EventEvent value]
  else if JS.eqb field (JS.lit "id") then [IdEvent value]
  else if JS.eqb field (JS.lit "retry") then
    (* parseInt does not throw, so the catch clause is never entered *)
    [RetryEvent (parseInt value)]
  else [].

(** The body of the [for (const line of lines)] loop: the records one
    complete line yields. *)
Definition processLine (line : jsstring) : list SSEEvent :=
  if negb (JS.truthy (JS.trim line)) then []
  else if JS.startsWith line colon then []
  else
    let colonIndex := JS.indexOf line colon in
    if (colonIndex =? -1)%Z then []
    else
      let field := JS.trim (JS.substring line 0 (Some colonIndex)) in
      let value := JS.trim (JS.substring line (colonIndex + 1) None) in
      fieldRecords field value.

(** The [while (true)] loop of [iterEvents] over the chunks the reader
    delivers; the buffer left when the reader is done is dropped. *)
Fixpoint iterEvents_loop (D : TextDecoder) (ds : dstate D) (buffer : jsstring)
  (chunks : list (list Byte.byte)) : list SSEEvent :=
  match chunks with
  | [] => []
  | value :: rest =>
      let (ds', text) := decode D ds value in
      let buffer1 := buffer ++ text in
      let lines := JS.split buffer1 newline in
      let buffer2 := JS.or_else (last lines []) [] in
      flat_map processLine (removelast lines)
        ++ iterEvents_loop D ds' buffer2 rest
  end.

(** [iterEvents()]: [None] is the error thrown for a response without
    body. *)
Definition iterEvents (D : TextDecoder) (body : option (list (list Byte.byte)))
  : option (list SSEEvent) :=
  match body with
  | None => None
  | Some chunks => Some (iterEvents_loop D (dinit D) [] chunks)
  end.

(** [iterDataOnly()]: the data records only. *)
Definition iterDataOnly (D : TextDecoder) (body : option (list (list Byte.byte)))
  : option (list SSEEvent) :=
  option_map
    (filter (fun e => match e with DataEvent _ _ _ => true | _ => false end))
    (iterEvents D body).

(** [iterJsonData()] without validator: the data records, a second parse
    being tried on those flagged as not JSON. *)
Definition jsonData (e : SSEEvent) : list SSEEvent :=
  match e with
  | DataEvent data raw is_json =>
      if is_json then [e]
      else match JSON.parse
                   (JS.or_else raw
                      (match data with JSON.Str t => t | _ => [] end)) with
           | Some reparsed => [DataEvent reparsed raw true]
           | None => [e]
           end
  | _ => []
  end.

Definition iterJsonData (D : TextDecoder) (body : option (list (list Byte.byte)))
  : option (list SSEEvent) :=
  option_map (flat_map jsonData) (iterEvents D body).

End SSE.

(* ================================================================= *)
(** ** Upstream payloads and output shapes *)

(** Modelled from the spec: the payload shape of section 6.  The type
    declarations ([UpstreamData], [UpstreamError], [Usage], [Delta],
    [OpenAIResponse]) and the schema [UpstreamDataSchema] live in
    [models/schemas.ts], which is not among the sources; the handlers
    below read exactly these fields.  The handlers are modelled from the
    point where [upstreamData] has been obtained from a data record. *)
Inductive Phase := Thinking | Answer | ToolCall | Other | Done | Unknown.

Definition phase_eqb (a b : Phase) : bool :=
  match a, b with
  | Thinking, Thinking | Answer, Answer | ToolCall, ToolCall
  | Other, Other | Done, Done | Unknown, Unknown => true
  | _, _ => false
  end.

Record Usage := {
  prompt_tokens : Z;
  completion_tokens : Z;
  total_tokens : Z
}.

Record UpstreamError := { detail : jsstring; code : Z }.

Record Inner := { inner_error : option UpstreamError }.

(** [upstreamData.data]; [finish_reason] is the untyped read
    [(upstreamData.data as any).choices?.[0]?.finish_reason]. *)
Record Data := {
  delta_content : jsstring;
  edit_content : jsstring;
  phase : Phase;
  edit_index : option Z;
  done : bool;
  usage : option Usage;
  data_error : option UpstreamError;
  inner : option Inner;
  finish_reason : option JSON.value
}.

Record UpstreamData := {
  type : jsstring;
  data : Data;
  error : option UpstreamError
}.

(** One entry of a [tool_calls] array. *)
Record ToolCallOut := {
  tc_index : option nat;
  tc_id : option JSON.value;
  tc_type : JSON.value;
  tc_function : JSON.value
}.

Record Delta := {
  role : option jsstring;
  content : option jsstring;
  reasoning_content : option jsstring;
  tool_calls : option (list ToolCallOut)
}.

(** An [OpenAIResponse] of object type ["chat.completion.chunk"], with its
    single choice flattened; [id] is ["chatcmpl-"] followed by [created]. *)
Record Chunk := {
  created : Z;
  model : jsstring;
  delta : Delta;
  chunk_finish_reason : option jsstring;
  chunk_usage : option Usage
}.

(** The strings the streaming generator yields: [data: <chunk>], the
    sentinel [data: [DONE]], and the two literal error lines. *)
Inductive Item :=
| ChunkLine (c : Chunk)
| DoneLine
| ErrorLine (message : jsstring).

(** How the iteration of the upstream stream ends: the reader is done, or
    it throws. *)
Inductive Ending := EndOfStream | Fault.

(** What [_callUpstream] gives: a rejection, or a response with its status
    and the decoded payloads of its body. *)
Inductive UpstreamCall :=
| Rejected
| Responded (ok : bool) (payloads : list UpstreamData) (ending : Ending).

(** The collaborators and the configuration the handlers use; none of them
    is among the sources.  [now] is the reading of [Date.now()], taken
    constant over a run. *)
Record Env := {
  PRIMARY_MODEL : jsstring;
  now : Z;
  transformThinkingContent : jsstring -> jsstring;
  extractToolInvocations : jsstring -> option (list JSON.value);
  removeToolJsonContent : jsstring -> jsstring
}.

(** A resolved tool invocation. *)
Record ToolInvocation := {
  tool_id : JSON.value;
  tool_name : JSON.value;
  tool_arguments : jsstring
}.

(* ================================================================= *)
(** ** [Map<number, string>] with insertion order *)

Module NumMap.

Definition t := list (Z * jsstring).

(** [m.set(k, v)]: an existing key keeps its place. *)
Fixpoint set (m : t) (k : Z) (v : jsstring) : t :=
  match m with
  | [] => [(k, v)]
  | (k', v') :: r => if (k' =? k)%Z then (k', v) :: r else (k', v') :: set r k v
  end.

Fixpoint get (m : t) (k : Z) : option jsstring :=
  match m with
  | [] => None
  | (k', v) :: r => if (k' =? k)%Z then Some v else get r k
  end.

Definition keys (m : t) : list Z := map fst m.

Definition size (m : t) : nat := length m.

End NumMap.

(** [keys.sort((a, b) => a - b)]. *)
Fixpoint insert_sorted (k : Z) (l : list Z) : list Z :=
  match l with
  | [] => [k]
  | x :: r => if (k <? x)%Z then k :: l else x :: insert_sorted k r
  end.

Fixpoint sort_indices (l : list Z) : list Z :=
  match l with
  | [] => []
  | k :: r => insert_sorted k (sort_indices r)
  end.

(* ================================================================= *)
(** ** Fragment reassembly (the code shared by both handlers) *)

Module Reassembly.

Definition quote : jsstring := [34%N].
Definition block_prefix : jsstring := JS.lit "<glm_block".
Definition block_open : jsstring := JS.lit "<glm_block view=" ++ quote ++ quote ++ JS.lit ">".
Definition block_close : jsstring := JS.lit "</glm_block>".
Definition result_marker : jsstring := quote ++ JS.lit ", " ++ quote ++ JS.lit "result".
Definition empty_object : jsstring := JS.lit "{}".

(** [contentArray]: the fragment texts by ascending index. *)
Definition contentArray (fragments : NumMap.t) : list jsstring :=
  map (fun index => match NumMap.get fragments index with
                    | Some c => c
                    | None => []
                    end)
      (sort_indices (NumMap.keys fragments)).

(** One turn of the loop that glues fragments: the state is
    [(tempArray, temp_content)]. *)
Definition glue (st : list jsstring * jsstring) (fragment : jsstring)
  : list jsstring * jsstring :=
  let (tempArray, temp_content) := st in
  let content := JS.trim fragment in
  if JS.startsWith content block_prefix then
    (if JS.truthy temp_content then tempArray ++ [temp_content] else tempArray,
     content)
  else if JS.truthy temp_content && JS.endsWith content block_close then
    (tempArray, hd [] (JS.split temp_content result_marker) ++ content)
  else st.

Definition tempArray (contents : list jsstring) : list jsstring :=
  let (arr, temp_content) := fold_left glue contents ([], []) in
  if JS.truthy temp_content then arr ++ [temp_content] else arr.

(** [tempArray.slice(0, 1).join("\n")]: only the first block is kept. *)
Definition fullContent (fragments : NumMap.t) : jsstring :=
  JS.join SSE.newline (firstn 1 (tempArray (contentArray fragments))).

(** The captures of the global regular expression
    [<glm_block view="">([\s\S]*?)</glm_block>], in order: the text
    between an opening tag and the first closing tag after it; the search
    resumes after that closing tag.  Every capture uses up both tags, so
    the length of the text is fuel enough. *)
Fixpoint glmBlocks (fuel : nat) (s : jsstring) : list jsstring :=
  match fuel with
  | O => []
  | S f =>
      match JS.cut block_open s with
      | None => []
      | Some (_, r) =>
          match JS.cut block_close r with
          | None => []
          | Some (inner, r') => inner :: glmBlocks f r'
          end
      end
  end.

(** [s.replace(/<glm_block[\s\S]*?<\/glm_block>/g, '')]. *)
Fixpoint removeBlocks (fuel : nat) (s : jsstring) : jsstring :=
  match fuel with
  | O => s
  | S f =>
      match JS.cut block_prefix s with
      | None => s
      | Some (before, r) =>
          match JS.cut block_close r with
          | None => s
          | Some (_, r') => before ++ removeBlocks f r'
          end
      end
  end.

(** [parsed.data?.metadata || parsed.metadata || {}]; [None] is the
    TypeError of reading a property of [null]. *)
Definition metadata_of (parsed : JSON.value) : option JSON.value :=
  match parsed with
  | JSON.Null => None
  | _ =>
      let viaData :=
        match JSON.get parsed (JS.lit "data") with
        | None | Some JSON.Null => None
        | Some d => JSON.get d (JS.lit "metadata")
        end in
      let direct := JSON.get parsed (JS.lit "metadata") in
      Some (match viaData with
            | Some m => if JSON.truthy m then m
                        else match direct with
                             | Some m' => if JSON.truthy m' then m' else JSON.Obj []
                             | None => JSON.Obj []
                             end
            | None => match direct with
                      | Some m' => if JSON.truthy m' then m' else JSON.Obj []
                      | None => JSON.Obj []
                      end
            end)
  end.

(** [v || d] for a property that may be missing. *)
Definition or_default (o : option JSON.value) (d : JSON.value) : JSON.value :=
  match o with
  | Some v => if JSON.truthy v then v else d
  | None => d
  end.

(** The normalisation of [argsStr] into [finalArgs]. *)
Definition finalArgs (argsStr : JSON.value) : jsstring :=
  match argsStr with
  | JSON.Str s =>
      if JS.truthy s && negb (JS.eqb s empty_object) then
        if JS.startsWith s quote && JS.endsWith s quote then
          match JSON.parse s with
          | Some (JSON.Str unescapedArgsStr) =>
              match JSON.parse unescapedArgsStr with
              | Some _ => unescapedArgsStr
              | None => empty_object
              end
          | _ => empty_object
          end
        else
          match JSON.parse s with
          | Some _ => s
          | None => empty_object
          end
      else empty_object
  | _ => empty_object
  end.

(** The body of the [try] for one block: [None] when it throws; [count] is
    the number of invocations resolved so far. *)
Definition parseBlock (E : Env) (count : nat) (blockContent : jsstring)
  : option ToolInvocation :=
  match JSON.parse blockContent with
  | None => None
  | Some parsed =>
      match metadata_of parsed with
      | None => None
      | Some metadata =>
          let generated :=
            JS.lit "call_" ++ JS.decimal (now E) ++ JS.lit "_"
              ++ JS.decimal (Z.of_nat (count + 1)) in
          let toolId :=
            or_default (JSON.get metadata (JS.lit "id")) (JSON.Str generated) in
          let toolName :=
            or_default (JSON.get metadata (JS.lit "name"))
              (JSON.Str (JS.lit "unknown")) in
          let argsStr :=
            or_default (JSON.get metadata (JS.lit "arguments"))
              (JSON.Str empty_object) in
          Some {| tool_id := toolId; tool_name := toolName;
                  tool_arguments := finalArgs argsStr |}
      end
  end.

(** The [while ((match = glmBlockRegex.exec(fullContent)) !== null)] loop of
    the streaming handler. *)
Fixpoint collect (E : Env) (blocks : list jsstring) (toolCalls : list ToolInvocation)
  : list ToolInvocation :=
  match blocks with
  | [] => toolCalls
  | b :: r =>
      match parseBlock E (length toolCalls) b with
      | Some t => collect E r (toolCalls ++ [t])
      | None => collect E r toolCalls
      end
  end.

(** The invocations resolved from the fragment map of a run. *)
Definition resolve (E : Env) (fragments : NumMap.t) : list ToolInvocation :=
  let full := fullContent fragments in
  collect E (glmBlocks (length full) full) [].

End Reassembly.

(* ================================================================= *)
(** ** Output builders *)

Definition no_delta : Delta :=
  {| role := None; content := None; reasoning_content := None;
     tool_calls := None |}.

Definition role_delta (r : jsstring) : Delta :=
  {| role := Some r; content := None; reasoning_content := None;
     tool_calls := None |}.

Definition content_delta (c : jsstring) : Delta :=
  {| role := None; content := Some c; reasoning_content := None;
     tool_calls := None |}.

Definition reasoning_delta (c : jsstring) : Delta :=
  {| role := None; content := None; reasoning_content := Some c;
     tool_calls := None |}.

Definition tool_calls_delta (l : list ToolCallOut) : Delta :=
  {| role := None; content := None; reasoning_content := None;
     tool_calls := Some l |}.

(** [createOpenAIResponseChunk(model, delta, finishReason)]; a missing
    [delta] becomes the empty object. *)
Definition createOpenAIResponseChunk (E : Env) (model : jsstring)
  (delta : option Delta) (finishReason : option jsstring) : Chunk :=
  {| created := (now E / 1000)%Z;
     model := model;
     delta := match delta with Some d => d | None => no_delta end;
     chunk_finish_reason := finishReason;
     chunk_usage := None |}.

Definition stop : jsstring := JS.lit "stop".
Definition tool_calls_reason : jsstring := JS.lit "tool_calls".

(** [handleUpstreamError(error)]: the error is only logged. *)
Definition handleUpstreamError (E : Env) (error : option UpstreamError)
  : list Item :=
  [ChunkLine (createOpenAIResponseChunk E (PRIMARY_MODEL E) None (Some stop));
   DoneLine].

(** The elements of an array with their positions. *)
Fixpoint indexed (A : Type) (i : nat) (l : list A) : list (nat * A) :=
  match l with
  | [] => []
  | x :: r => (i, x) :: indexed (S i) r
  end.

(* ================================================================= *)
(** ** The streaming translator ([StreamResponseHandler]) *)

Module Stream.

(** The fields of the handler that change during a run. *)
Record State := {
  hasTools : bool;
  bufferedContent : jsstring;
  toolCalls : option (list JSON.value);
  streamEnded : bool;
  toolUsage : option Usage;
  toolCallFragments : NumMap.t;
  toolCallFinishReceived : bool
}.

Definition initial (hasTools : bool) : State :=
  {| hasTools := hasTools; bufferedContent := []; toolCalls := None;
     streamEnded := false; toolUsage := None; toolCallFragments := [];
     toolCallFinishReceived := false |}.

Definition set_hasTools (st : State) (v : bool) : State :=
  {| hasTools := v; bufferedContent := bufferedContent st;
     toolCalls := toolCalls st; streamEnded := streamEnded st;
     toolUsage := toolUsage st; toolCallFragments := toolCallFragments st;
     toolCallFinishReceived := toolCallFinishReceived st |}.

Definition set_bufferedContent (st : State) (v : jsstring) : State :=
  {| hasTools := hasTools st; bufferedContent := v;
     toolCalls := toolCalls st; streamEnded := streamEnded st;
     toolUsage := toolUsage st; toolCallFragments := toolCallFragments st;
     toolCallFinishReceived := toolCallFinishReceived st |}.

Definition set_toolCalls (st : State) (v : option (list JSON.value)) : State :=
  {| hasTools := hasTools st; bufferedContent := bufferedContent st;
     toolCalls := v; streamEnded := streamEnded st;
     toolUsage := toolUsage st; toolCallFragments := toolCallFragments st;
     toolCallFinishReceived := toolCallFinishReceived st |}.

Definition set_streamEnded (st : State) (v : bool) : State :=
  {| hasTools := hasTools st; bufferedContent := bufferedContent st;
     toolCalls := toolCalls st; streamEnded := v;
     toolUsage := toolUsage st; toolCallFragments := toolCallFragments st;
     toolCallFinishReceived := toolCallFinishReceived st |}.

Definition set_toolUsage (st : State) (v : option Usage) : State :=
  {| hasTools := hasTools st; bufferedContent := bufferedContent st;
     toolCalls := toolCalls st; streamEnded := streamEnded st;
     toolUsage := v; toolCallFragments := toolCallFragments st;
     toolCallFinishReceived := toolCallFinishReceived st |}.

Definition set_toolCallFragments (st : State) (v : NumMap.t) : State :=
  {| hasTools := hasTools st; bufferedContent := bufferedContent st;
     toolCalls := toolCalls st; streamEnded := streamEnded st;
     toolUsage := toolUsage st; toolCallFragments := v;
     toolCallFinishReceived := toolCallFinishReceived st |}.

Definition set_toolCallFinishReceived (st : State) (v : bool) : State :=
  {| hasTools := hasTools st; bufferedContent := bufferedContent st;
     toolCalls := toolCalls st; streamEnded := streamEnded st;
     toolUsage := toolUsage st; toolCallFragments := toolCallFragments st;
     toolCallFinishReceived := v |}.

(** [Boolean(error || data.error || (data.inner && data.inner.error))]. *)
Definition _hasError (upstreamData : UpstreamData) : bool :=
  match error upstreamData with
  | Some _ => true
  | None =>
      match data_error (data upstreamData) with
      | Some _ => true
      | None =>
          match inner (data upstreamData) with
          | Some i => match inner_error i with Some _ => true | None => false end
          | None => false
          end
      end
  end.

(** [error || data.error || (data.inner?.error || null)]. *)
Definition _getError (upstreamData : UpstreamData) : option UpstreamError :=
  match error upstreamData with
  | Some e => Some e
  | None =>
      match data_error (data upstreamData) with
      | Some e => Some e
      | None =>
          match inner (data upstreamData) with
          | Some i => inner_error i
          | None => None
          end
      end
  end.

Definition details_close : jsstring := JS.lit "</details>".

Definition _extractEditContent (editContent : jsstring) : jsstring :=
  let parts := JS.split editContent details_close in
  if (1 <? length parts)%nat then nth 1 parts [] else [].

Definition content_chunk (E : Env) (c : jsstring) : Item :=
  ChunkLine (createOpenAIResponseChunk E (PRIMARY_MODEL E)
               (Some (content_delta c)) None).

Definition reasoning_chunk (E : Env) (c : jsstring) : Item :=
  ChunkLine (createOpenAIResponseChunk E (PRIMARY_MODEL E)
               (Some (reasoning_delta c)) None).

Definition is_stop (v : option JSON.value) : bool :=
  match v with
  | Some (JSON.Str s) => JS.eqb s stop
  | _ => false
  end.

(** [_processContent(upstreamData, sentInitialAnswer)]: the items yielded
    and the handler's fields afterwards.  [sentInitialAnswer] is a
    parameter passed by value: the assignment the body makes to it is not
    seen by the caller, and the body does not read it again. *)
Definition _processContent (E : Env) (st : State) (upstreamData : UpstreamData)
  (sentInitialAnswer : bool) : list Item * State :=
  let d := data upstreamData in
  let content := JS.or_else (delta_content d) (edit_content d) in
  if negb (JS.truthy content) && negb (phase_eqb (phase d) ToolCall) then
    ([], st)
  else if phase_eqb (phase d) ToolCall then
    let st1 := if hasTools st then st else set_hasTools st true in
    let st2 :=
      if JS.truthy (edit_content d) then
        let editIndex := match edit_index d with Some i => i | None => 0%Z end in
        set_toolCallFragments st1
          (NumMap.set (toolCallFragments st1) editIndex (edit_content d))
      else st1 in
    ([], st2)
  else
    let st1 :=
      if phase_eqb (phase d) Answer then
        let sa := match usage d with
                  | Some u => set_toolUsage st (Some u)
                  | None => st
                  end in
        if is_stop (finish_reason d)
        then set_toolCallFinishReceived sa true else sa
      else st in
    if phase_eqb (phase d) Answer && JSON.truthy_opt (finish_reason d) then
      ([], st1)
    else
      match (if phase_eqb (phase d) Other then usage d else None) with
      | Some u => ([], set_toolUsage st1 (Some u))
      | None =>
          let processedContent :=
            if phase_eqb (phase d) Thinking
            then transformThinkingContent E content else content in
          if hasTools st1 then
            ([], if phase_eqb (phase d) Answer
                 then set_bufferedContent st1
                        (bufferedContent st1 ++ processedContent)
                 else st1)
          else
            let initialOut :=
              if negb sentInitialAnswer && JS.truthy (edit_content d)
                 && phase_eqb (phase d) Answer then
                let extractedContent := _extractEditContent (edit_content d) in
                if JS.truthy extractedContent
                then [content_chunk E extractedContent] else []
              else [] in
            let deltaOut :=
              if JS.truthy (delta_content d) && JS.truthy processedContent then
                if phase_eqb (phase d) Thinking
                then [reasoning_chunk E processedContent]
                else if phase_eqb (phase d) Answer
                then [content_chunk E processedContent]
                else []
              else [] in
            (initialOut ++ deltaOut, st1)
      end.

Definition function_type : JSON.value := JSON.Str (JS.lit "function").

(** The two increments sent for the invocation at position [i]. *)
Definition tool_call_chunks (E : Env) (it : nat * ToolInvocation) : list Item :=
  let (i, tool) := it in
  let initialToolCallDelta :=
    {| tc_index := Some i; tc_id := Some (tool_id tool);
       tc_type := function_type;
       tc_function := JSON.Obj [(JS.lit "name", tool_name tool);
                                (JS.lit "arguments", JSON.Str [])] |} in
  let argsToolCallDelta :=
    {| tc_index := Some i; tc_id := Some (tool_id tool);
       tc_type := function_type;
       tc_function :=
         JSON.Obj [(JS.lit "arguments", JSON.Str (tool_arguments tool))] |} in
  [ChunkLine (createOpenAIResponseChunk E (PRIMARY_MODEL E)
                (Some (tool_calls_delta [initialToolCallDelta])) None);
   ChunkLine (createOpenAIResponseChunk E (PRIMARY_MODEL E)
                (Some (tool_calls_delta [argsToolCallDelta])) None)].

Definition blank_line : jsstring := [10%N; 10%N].

(** The buffered text sent with resolved invocations: blocks removed,
    trimmed, cut at the first blank line. *)
Definition buffered_chunks (E : Env) (buffered : jsstring) : list Item :=
  if JS.truthy buffered && JS.truthy (JS.trim buffered) then
    let cleanContent :=
      JS.trim (Reassembly.removeBlocks (length buffered) buffered) in
    if JS.truthy cleanContent
    then [content_chunk E (hd [] (JS.split cleanContent blank_line))]
    else []
  else [].

(** [_processMultipleToolCalls()]. *)
Definition _processMultipleToolCalls (E : Env) (st : State)
  : list Item * State :=
  if (NumMap.size (toolCallFragments st) =? 0)%nat then ([], st)
  else
    let toolCalls := Reassembly.resolve E (toolCallFragments st) in
    match toolCalls with
    | [] => ([], st)
    | _ =>
        let endChunk :=
          createOpenAIResponseChunk E (PRIMARY_MODEL E) None
            (Some tool_calls_reason) in
        let endPayload :=
          match toolUsage st with
          | Some u => {| created := created endChunk; model := model endChunk;
                         delta := delta endChunk;
                         chunk_finish_reason := chunk_finish_reason endChunk;
                         chunk_usage := Some u |}
          | None => endChunk
          end in
        (flat_map (tool_call_chunks E) (indexed 0 toolCalls)
           ++ buffered_chunks E (bufferedContent st)
           ++ [ChunkLine endPayload; DoneLine],
         set_streamEnded st true)
    end.

(** The [catch (streamError)] clause. *)
Definition fault_close (E : Env) (st : State) : list Item * State :=
  if streamEnded st then ([], st)
  else ([ChunkLine (createOpenAIResponseChunk E (PRIMARY_MODEL E) None
                      (Some stop));
         DoneLine],
        set_streamEnded st true).

(** The increment sent for an element [tc] of the array of the fallback
    extractor; [None] is the TypeError of reading [tc.id] when the element
    is [null]. *)
Definition fallback_chunk (E : Env) (it : nat * JSON.value) : option Item :=
  let (i, tc) := it in
  match tc with
  | JSON.Null => None
  | _ =>
      let toolCallDelta :=
        {| tc_index := Some i;
           tc_id := JSON.get tc (JS.lit "id");
           tc_type :=
             Reassembly.or_default (JSON.get tc (JS.lit "type")) function_type;
           tc_function :=
             Reassembly.or_default (JSON.get tc (JS.lit "function"))
               (JSON.Obj []) |} in
      Some (ChunkLine (createOpenAIResponseChunk E (PRIMARY_MODEL E)
                         (Some (tool_calls_delta [toolCallDelta])) None))
  end.

(** The [for] loop over [this.toolCalls]: the increments sent, and whether
    the loop threw; the elements after the one that throws are not
    reached. *)
Fixpoint fallback_chunks (E : Env) (l : list (nat * JSON.value))
  : list Item * bool :=
  match l with
  | [] => ([], false)
  | it :: r =>
      match fallback_chunk E it with
      | None => ([], true)
      | Some c => let (out, thrown) := fallback_chunks E r in (c :: out, thrown)
      end
  end.

(** The body of [_sendEndChunk()]: the items yielded, the fields, and
    whether it threw; when it throws, neither the final chunk nor the
    sentinel has been sent and the flag is not set. *)
Definition _sendEndChunk_body (E : Env) (st : State)
  : list Item * State * bool :=
  if streamEnded st then ([], st, false)
  else
    let '(out, finishReason, st1, thrown) :=
      if hasTools st then
        let found := extractToolInvocations E (bufferedContent st) in
        let st1 := set_toolCalls st found in
        match found with
        | Some tcs =>
            let (out, thrown) := fallback_chunks E (indexed 0 tcs) in
            (out, tool_calls_reason, st1, thrown)
        | None =>
            let trimmedContent := removeToolJsonContent E (bufferedContent st) in
            (if JS.truthy trimmedContent
             then [content_chunk E trimmedContent] else [],
             stop, st1, false)
        end
      else ([], stop, st, false) in
    if thrown then (out, st1, true)
    else
      (out ++ [ChunkLine (createOpenAIResponseChunk E (PRIMARY_MODEL E) None
                            (Some finishReason));
               DoneLine],
       set_streamEnded st1 true, false).

(** [yield* this._sendEndChunk()] as [handle] runs it, inside its [try]:
    when the body throws, the [catch] clause of [handle] takes over and the
    loop is not entered again. *)
Definition _sendEndChunk (E : Env) (st : State) : list Item * State :=
  let '(out, st1, thrown) := _sendEndChunk_body E st in
  if thrown then
    let (out', st2) := fault_close E st1 in (out ++ out', st2)
  else (out, st1).

(** The error branch of the loop: the close is sent unless the stream
    has ended already. *)
Definition error_close (E : Env) (st : State) (upstreamData : UpstreamData)
  : list Item * State :=
  let error := _getError upstreamData in
  if streamEnded st then ([], st)
  else (handleUpstreamError E error, set_streamEnded st true).

(** One turn of the [for await] loop of [handle]: the items yielded, the
    fields afterwards, and whether the loop is left ([break]). *)
Definition turn (E : Env) (st : State) (upstreamData : UpstreamData)
  (sentInitialAnswer : bool) : list Item * State * bool :=
  if _hasError upstreamData then
    (error_close E st upstreamData, true)
  else
    let (out1, st1) := _processContent E st upstreamData sentInitialAnswer in
    if streamEnded st1 then (out1, st1, true)
    else if toolCallFinishReceived st1
            && negb (phase_eqb (phase (data upstreamData)) ToolCall)
            && hasTools st1
            && (0 <? NumMap.size (toolCallFragments st1))%nat
            && negb (streamEnded st1) then
      let (out2, st2) := _processMultipleToolCalls E st1 in
      (out1 ++ out2, st2, true)
    else if (done (data upstreamData)
             || phase_eqb (phase (data upstreamData)) Done)
            && negb (streamEnded st1) then
      if hasTools st1 && (0 <? NumMap.size (toolCallFragments st1))%nat then
        let (out2, st2) := _processMultipleToolCalls E st1 in
        (out1 ++ out2, st2, true)
      else
        let (out2, st2) := _sendEndChunk E st1 in
        (out1 ++ out2, set_streamEnded st2 true, true)
    else (out1, st1, false).

(** The [try] block with its [catch]: the loop over the payloads the
    parser delivers; a fault of the iteration is met when the loop asks
    for the next payload. *)
Fixpoint loop (E : Env) (st : State) (payloads : list UpstreamData)
  (ending : Ending) (sentInitialAnswer : bool) : list Item * State :=
  match payloads with
  | [] =>
      match ending with
      | EndOfStream => ([], st)
      | Fault => fault_close E st
      end
  | upstreamData :: rest =>
      let '(out, st1, leave) := turn E st upstreamData sentInitialAnswer in
      if leave then (out, st1)
      else
        let (out', st2) := loop E st1 rest ending sentInitialAnswer in
        (out ++ out', st2)
  end.

Definition call_failed : jsstring := JS.lit "Failed to call upstream".
Definition upstream_error : jsstring := JS.lit "Upstream error".
Definition assistant : jsstring := JS.lit "assistant".

(** [handle()]: everything the generator yields, and the fields when it
    returns.  The local [sentInitialAnswer] is set to [false] once and is
    never assigned again in [handle]. *)
Definition handle (E : Env) (hasTools : bool) (call : UpstreamCall)
  : list Item * State :=
  let st := initial hasTools in
  match call with
  | Rejected => ([ErrorLine call_failed], st)
  | Responded false _ _ => ([ErrorLine upstream_error], st)
  | Responded true payloads ending =>
      let firstChunk :=
        createOpenAIResponseChunk E (PRIMARY_MODEL E)
          (Some (role_delta assistant)) None in
      let sentInitialAnswer := false in
      let (out, st1) := loop E st payloads ending sentInitialAnswer in
      (ChunkLine firstChunk :: out, set_streamEnded st1 true)
  end.

End Stream.

(* ================================================================= *)
(** ** The aggregate translator ([NonStreamResponseHandler]) *)

Module NonStream.

Record Message := {
  msg_role : jsstring;
  msg_content : option jsstring;
  msg_tool_calls : option (list ToolCallOut)
}.

(** An [OpenAIResponse] of object type ["chat.completion"], with its
    single choice flattened. *)
Record Document := {
  doc_created : Z;
  doc_model : jsstring;
  message : Message;
  doc_finish_reason : jsstring;
  doc_usage : Usage
}.

Inductive Response :=
| Completion (body : Document)            (* status 200 *)
| BadGateway (message : jsstring).        (* status 502 *)

(** [Array.prototype.includes] compares with SameValueZero: primitives by
    value; an object or array parsed from a block is a new object, equal to
    none met before.  Numbers are compared as doubles, and the two zeros
    are equal ([JSON.parse] gives no [NaN]). *)
Definition num_eqb (a b : JSON.number) : bool :=
  SpecFloat.SFeqb (JSON.to_double a) (JSON.to_double b).

Definition sameValueZero (a b : JSON.value) : bool :=
  match a, b with
  | JSON.Null, JSON.Null => true
  | JSON.Bool x, JSON.Bool y => Bool.eqb x y
  | JSON.Num x, JSON.Num y => num_eqb x y
  | JSON.Str x, JSON.Str y => JS.eqb x y
  | _, _ => false
  end.

(** The fields of the handler that change during a run, with the local
    [fullContent] of [handle].  [nsTools] holds [nsToolOrder] and, beside
    each id, the entries [nsToolNames] and [nsToolArgs] received for it: the
    three are only ever extended together, under the same guard. *)
Record State := {
  nsTools : list ToolInvocation;
  nsUsage : option Usage;
  nsToolCallFragments : NumMap.t;
  nsToolCallFinishReceived : bool;
  fullContent : list jsstring
}.

Definition initial : State :=
  {| nsTools := []; nsUsage := None; nsToolCallFragments := [];
     nsToolCallFinishReceived := false; fullContent := [] |}.

Definition set_nsTools (st : State) (v : list ToolInvocation) : State :=
  {| nsTools := v; nsUsage := nsUsage st;
     nsToolCallFragments := nsToolCallFragments st;
     nsToolCallFinishReceived := nsToolCallFinishReceived st;
     fullContent := fullContent st |}.

Definition set_nsUsage (st : State) (v : option Usage) : State :=
  {| nsTools := nsTools st; nsUsage := v;
     nsToolCallFragments := nsToolCallFragments st;
     nsToolCallFinishReceived := nsToolCallFinishReceived st;
     fullContent := fullContent st |}.

Definition set_nsToolCallFragments (st : State) (v : NumMap.t) : State :=
  {| nsTools := nsTools st; nsUsage := nsUsage st;
     nsToolCallFragments := v;
     nsToolCallFinishReceived := nsToolCallFinishReceived st;
     fullContent := fullContent st |}.

Definition set_nsToolCallFinishReceived (st : State) (v : bool) : State :=
  {| nsTools := nsTools st; nsUsage := nsUsage st;
     nsToolCallFragments := nsToolCallFragments st;
     nsToolCallFinishReceived := v;
     fullContent := fullContent st |}.

Definition set_fullContent (st : State) (v : list jsstring) : State :=
  {| nsTools := nsTools st; nsUsage := nsUsage st;
     nsToolCallFragments := nsToolCallFragments st;
     nsToolCallFinishReceived := nsToolCallFinishReceived st;
     fullContent := v |}.

(** The [while] loop of [_processNonStreamMultipleToolCalls]: an id met
    before is not recorded again. *)
Fixpoint record_blocks (E : Env) (blocks : list jsstring)
  (tools : list ToolInvocation) : list ToolInvocation :=
  match blocks with
  | [] => tools
  | b :: r =>
      match Reassembly.parseBlock E (length tools) b with
      | Some t =>
          if existsb (fun t' => sameValueZero (tool_id t') (tool_id t)) tools
          then record_blocks E r tools
          else record_blocks E r (tools ++ [t])
      | None => record_blocks E r tools
      end
  end.

Definition _processNonStreamMultipleToolCalls (E : Env) (st : State) : State :=
  if (NumMap.size (nsToolCallFragments st) =? 0)%nat then st
  else
    let full := Reassembly.fullContent (nsToolCallFragments st) in
    set_nsTools st
      (record_blocks E (Reassembly.glmBlocks (length full) full) (nsTools st)).

(** One turn of the [for await] loop of [handle]: the fields afterwards and
    whether the loop is left. *)
Definition turn (E : Env) (hasTools : bool) (st : State)
  (upstreamData : UpstreamData) : State * bool :=
  let d := data upstreamData in
  if hasTools && phase_eqb (phase d) ToolCall && JS.truthy (edit_content d) then
    let editIndex := match edit_index d with Some i => i | None => 0%Z end in
    (set_nsToolCallFragments st
       (NumMap.set (nsToolCallFragments st) editIndex (edit_content d)),
     false)
  else
    let st1 :=
      if phase_eqb (phase d) Answer then
        let sa := match usage d with
                  | Some u => set_nsUsage st (Some u)
                  | None => st
                  end in
        if Stream.is_stop (finish_reason d)
        then set_nsToolCallFinishReceived sa true else sa
      else st in
    if phase_eqb (phase d) Answer && JSON.truthy_opt (finish_reason d) then
      (st1, false)
    else
      match (if phase_eqb (phase d) Other then usage d else None) with
      | Some u => (set_nsUsage st1 (Some u), false)
      | None =>
          let st2 :=
            if JS.truthy (delta_content d) then
              let content :=
                if phase_eqb (phase d) Thinking
                then transformThinkingContent E (delta_content d)
                else delta_content d in
              if JS.truthy content
              then set_fullContent st1 (fullContent st1 ++ [content])
              else st1
            else st1 in
          let st3 :=
            if nsToolCallFinishReceived st2
               && negb (phase_eqb (phase d) ToolCall)
               && hasTools
               && (0 <? NumMap.size (nsToolCallFragments st2))%nat
            then _processNonStreamMultipleToolCalls E st2 else st2 in
          (st3, done d || phase_eqb (phase d) Done)
      end.

(** The loop inside [try ... finally]: [None] when the iteration throws,
    which [handle] does not catch. *)
Fixpoint loop (E : Env) (hasTools : bool) (st : State)
  (payloads : list UpstreamData) (ending : Ending) : option State :=
  match payloads with
  | [] => match ending with EndOfStream => Some st | Fault => None end
  | upstreamData :: rest =>
      let (st1, leave) := turn E hasTools st upstreamData in
      if leave then Some st1 else loop E hasTools st1 rest ending
  end.

Definition zero_usage : Usage :=
  {| prompt_tokens := 0; completion_tokens := 0; total_tokens := 0 |}.

(** One element of the final [tool_calls] list. *)
Definition tool_call_out (t : ToolInvocation) : ToolCallOut :=
  let args0 := JS.or_else (tool_arguments t) Reassembly.empty_object in
  let args := match JSON.parse args0 with
              | Some _ => args0
              | None => Reassembly.empty_object
              end in
  {| tc_index := None;
     tc_id := Some (tool_id t);
     tc_type := Stream.function_type;
     tc_function :=
       JSON.Obj [(JS.lit "name",
                  Reassembly.or_default (Some (tool_name t))
                    (JSON.Str (JS.lit "unknown")));
                 (JS.lit "arguments", JSON.Str args)] |}.

(** The check made after the loop: fragments not yet processed are
    processed now. *)
Definition last_check (E : Env) (hasTools : bool) (st : State) : State :=
  if nsToolCallFinishReceived st && hasTools
     && (0 <? NumMap.size (nsToolCallFragments st))%nat
     && (length (nsTools st) =? 0)%nat
  then _processNonStreamMultipleToolCalls E st else st.

(** The part of [handle] after the loop: the document built from the
    fields. *)
Definition build (E : Env) (hasTools : bool) (st : State) : Document :=
  let finalContent := JS.join [] (fullContent st) in
  let st1 := last_check E hasTools st in
  let resolved := hasTools && (0 <? length (nsTools st1))%nat in
  let messageContent0 :=
    if resolved then
      let cleanContent :=
        JS.trim (Reassembly.removeBlocks (length finalContent) finalContent) in
      if JS.truthy cleanContent then Some cleanContent else None
    else Some finalContent in
  let '(toolCalls, messageContent, finishReason) :=
    if resolved
    then (Some (map tool_call_out (nsTools st1)), None, tool_calls_reason)
    else (None, messageContent0, stop) in
  {| doc_created := (now E / 1000)%Z;
     doc_model := PRIMARY_MODEL E;
     message := {| msg_role := Stream.assistant;
                   msg_content := messageContent;
                   msg_tool_calls := toolCalls |};
     doc_finish_reason := finishReason;
     doc_usage := match nsUsage st1 with Some u => u | None => zero_usage end |}.

(** The state the loop of [handle] ends in. *)
Definition collected (E : Env) (hasTools : bool)
  (payloads : list UpstreamData) (ending : Ending) : option State :=
  loop E hasTools initial payloads ending.

(** [handle()]: [None] when the returned promise rejects. *)
Definition handle (E : Env) (hasTools : bool) (call : UpstreamCall)
  : option Response :=
  match call with
  | Rejected => Some (BadGateway Stream.call_failed)
  | Responded false _ _ => Some (BadGateway Stream.upstream_error)
  | Responded true payloads ending =>
      match collected E hasTools payloads ending with
      | Some st => Some (Completion (build E hasTools st))
      | None => None
      end
  end.

End NonStream.

(** An environment for the closed examples: the collaborators are outside
    the sources, and no example below depends on what these stand-ins
    return. *)
Definition sample_env : Env :=
  {| PRIMARY_MODEL := JS.lit "GLM-4.5";
     now := 1700000000000;
     transformThinkingContent := fun s => s;
     extractToolInvocations := fun _ => None;
     removeToolJsonContent := fun s => s |}.

(* ================================================================= *)
(** ** Payloads and runs used in the statements *)

Definition chat_completion : jsstring := JS.lit "chat:completion".

(** A payload without error fields and without finish value. *)
Definition payload (ph : Phase) (delta edit : jsstring) (index : option Z)
  (is_done : bool) : UpstreamData :=
  {| type := chat_completion;
     data := {| delta_content := delta; edit_content := edit;
                phase := ph; edit_index := index;
                done := is_done; usage := None; data_error := None;
                inner := None; finish_reason := None |};
     error := None |}.

(** [{phase: "answer", delta_content: text}]. *)
Definition answer_delta (text : jsstring) : UpstreamData :=
  payload Answer text [] None false.

(** [{phase: "answer", edit_content: text}]. *)
Definition answer_edit (text : jsstring) : UpstreamData :=
  payload Answer [] text None false.

(** [{phase: "other", delta_content: text}]. *)
Definition other_delta (text : jsstring) : UpstreamData :=
  payload Other text [] None false.

(** [{done: true}]. *)
Definition done_payload : UpstreamData :=
  payload Unknown [] [] None true.

(** An answer payload with a finish value: [choices[0].finish_reason]. *)
Definition answer_finished (text : jsstring) (reason : JSON.value)
  : UpstreamData :=
  {| type := chat_completion;
     data := {| delta_content := text; edit_content := [];
                phase := Answer; edit_index := None;
                done := false; usage := None; data_error := None;
                inner := None; finish_reason := Some reason |};
     error := None |}.

(** An answer payload that also carries a top-level error. *)
Definition answer_with_error (text : jsstring) (e : UpstreamError)
  : UpstreamData :=
  {| type := chat_completion;
     data := {| delta_content := text; edit_content := [];
                phase := Answer; edit_index := None;
                done := false; usage := None; data_error := None;
                inner := None; finish_reason := None |};
     error := Some e |}.

(** A payload of phase [tool_call] carrying the fragment [(index, text)]. *)
Definition fragment_payload (fragment : Z * jsstring) : UpstreamData :=
  payload ToolCall [] (snd fragment) (Some (fst fragment)) false.

(** The fields of a streaming run after [_processContent] has received the
    fragments in the order of the list. *)
Definition feed (E : Env) (st : Stream.State) (fragments : list (Z * jsstring))
  : Stream.State :=
  fold_left
    (fun st fragment =>
       snd (Stream._processContent E st (fragment_payload fragment) false))
    fragments st.

(** The same for the loop of the aggregate translator, with tools
    enabled. *)
Definition feed_aggregate (E : Env) (st : NonStream.State)
  (fragments : list (Z * jsstring)) : NonStream.State :=
  fold_left
    (fun st fragment => fst (NonStream.turn E true st (fragment_payload fragment)))
    fragments st.

(** What one fragment does to the map. *)
Definition store (m : NumMap.t) (fragment : Z * jsstring) : NumMap.t :=
  if JS.truthy (snd fragment)
  then NumMap.set m (fst fragment) (snd fragment) else m.

(** Two fragment maps with the same entries, whatever their insertion
    order. *)
Definition same_entries (m m' : NumMap.t) : Prop :=
  Permutation (NumMap.keys m) (NumMap.keys m')
  /\ forall k, NumMap.get m k = NumMap.get m' k.

(* ================================================================= *)
(** ** The block of scenario B *)

Definition backslash : jsstring := [92%N].

(** The block of scenario B of the spec:
    [<glm_block view="">{"metadata":{"id":"call_1","name":"f","arguments":"{\"x\":1}"}}</glm_block>]. *)
Definition scenario_block : jsstring :=
  Reassembly.block_open
    ++ JS.lit "{" ++ Reassembly.quote ++ JS.lit "metadata" ++ Reassembly.quote
    ++ JS.lit ":{" ++ Reassembly.quote ++ JS.lit "id" ++ Reassembly.quote
    ++ JS.lit ":" ++ Reassembly.quote ++ JS.lit "call_1" ++ Reassembly.quote
    ++ JS.lit "," ++ Reassembly.quote ++ JS.lit "name" ++ Reassembly.quote
    ++ JS.lit ":" ++ Reassembly.quote ++ JS.lit "f" ++ Reassembly.quote
    ++ JS.lit "," ++ Reassembly.quote ++ JS.lit "arguments" ++ Reassembly.quote
    ++ JS.lit ":" ++ Reassembly.quote ++ JS.lit "{" ++ backslash
    ++ Reassembly.quote ++ JS.lit "x" ++ backslash ++ Reassembly.quote
    ++ JS.lit ":1}" ++ Reassembly.quote ++ JS.lit "}}"
    ++ Reassembly.block_close.

(** The invocation it carries. *)
Definition scenario_invocation : ToolInvocation :=
  {| tool_id := JSON.Str (JS.lit "call_1");
     tool_name := JSON.Str (JS.lit "f");
     tool_arguments :=
       JS.lit "{" ++ Reassembly.quote ++ JS.lit "x" ++ Reassembly.quote
         ++ JS.lit ":1}" |}.

(** The aggregate run of the witness below, and the state its loop ends
    in. *)
Definition scenario_payloads : list UpstreamData :=
  [fragment_payload (0%Z, firstn 40 scenario_block);
   fragment_payload (1%Z, skipn 40 scenario_block);
   answer_finished [] (JSON.Str stop)].

Definition scenario_state : NonStream.State :=
  match NonStream.collected sample_env true scenario_payloads EndOfStream with
  | Some st => st
  | None => NonStream.initial
  end.

(* ================================================================= *)
(** ** What the aggregate loop collects *)

(** A payload the aggregate loop passes over with [continue]: a stored
    fragment, an answer payload with a finish value, an other-phase payload
    with usage. *)
Definition passed_over (hasTools : bool) (d : UpstreamData) : bool :=
  hasTools && phase_eqb (phase (data d)) ToolCall
    && JS.truthy (edit_content (data d))
  || phase_eqb (phase (data d)) Answer
     && JSON.truthy_opt (finish_reason (data d))
  || phase_eqb (phase (data d)) Other
     && match usage (data d) with Some _ => true | None => false end.

(** The text the aggregate loop collects from one payload. *)
Definition collected_text (E : Env) (hasTools : bool) (d : UpstreamData)
  : list jsstring :=
  if passed_over hasTools d then []
  else if JS.truthy (delta_content (data d)) then
    let content :=
      if phase_eqb (phase (data d)) Thinking
      then transformThinkingContent E (delta_content (data d))
      else delta_content (data d) in
    if JS.truthy content then [content] else []
  else [].

(** A payload that ends the aggregate loop. *)
Definition ends_loop (hasTools : bool) (d : UpstreamData) : bool :=
  negb (passed_over hasTools d)
  && (done (data d) || phase_eqb (phase (data d)) Done).

(** The payloads the aggregate loop reads: up to the first that ends it. *)
Fixpoint payloads_read (hasTools : bool) (payloads : list UpstreamData)
  : list UpstreamData :=
  match payloads with
  | [] => []
  | d :: rest =>
      if ends_loop hasTools d then [d] else d :: payloads_read hasTools rest
  end.

(* ================================================================= *)
(** ** Terminal sequences *)

(** A chunk that carries a finish reason. *)
Definition is_finish (i : Item) : bool :=
  match i with
  | ChunkLine c => match chunk_finish_reason c with
                   | Some _ => true
                   | None => false
                   end
  | _ => false
  end.

Definition is_done_line (i : Item) : bool :=
  match i with DoneLine => true | _ => false end.

(** An item that may only occur in a terminal sequence. *)
Definition is_terminal (i : Item) : bool := is_finish i || is_done_line i.

(** One finish-reason chunk followed by the sentinel. *)
Inductive terminal_sequence : list Item -> Prop :=
| terminal_sequence_intro (c : Chunk) (reason : jsstring) :
    chunk_finish_reason c = Some reason ->
    terminal_sequence [ChunkLine c; DoneLine].

(** The items of a run: no terminal item, then nothing or one terminal
    sequence. *)
Definition closed_at_most_once (out : list Item) : Prop :=
  exists body closing,
    out = body ++ closing
    /\ Forall (fun i => is_terminal i = false) body
    /\ (closing = [] \/ terminal_sequence closing).

(* ================================================================= *)
(** ** Records of the lexer *)

(** A data record flagged as not JSON carries its raw text as data, and
    that text does not parse. *)
Definition flagged_right (e : SSE.SSEEvent) : Prop :=
  match e with
  | SSE.DataEvent data raw false =>
      data = JSON.Str raw /\ JSON.parse raw = None
  | _ => True
  end.

Definition is_data (e : SSE.SSEEvent) : bool :=
  match e with SSE.DataEvent _ _ _ => true | _ => false end.

(** The state of the decoder after the chunks read so far, and the line
    left pending in the buffer: the text after the last line feed. *)
Definition decoder_state (D : TextDecoder) (chunks : list (list Byte.byte))
  : dstate D :=
  fst (decode D (dinit D) (concat chunks)).

Definition pending_line (D : TextDecoder) (chunks : list (list Byte.byte))
  : jsstring :=
  last (JS.split (snd (decode D (dinit D) (concat chunks))) SSE.newline) [].

(* ================================================================= *)
(** ** Resolved invocations *)

(** A text that [JSON.parse] accepts. *)
Definition is_json_text (s : jsstring) : Prop :=
  exists j, JSON.parse s = Some j.

(** No invocation has the id of one recorded before it, as
    [Array.prototype.includes] compares ids. *)
Definition distinct_ids (tools : list ToolInvocation) : Prop :=
  ForallOrdPairs
    (fun a b => NonStream.sameValueZero (tool_id a) (tool_id b) = false)
    tools.

(** A fragment that opens a block. *)
Definition opens_block (fragment : jsstring) : bool :=
  JS.startsWith (JS.trim fragment) Reassembly.block_prefix.

(** The run of the witness of the distinct ids: after the finish value the
    fragments are processed at each of the two answer payloads. *)
Definition repeated_payloads : list UpstreamData :=
  [fragment_payload (0%Z, firstn 40 scenario_block);
   fragment_payload (1%Z, skipn 40 scenario_block);
   answer_finished [] (JSON.Str stop);
   answer_delta (JS.lit "a");
   answer_delta (JS.lit "b")].

Definition repeated_state : NonStream.State :=
  match NonStream.collected sample_env true repeated_payloads EndOfStream with
  | Some st => st
  | None => NonStream.initial
  end.

(** The entry of the [tool_calls] list for an invocation, with the name and
    the arguments as they were recorded. *)
Definition recorded_out (t : ToolInvocation) : ToolCallOut :=
  {| tc_index := None;
     tc_id := Some (tool_id t);
     tc_type := Stream.function_type;
     tc_function :=
       JSON.Obj [(JS.lit "name", tool_name t);
                 (JS.lit "arguments", JSON.Str (tool_arguments t))] |}.

(** What the loop that glues fragments has assembled in a state
    [(tempArray, temp_content)], with the text still open pushed. *)
Definition flush (st : list jsstring * jsstring) : list jsstring :=
  if JS.truthy (snd st) then fst st ++ [snd st] else fst st.

(* ================================================================= *)
(** ** Runs of the streaming translator *)

(** A payload that neither reports an error, nor says that the answer is
    done, nor carries the finish value [stop]. *)
Definition quiet (d : UpstreamData) : bool :=
  negb (Stream._hasError d)
  && negb (done (data d))
  && negb (phase_eqb (phase (data d)) Done)
  && negb (Stream.is_stop (finish_reason (data d))).

(** The chunk with finish reason [stop] and the sentinel. *)
Definition stop_close (E : Env) : list Item :=
  [ChunkLine (createOpenAIResponseChunk E (PRIMARY_MODEL E) None (Some stop));
   DoneLine].

(** The first chunk of every stream. *)
Definition role_chunk (E : Env) : Item :=
  ChunkLine (createOpenAIResponseChunk E (PRIMARY_MODEL E)
               (Some (role_delta Stream.assistant)) None).

(** An item that carries usage only beside the finish reason
    [tool_calls]. *)
Definition usage_on_tool_calls_only (i : Item) : Prop :=
  match i with
  | ChunkLine c =>
      chunk_usage c <> None -> chunk_finish_reason c = Some tool_calls_reason
  | _ => True
  end.

(** The text of the content increments of a stream, joined. *)
Definition streamed_content (out : list Item) : jsstring :=
  concat (map (fun i => match i with
                        | ChunkLine c =>
                            match content (delta c) with
                            | Some t => t
                            | None => []
                            end
                        | _ => []
                        end) out).

(** The chunk with finish reason [tool_calls] and the sentinel. *)
Definition tool_calls_close (E : Env) : list Item :=
  [ChunkLine (createOpenAIResponseChunk E (PRIMARY_MODEL E) None
                (Some tool_calls_reason));
   DoneLine].

(** The fragment map of a run that has received the fragments of the list,
    in that order. *)
Definition fragment_map (fragments : list (Z * jsstring)) : NumMap.t :=
  fold_left store fragments [].

(* ================================================================= *)
(** ** Usage in the aggregated document *)

(** The usage the aggregate loop takes from a payload: that of an answer
    payload or of an other-phase payload, unless the payload is stored as
    a fragment. *)
Definition reported_usage (hasTools : bool) (d : UpstreamData)
  : option Usage :=
  if hasTools && phase_eqb (phase (data d)) ToolCall
     && JS.truthy (edit_content (data d))
  then None
  else if phase_eqb (phase (data d)) Answer
          || phase_eqb (phase (data d)) Other
  then usage (data d)
  else None.

(** The last value of a list of optional values, after [start]. *)
Definition latest (A : Type) (start : option A) (l : list (option A))
  : option A :=
  fold_left (fun acc o => match o with Some u => Some u | None => acc end)
    l start.

(** A payload of phase [ph] that carries usage and nothing else. *)
Definition with_usage (ph : Phase) (u : Usage) : UpstreamData :=
  {| type := chat_completion;
     data := {| delta_content := []; edit_content := [];
                phase := ph; edit_index := None;
                done := false; usage := Some u; data_error := None;
                inner := None; finish_reason := None |};
     error := None |}.

(** The run of the witness of the usage: usage on an other-phase payload,
    and again on the payload of phase [done] that ends the run. *)
Definition usage_first : Usage :=
  {| prompt_tokens := 3; completion_tokens := 4; total_tokens := 7 |}.

Definition usage_at_done : Usage :=
  {| prompt_tokens := 3; completion_tokens := 5; total_tokens := 8 |}.

Definition usage_payloads : list UpstreamData :=
  [with_usage Other usage_first; answer_delta (JS.lit "Hi");
   with_usage Done usage_at_done].

Definition usage_state : NonStream.State :=
  match NonStream.collected sample_env false usage_payloads EndOfStream with
  | Some st => st
  | None => NonStream.initial
  end.

(* ================================================================= *)
(** ** Fragments in the aggregate translator *)

(** The document of a run that has resolved nothing and collected no
    text. *)
Definition empty_document (E : Env) : NonStream.Document :=
  {| NonStream.doc_created := (now E / 1000)%Z;
     NonStream.doc_model := PRIMARY_MODEL E;
     NonStream.message :=
       {| NonStream.msg_role := Stream.assistant;
          NonStream.msg_content := Some [];
          NonStream.msg_tool_calls := None |};
     NonStream.doc_finish_reason := stop;
     NonStream.doc_usage := NonStream.zero_usage |}.

(** The document that carries the invocations [tools] and nothing else. *)
Definition tool_calls_document (E : Env) (tools : list ToolInvocation)
  : NonStream.Document :=
  {| NonStream.doc_created := (now E / 1000)%Z;
     NonStream.doc_model := PRIMARY_MODEL E;
     NonStream.message :=
       {| NonStream.msg_role := Stream.assistant;
          NonStream.msg_content := None;
          NonStream.msg_tool_calls := Some (map NonStream.tool_call_out tools) |};
     NonStream.doc_finish_reason := tool_calls_reason;
     NonStream.doc_usage := NonStream.zero_usage |}.

(* ================================================================= *)
(** ** Statements about errors, arguments and finish values *)

(** A payload with its three error fields cleared. *)
Definition without_error (d : UpstreamData) : UpstreamData :=
  {| type := type d;
     data := {| delta_content := delta_content (data d);
                edit_content := edit_content (data d);
                phase := phase (data d);
                edit_index := edit_index (data d);
                done := done (data d);
                usage := usage (data d);
                data_error := None;
                inner := None;
                finish_reason := finish_reason (data d) |};
     error := None |}.

(** The run that shows the missing error check: an answer payload that
    also carries a top-level error, a further answer payload, and a done
    payload. *)
Definition error_run : list UpstreamData :=
  [answer_with_error (JS.lit "x") {| detail := JS.lit "boom"; code := 500 |};
   answer_delta (JS.lit "y");
   done_payload].

(** The arguments texts carried by the tool-call increments of a stream,
    in order. *)
Definition sent_arguments (out : list Item) : list jsstring :=
  flat_map
    (fun i =>
       match i with
       | ChunkLine c =>
           match tool_calls (delta c) with
           | Some l =>
               flat_map
                 (fun tc =>
                    match JSON.get (tc_function tc) (JS.lit "arguments") with
                    | Some (JSON.Str a) => [a]
                    | _ => []
                    end) l
           | None => []
           end
       | _ => []
       end) out.

(** The text a payload adds to the buffer of a run in tool mode: the text
    of an answer payload without finish value. *)
Definition buffered_text (d : UpstreamData) : jsstring :=
  if phase_eqb (phase (data d)) Answer
     && negb (JSON.truthy_opt (finish_reason (data d)))
  then JS.or_else (delta_content (data d)) (edit_content (data d))
  else [].

(** An answer payload that carries the finish value [stop]. *)
Definition signals_stop (d : UpstreamData) : bool :=
  phase_eqb (phase (data d)) Answer
  && Stream.is_stop (finish_reason (data d)).

(* ================================================================= *)
(** * Properties *)

(** ** Strings *)

Lemma eqb_eq (a b : jsstring) : JS.eqb a b = true <-> a = b.
Proof.
  revert b; induction a as [|x a IH]; intros [|y b]; simpl; split;
    try congruence; try reflexivity.
  - intros H. apply andb_prop in H as [H1 H2].
    apply N.eqb_eq in H1. apply IH in H2. congruence.
  - intros H. inversion H; subst. rewrite N.eqb_refl. simpl. now apply IH.
Qed.

Lemma or_else_nil (s : jsstring) : JS.or_else s [] = s.
Proof. destruct s; reflexivity. Qed.

Lemma split_go_not_nil sep k cur s : JS.split_go sep k cur s <> [].
Proof.
  revert k cur; induction s as [|c r IH]; intros k cur; cbn [JS.split_go].
  - discriminate.
  - destruct k; [destruct (JS.startsWith (c :: r) sep)|]; try discriminate;
      apply IH.
Qed.

Lemma startsWith_single (c x : N) (r : jsstring) :
  JS.startsWith (x :: r) [c] = N.eqb c x.
Proof. simpl. destruct r; apply andb_true_r. Qed.

(** Splitting on a one-unit separator, one step at a time. *)
Lemma split_go_single_cons c cur x r :
  JS.split_go [c] 0 cur (x :: r) =
  if N.eqb c x then rev cur :: JS.split_go [c] 0 [] r
  else JS.split_go [c] 0 (x :: cur) r.
Proof. cbn [JS.split_go]. rewrite startsWith_single. reflexivity. Qed.

Lemma split_go_single_app c (a b cur : jsstring) :
  JS.split_go [c] 0 cur (a ++ b) =
  removelast (JS.split_go [c] 0 cur a)
    ++ JS.split_go [c] 0 (rev (last (JS.split_go [c] 0 cur a) [])) b.
Proof.
  revert cur; induction a as [|x a IH]; intros cur.
  - simpl. now rewrite rev_involutive.
  - rewrite <- app_comm_cons, !split_go_single_cons.
    destruct (N.eqb c x).
    + rewrite IH.
      pose proof (split_go_not_nil [c] 0 [] a) as Hne.
      destruct (JS.split_go [c] 0 [] a) as [|l ls] eqn:E; [congruence|].
      reflexivity.
    + apply IH.
Qed.

Lemma split_go_single_free c (p b cur : jsstring) :
  ~ In c p ->
  JS.split_go [c] 0 cur (p ++ b) = JS.split_go [c] 0 (rev p ++ cur) b.
Proof.
  revert cur; induction p as [|x p IH]; intros cur Hp; [reflexivity|].
  rewrite <- app_comm_cons, split_go_single_cons.
  destruct (N.eqb_spec c x) as [->|Hne].
  - exfalso; apply Hp; now left.
  - rewrite IH by (intros H; apply Hp; now right).
    simpl. now rewrite <- app_assoc.
Qed.

Lemma last_split_go_single_free c (s cur : jsstring) :
  ~ In c cur -> ~ In c (last (JS.split_go [c] 0 cur s) []).
Proof.
  revert cur; induction s as [|x s IH]; intros cur Hc.
  - simpl. now rewrite <- in_rev.
  - rewrite split_go_single_cons.
    destruct (N.eqb_spec c x) as [->|Hne].
    + pose proof (split_go_not_nil [x] 0 [] s) as Hne.
      specialize (IH [] (fun H => H)).
      destruct (JS.split_go [x] 0 [] s) as [|l ls] eqn:E; [congruence|].
      exact IH.
    + apply IH. intros [H|H]; [congruence|auto].
Qed.

(** The complete lines of a text, and the piece after its last line
    break. *)
Lemma split_app_newline (a b : jsstring) :
  JS.split (a ++ b) SSE.newline =
  removelast (JS.split a SSE.newline)
    ++ JS.split (last (JS.split a SSE.newline) [] ++ b) SSE.newline.
Proof.
  unfold JS.split, SSE.newline.
  rewrite split_go_single_app. f_equal.
  rewrite split_go_single_free, app_nil_r; [reflexivity|].
  apply last_split_go_single_free. auto.
Qed.

Lemma split_free_newline (p : jsstring) :
  ~ In 10%N p -> JS.split p SSE.newline = [p].
Proof.
  intros Hp. unfold JS.split, SSE.newline.
  rewrite <- (app_nil_r p) at 1.
  rewrite split_go_single_free by assumption.
  simpl. now rewrite app_nil_r, rev_involutive.
Qed.

(** ** The fuel of [JSON.parse] *)

Lemma skip_ws_length (s : jsstring) : length (JSON.skip_ws s) <= length s.
Proof.
  induction s as [|c r IH]; simpl; [lia|].
  destruct (JSON.is_ws c); simpl; lia.
Qed.

Lemma skip_ws_cons (s : jsstring) c r :
  JSON.skip_ws s = c :: r -> length r < length s.
Proof.
  intros H. pose proof (skip_ws_length s) as Hl. rewrite H in Hl.
  simpl in Hl. lia.
Qed.

Lemma parse_chars_length n : forall (s acc t r : jsstring),
  length s <= n ->
  JSON.parse_chars s acc = Some (t, r) -> length r < length s.
Proof.
  induction n as [|n IH]; intros s acc t r Hn H.
  - destruct s; [discriminate|simpl in Hn; lia].
  - destruct s as [|c s1]; [discriminate|].
    cbn [JSON.parse_chars] in H. simpl in Hn. cbn [length].
    destruct (c =? 34)%N; [inversion H; subst; lia|].
    destruct (c =? 92)%N.
    + destruct s1 as [|e s2]; [discriminate|].
      destruct (e =? 117)%N.
      * destruct s2 as [|h1 [|h2 [|h3 [|h4 s3]]]]; try discriminate.
        destruct (JSON.hex4 h1 h2 h3 h4); [|discriminate].
        apply IH in H; simpl in *; lia.
      * destruct (JSON.escape e); [|discriminate].
        apply IH in H; simpl in *; lia.
    + destruct (c <? 32)%N; [discriminate|].
      apply IH in H; simpl in *; lia.
Qed.

Lemma digits_length (s : jsstring) : forall acc n m k r,
  JSON.digits s acc n = (m, k, r) -> length r <= length s.
Proof.
  induction s as [|c s IH]; intros acc n m k r H; simpl in H.
  - inversion H; subst. simpl. lia.
  - destruct (JSON.is_digit c).
    + apply IH in H. simpl. lia.
    + inversion H; subst. lia.
Qed.

Lemma parse_number_length b (s : jsstring) v r :
  JSON.parse_number b s = Some (v, r) -> length r < length s.
Proof.
  unfold JSON.parse_number. destruct s as [|c s1]; [discriminate|].
  destruct (JSON.is_digit c) eqn:Hd; cbn [negb]; [|discriminate].
  assert (Hint : forall ip k1 r1,
            (if (c =? 48)%N then (0%N, 1%nat, s1)
             else JSON.digits (c :: s1) 0%N 0%nat) = (ip, k1, r1) ->
            length r1 <= length s1).
  { intros ip k1 r1 H. destruct (c =? 48)%N.
    - inversion H; subst. lia.
    - simpl in H. rewrite Hd in H. now apply digits_length in H. }
  destruct (if (c =? 48)%N then (0%N, 1%nat, s1)
            else JSON.digits (c :: s1) 0%N 0%nat) as [[ip k1] r1].
  specialize (Hint _ _ _ eq_refl).
  assert (Hfrac : forall m k r3,
            match r1 with
            | d :: r2 =>
                if (d =? 46)%N then
                  let '(m, k, r3) := JSON.digits r2 ip 0%nat in
                  match k with O => None | _ => Some (m, k, r3) end
                else Some (ip, O, r1)
            | [] => Some (ip, O, r1)
            end = Some (m, k, r3) -> length r3 <= length r1).
  { intros m k r3 H. destruct r1 as [|d r2]; [inversion H; subst; lia|].
    destruct (d =? 46)%N; [|inversion H; subst; lia].
    destruct (JSON.digits r2 ip 0%nat) as [[m' k'] r'] eqn:Hg.
    apply digits_length in Hg.
    destruct k'; [discriminate|]. inversion H; subst. simpl. lia. }
  destruct (match r1 with
            | d :: r2 =>
                if (d =? 46)%N then
                  let '(m, k, r3) := JSON.digits r2 ip 0%nat in
                  match k with O => None | _ => Some (m, k, r3) end
                else Some (ip, O, r1)
            | [] => Some (ip, O, r1)
            end) as [[[m k] r3]|]; [|discriminate].
  specialize (Hfrac _ _ _ eq_refl).
  intros H. cbn [length].
  destruct r3 as [|x r4]; [inversion H; subst; simpl in *; lia|].
  destruct ((x =? 101) || (x =? 69))%N;
    [|inversion H; subst; simpl in *; lia].
  assert (Hsgn : forall sg r5,
            match r4 with
            | y :: r5 => if (y =? 43)%N then (1%Z, r5)
                         else if (y =? 45)%N then ((-1)%Z, r5)
                         else (1%Z, r4)
            | [] => (1%Z, r4)
            end = (sg, r5) -> length r5 <= length r4).
  { intros sg r5 Hs. destruct r4 as [|y r5']; [inversion Hs; subst; lia|].
    destruct (y =? 43)%N; [inversion Hs; subst; simpl; lia|].
    destruct (y =? 45)%N; inversion Hs; subst; simpl; lia. }
  destruct (match r4 with
            | y :: r5 => if (y =? 43)%N then (1%Z, r5)
                         else if (y =? 45)%N then ((-1)%Z, r5)
                         else (1%Z, r4)
            | [] => (1%Z, r4)
            end) as [sg r5].
  specialize (Hsgn _ _ eq_refl).
  destruct (JSON.digits r5 0%N 0%nat) as [[e ke] r6] eqn:Hg.
  apply digits_length in Hg.
  destruct ke; [discriminate|]. inversion H; subst. simpl in *. lia.
Qed.

Lemma startsWith_length (s p : jsstring) :
  JS.startsWith s p = true -> length p <= length s.
Proof.
  revert s; induction p as [|c p IH]; intros s H; simpl; [lia|].
  destruct s as [|d s]; [discriminate|].
  simpl in H. apply andb_prop in H as [_ H]. apply IH in H. simpl. lia.
Qed.

Lemma parse_literal_length (s : jsstring) v r :
  JSON.parse_literal s = Some (v, r) -> length r < length s.
Proof.
  unfold JSON.parse_literal.
  destruct (JS.startsWith s (JS.lit "true")) eqn:H1.
  { intros H. apply startsWith_length in H1.
    assert (r = skipn 4 s) by congruence. subst r.
    rewrite length_skipn. simpl in H1. lia. }
  destruct (JS.startsWith s (JS.lit "false")) eqn:H2.
  { intros H. apply startsWith_length in H2.
    assert (r = skipn 5 s) by congruence. subst r.
    rewrite length_skipn. simpl in H2. lia. }
  destruct (JS.startsWith s (JS.lit "null")) eqn:H3.
  { intros H. apply startsWith_length in H3.
    assert (r = skipn 4 s) by congruence. subst r.
    rewrite length_skipn. simpl in H3. lia. }
  destruct s as [|c s1]; [discriminate|].
  destruct (c =? 45)%N; intros H; apply parse_number_length in H;
    simpl in *; lia.
Qed.

(** A value, the elements of an array and the members of an object each
    use up at least one code unit. *)
Lemma parse_value_length f :
  (forall s v r, JSON.parse_value f s = Some (v, r) -> length r < length s)
  /\ (forall s acc v r,
        JSON.parse_elements f s acc = Some (v, r) -> length r < length s)
  /\ (forall s acc v r,
        JSON.parse_members f s acc = Some (v, r) -> length r < length s).
Proof.
  induction f as [|f (IHv & IHe & IHm)];
    [repeat split; intros; discriminate|].
  split; [|split].
  - intros s v r H. cbn [JSON.parse_value] in H.
    destruct (JSON.skip_ws s) as [|c s1] eqn:Hs; [discriminate|].
    apply skip_ws_cons in Hs.
    destruct (c =? 123)%N.
    { destruct (JSON.skip_ws s1) as [|d s2] eqn:Hs1; [discriminate|].
      apply skip_ws_cons in Hs1.
      destruct (d =? 125)%N; [inversion H; subst; lia|].
      apply IHm in H. lia. }
    destruct (c =? 91)%N.
    { destruct (JSON.skip_ws s1) as [|d s2] eqn:Hs1; [discriminate|].
      apply skip_ws_cons in Hs1.
      destruct (d =? 93)%N; [inversion H; subst; lia|].
      apply IHe in H. lia. }
    destruct (c =? 34)%N.
    { destruct (JSON.parse_chars s1 []) as [[t r']|] eqn:Hc; [|discriminate].
      apply (@parse_chars_length (length s1)) in Hc; [|lia].
      inversion H; subst. lia. }
    apply parse_literal_length in H. simpl in H. lia.
  - intros s acc v r H. cbn [JSON.parse_elements] in H.
    destruct (JSON.parse_value f s) as [[v1 r1]|] eqn:Hv; [|discriminate].
    apply IHv in Hv.
    destruct (JSON.skip_ws r1) as [|c r2] eqn:Hs; [discriminate|].
    apply skip_ws_cons in Hs.
    destruct (c =? 44)%N; [apply IHe in H; lia|].
    destruct (c =? 93)%N; [inversion H; subst; lia|discriminate].
  - intros s acc v r H. cbn [JSON.parse_members] in H.
    destruct (JSON.skip_ws s) as [|q s1] eqn:Hs; [discriminate|].
    apply skip_ws_cons in Hs.
    destruct (q =? 34)%N; cbn [negb] in H; [|discriminate].
    destruct (JSON.parse_chars s1 []) as [[k r1]|] eqn:Hc; [|discriminate].
    apply (@parse_chars_length (length s1)) in Hc; [|lia].
    destruct (JSON.skip_ws r1) as [|c r2] eqn:Hs1; [discriminate|].
    apply skip_ws_cons in Hs1.
    destruct (c =? 58)%N; cbn [negb] in H; [|discriminate].
    destruct (JSON.parse_value f r2) as [[v1 r3]|] eqn:Hv; [|discriminate].
    apply IHv in Hv.
    destruct (JSON.skip_ws r3) as [|e r4] eqn:Hs3; [discriminate|].
    apply skip_ws_cons in Hs3.
    destruct (e =? 44)%N; [apply IHm in H; lia|].
    destruct (e =? 125)%N; [inversion H; subst; lia|discriminate].
Qed.

Lemma parse_elements_S f s acc :
  JSON.parse_elements (S f) s acc =
  match JSON.parse_value f s with
  | None => None
  | Some (v, r) =>
      match JSON.skip_ws r with
      | c :: r' =>
          if (c =? 44)%N then JSON.parse_elements f r' (v :: acc)
          else if (c =? 93)%N then Some (JSON.Arr (rev (v :: acc)), r')
          else None
      | [] => None
      end
  end.
Proof. reflexivity. Qed.

Lemma parse_members_S f s acc :
  JSON.parse_members (S f) s acc =
  match JSON.skip_ws s with
  | q :: r =>
      if negb (q =? 34)%N then None else
      match JSON.parse_chars r [] with
      | None => None
      | Some (k, r1) =>
          match JSON.skip_ws r1 with
          | c :: r2 =>
              if negb (c =? 58)%N then None else
              match JSON.parse_value f r2 with
              | None => None
              | Some (v, r3) =>
                  match JSON.skip_ws r3 with
                  | e :: r4 =>
                      if (e =? 44)%N
                      then JSON.parse_members f r4 (JSON.obj_set acc k v)
                      else if (e =? 125)%N
                      then Some (JSON.Obj (JSON.obj_set acc k v), r4)
                      else None
                  | [] => None
                  end
              end
          | [] => None
          end
      end
  | [] => None
  end.
Proof. reflexivity. Qed.

Lemma parse_value_S f s :
  JSON.parse_value (S f) s =
  match JSON.skip_ws s with
  | [] => None
  | c :: r =>
      if (c =? 123)%N then
        match JSON.skip_ws r with
        | d :: r' => if (d =? 125)%N then Some (JSON.Obj [], r')
                     else JSON.parse_members f r []
        | [] => None
        end
      else if (c =? 91)%N then
        match JSON.skip_ws r with
        | d :: r' => if (d =? 93)%N then Some (JSON.Arr [], r')
                     else JSON.parse_elements f r []
        | [] => None
        end
      else if (c =? 34)%N then
        match JSON.parse_chars r [] with
        | Some (t, r') => Some (JSON.Str t, r')
        | None => None
        end
      else JSON.parse_literal (c :: r)
  end.
Proof. reflexivity. Qed.

(** One more unit of fuel changes nothing once there are two units per
    code unit. *)
Lemma parse_value_fuel_step f :
  (forall s, 2 * length s + 2 <= f ->
             JSON.parse_value (S f) s = JSON.parse_value f s)
  /\ (forall s acc, 2 * length s + 3 <= f ->
        JSON.parse_elements (S f) s acc = JSON.parse_elements f s acc)
  /\ (forall s acc, 2 * length s + 3 <= f ->
        JSON.parse_members (S f) s acc = JSON.parse_members f s acc).
Proof.
  induction f as [|f (IHv & IHe & IHm)]; [repeat split; intros; lia|].
  split; [|split].
  - intros s Hf.
    rewrite (parse_value_S (S f) s), (parse_value_S f s).
    destruct (JSON.skip_ws s) as [|c s1] eqn:Hs; [reflexivity|].
    apply skip_ws_cons in Hs.
    rewrite (IHm s1 []) by lia. rewrite (IHe s1 []) by lia. reflexivity.
  - intros s acc Hf.
    rewrite (parse_elements_S (S f) s acc), (parse_elements_S f s acc).
    rewrite (IHv s) by lia.
    destruct (JSON.parse_value f s) as [[v r]|] eqn:Hv; [|reflexivity].
    apply (proj1 (parse_value_length f)) in Hv.
    destruct (JSON.skip_ws r) as [|c r'] eqn:Hs; [reflexivity|].
    apply skip_ws_cons in Hs.
    now rewrite (IHe r' (v :: acc)) by lia.
  - intros s acc Hf.
    rewrite (parse_members_S (S f) s acc), (parse_members_S f s acc).
    destruct (JSON.skip_ws s) as [|q s1] eqn:Hs; [reflexivity|].
    apply skip_ws_cons in Hs.
    destruct (negb (q =? 34)%N); [reflexivity|].
    destruct (JSON.parse_chars s1 []) as [[k r1]|] eqn:Hc; [|reflexivity].
    apply (@parse_chars_length (length s1)) in Hc; [|lia].
    destruct (JSON.skip_ws r1) as [|c r2] eqn:Hs1; [reflexivity|].
    apply skip_ws_cons in Hs1.
    destruct (negb (c =? 58)%N); [reflexivity|].
    rewrite (IHv r2) by lia.
    destruct (JSON.parse_value f r2) as [[v r3]|] eqn:Hv; [|reflexivity].
    apply (proj1 (parse_value_length f)) in Hv.
    destruct (JSON.skip_ws r3) as [|e r4] eqn:Hs3; [reflexivity|].
    apply skip_ws_cons in Hs3.
    now rewrite (IHm r4 (JSON.obj_set acc k v)) by lia.
Qed.

(** The fuel [JSON.parse] gives is enough: more fuel gives the same
    result, so a failure is never a lack of fuel. *)
Lemma parse_value_fuel_enough (s : jsstring) (k : nat) :
  JSON.parse_value (2 * length s + 2 + k) s =
  JSON.parse_value (2 * length s + 2) s.
Proof.
  induction k as [|k IH]; [now rewrite Nat.add_0_r|].
  rewrite Nat.add_succ_r.
  rewrite (proj1 (parse_value_fuel_step (2 * length s + 2 + k))) by lia.
  exact IH.
Qed.

Lemma parse_fuel_enough (s : jsstring) (k : nat) :
  JSON.parse s =
  match JSON.parse_value (2 * length s + 2 + k) s with
  | Some (v, r) => match JSON.skip_ws r with [] => Some v | _ => None end
  | None => None
  end.
Proof. unfold JSON.parse. now rewrite parse_value_fuel_enough. Qed.

(** ** The fuel of the block scans *)

Lemma cut_length (sep s a b : jsstring) :
  JS.cut sep s = Some (a, b) -> length b + length sep <= length s.
Proof.
  revert a b; induction s as [|c s IH]; intros a b H; cbn [JS.cut] in H.
  - destruct (JS.startsWith [] sep) eqn:Hs; [|discriminate].
    apply startsWith_length in Hs. inversion H; subst.
    rewrite length_skipn. lia.
  - destruct (JS.startsWith (c :: s) sep) eqn:Hs.
    + apply startsWith_length in Hs. inversion H; subst.
      rewrite length_skipn. lia.
    + destruct (JS.cut sep s) as [[a' b']|]; [|discriminate].
      inversion H; subst. specialize (IH _ _ eq_refl). simpl. lia.
Qed.

Lemma glmBlocks_fuel_step n : forall s,
  length s <= n ->
  Reassembly.glmBlocks (S n) s = Reassembly.glmBlocks n s.
Proof.
  induction n as [|n IH]; intros s Hn.
  - destruct s; [reflexivity|simpl in Hn; lia].
  - change (Reassembly.glmBlocks (S (S n)) s) with
      (match JS.cut Reassembly.block_open s with
       | None => []
       | Some (_, r) =>
           match JS.cut Reassembly.block_close r with
           | None => []
           | Some (inner, r') => inner :: Reassembly.glmBlocks (S n) r'
           end
       end).
    change (Reassembly.glmBlocks (S n) s) with
      (match JS.cut Reassembly.block_open s with
       | None => []
       | Some (_, r) =>
           match JS.cut Reassembly.block_close r with
           | None => []
           | Some (inner, r') => inner :: Reassembly.glmBlocks n r'
           end
       end).
    destruct (JS.cut Reassembly.block_open s) as [[a r]|] eqn:Ho;
      [|reflexivity].
    apply cut_length in Ho.
    destruct (JS.cut Reassembly.block_close r) as [[inner r']|] eqn:Hc;
      [|reflexivity].
    apply cut_length in Hc. rewrite IH; [reflexivity|].
    change (length Reassembly.block_close) with 12 in Hc.
    change (length Reassembly.block_open) with 19 in Ho. lia.
Qed.

(** The length of the text is fuel enough for the scan of the blocks. *)
Lemma glmBlocks_fuel_enough (s : jsstring) (k : nat) :
  Reassembly.glmBlocks (length s + k) s = Reassembly.glmBlocks (length s) s.
Proof.
  induction k as [|k IH]; [now rewrite Nat.add_0_r|].
  rewrite Nat.add_succ_r, glmBlocks_fuel_step by lia. exact IH.
Qed.

Lemma removeBlocks_fuel_step n : forall s,
  length s <= n ->
  Reassembly.removeBlocks (S n) s = Reassembly.removeBlocks n s.
Proof.
  induction n as [|n IH]; intros s Hn.
  - destruct s; [reflexivity|simpl in Hn; lia].
  - change (Reassembly.removeBlocks (S (S n)) s) with
      (match JS.cut Reassembly.block_prefix s with
       | None => s
       | Some (before, r) =>
           match JS.cut Reassembly.block_close r with
           | None => s
           | Some (_, r') => before ++ Reassembly.removeBlocks (S n) r'
           end
       end).
    change (Reassembly.removeBlocks (S n) s) with
      (match JS.cut Reassembly.block_prefix s with
       | None => s
       | Some (before, r) =>
           match JS.cut Reassembly.block_close r with
           | None => s
           | Some (_, r') => before ++ Reassembly.removeBlocks n r'
           end
       end).
    destruct (JS.cut Reassembly.block_prefix s) as [[a r]|] eqn:Ho;
      [|reflexivity].
    apply cut_length in Ho.
    destruct (JS.cut Reassembly.block_close r) as [[inner r']|] eqn:Hc;
      [|reflexivity].
    apply cut_length in Hc. rewrite IH; [reflexivity|].
    change (length Reassembly.block_close) with 12 in Hc.
    change (length Reassembly.block_prefix) with 10 in Ho. lia.
Qed.

(** The same for the removal of the blocks. *)
Lemma removeBlocks_fuel_enough (s : jsstring) (k : nat) :
  Reassembly.removeBlocks (length s + k) s =
  Reassembly.removeBlocks (length s) s.
Proof.
  induction k as [|k IH]; [now rewrite Nat.add_0_r|].
  rewrite Nat.add_succ_r, removeBlocks_fuel_step by lia. exact IH.
Qed.

(** ** The lexer *)

Lemma decode_app D (a b : list Byte.byte) (ds : dstate D) :
  decode D ds (a ++ b) =
  (fst (decode D (fst (decode D ds a)) b),
   snd (decode D ds a) ++ snd (decode D (fst (decode D ds a)) b)).
Proof.
  revert ds; induction a as [|x a IH]; intros ds; simpl.
  - now destruct (decode D ds b).
  - destruct (dstep D ds x) as [st1 o1]. rewrite IH.
    destruct (decode D st1 a) as [st2 o2]. simpl.
    now rewrite app_assoc.
Qed.

(** The loop of [iterEvents] processes the complete lines of what has been
    decoded. *)
Lemma iterEvents_loop_lines D (chunks : list (list Byte.byte)) :
  forall (ds : dstate D) (buffer : jsstring),
    ~ In 10%N buffer ->
    SSE.iterEvents_loop D ds buffer chunks =
    flat_map SSE.processLine
      (removelast
         (JS.split (buffer ++ snd (decode D ds (concat chunks))) SSE.newline)).
Proof.
  induction chunks as [|c rest IH]; intros ds buffer Hb.
  - simpl. rewrite app_nil_r, split_free_newline by assumption. reflexivity.
  - cbn [SSE.iterEvents_loop concat].
    rewrite decode_app.
    destruct (decode D ds c) as [ds' text]. cbn [fst snd].
    rewrite or_else_nil, IH.
    + rewrite <- flat_map_app. f_equal.
      rewrite (app_assoc buffer).
      rewrite (split_app_newline (buffer ++ text)).
      rewrite removelast_app; [reflexivity|].
      apply split_go_not_nil.
    + apply last_split_go_single_free. auto.
Qed.

(** C2: however the byte stream is cut into chunks, the lexer yields the
    records it yields when the whole stream arrives as one chunk: exactly
    the records of the lines that end in a line break, in order; a line cut
    by a chunk boundary is completed before it is read, and the text after
    the last line break is dropped.  This holds for every streaming
    decoder. *)
Theorem iterEvents_rechunking (D : TextDecoder) (chunks : list (list Byte.byte)) :
  SSE.iterEvents D (Some chunks) = SSE.iterEvents D (Some [concat chunks])
  /\ SSE.iterEvents D (Some chunks) =
     Some (flat_map SSE.processLine
             (removelast
                (JS.split (snd (decode D (dinit D) (concat chunks)))
                   SSE.newline))).
Proof.
  unfold SSE.iterEvents.
  rewrite !iterEvents_loop_lines by auto.
  simpl. now rewrite app_nil_r.
Qed.

(** ** Trimming *)

Lemma trimStart_fixed c (r : jsstring) :
  JS.isWhiteSpace c = false -> JS.trimStart (c :: r) = c :: r.
Proof. intros H. simpl. now rewrite H. Qed.

Lemma trimStart_idempotent (s : jsstring) :
  JS.trimStart (JS.trimStart s) = JS.trimStart s.
Proof.
  induction s as [|c r IH]; [reflexivity|].
  simpl. destruct (JS.isWhiteSpace c) eqn:E; [exact IH|].
  now apply trimStart_fixed.
Qed.

Lemma trimStart_keeps c (s : jsstring) :
  In c s -> JS.isWhiteSpace c = false -> In c (JS.trimStart s).
Proof.
  intros Hin Hc. induction s as [|x r IH]; [contradiction|].
  simpl. destruct (JS.isWhiteSpace x) eqn:E; [|exact Hin].
  destruct Hin as [->|Hin]; [congruence|auto].
Qed.

Lemma trimStart_snoc c (a : jsstring) :
  JS.isWhiteSpace c = false ->
  exists a', JS.trimStart (a ++ [c]) = a' ++ [c].
Proof.
  intros Hc. induction a as [|x a IH].
  - exists []. simpl. now rewrite Hc.
  - simpl. destruct (JS.isWhiteSpace x); [exact IH|].
    now exists (x :: a).
Qed.

Lemma trim_keeps c (s : jsstring) :
  In c s -> JS.isWhiteSpace c = false -> In c (JS.trim s).
Proof.
  intros Hin Hc. unfold JS.trim, JS.trimEnd.
  apply in_rev. rewrite rev_involutive.
  apply trimStart_keeps; [|assumption].
  apply -> in_rev. now apply trimStart_keeps.
Qed.

Lemma trimEnd_trim (s : jsstring) : JS.trimEnd (JS.trim s) = JS.trim s.
Proof.
  unfold JS.trim, JS.trimEnd.
  now rewrite rev_involutive, trimStart_idempotent.
Qed.

Lemma trimStart_trim (s : jsstring) : JS.trimStart (JS.trim s) = JS.trim s.
Proof.
  unfold JS.trim.
  pose proof (trimStart_idempotent s) as Hi.
  destruct (JS.trimStart s) as [|c t] eqn:E; [reflexivity|].
  assert (Hc : JS.isWhiteSpace c = false).
  { simpl in Hi. destruct (JS.isWhiteSpace c) eqn:Hc; [|reflexivity].
    exfalso. assert (Hl : length (JS.trimStart t) = length (c :: t)) by now rewrite Hi.
    clear -Hl. simpl in Hl.
    assert (Hle : forall u : jsstring, length (JS.trimStart u) <= length u).
    { induction u as [|y u IHu]; simpl; [lia|].
      destruct (JS.isWhiteSpace y); simpl; lia. }
    specialize (Hle t). lia. }
  unfold JS.trimEnd. simpl rev.
  destruct (@trimStart_snoc c (rev t) Hc) as [a' Ha]. rewrite Ha.
  rewrite rev_app_distr. simpl. now rewrite Hc.
Qed.

(** ** Finding the first colon *)

Lemma indexOf_single_app c (f v : jsstring) :
  ~ In c f -> JS.indexOf (f ++ c :: v) [c] = Z.of_nat (length f).
Proof.
  induction f as [|x f IH]; intros Hf.
  - cbn [app JS.indexOf]. rewrite startsWith_single, N.eqb_refl. reflexivity.
  - rewrite <- app_comm_cons. cbn [JS.indexOf].
    rewrite startsWith_single.
    destruct (N.eqb_spec c x) as [->|Hne]; [exfalso; apply Hf; now left|].
    rewrite IH by (intros H; apply Hf; now right).
    destruct (Z.ltb_spec (Z.of_nat (length f)) 0); [lia|].
    cbn [length]. lia.
Qed.

Lemma substring_before (f r : jsstring) :
  JS.substring (f ++ r) 0 (Some (Z.of_nat (length f))) = f.
Proof.
  unfold JS.substring, JS.clamp. rewrite Nat2Z.id, length_app.
  replace (Nat.min (Z.to_nat 0) (length f + length r)) with 0%nat by (simpl; lia).
  replace (Nat.min (length f) (length f + length r)) with (length f) by lia.
  rewrite Nat.min_0_l, Nat.max_0_l, Nat.sub_0_r. simpl skipn.
  now rewrite firstn_app, firstn_all, Nat.sub_diag, firstn_0, app_nil_r.
Qed.

Lemma substring_after (f : jsstring) c (v : jsstring) :
  JS.substring (f ++ c :: v) (Z.of_nat (length f) + 1) None = v.
Proof.
  unfold JS.substring, JS.clamp. rewrite length_app. cbn [length].
  replace (Z.to_nat (Z.of_nat (length f) + 1)) with (S (length f)) by lia.
  replace (Nat.min (S (length f)) (length f + S (length v)))
    with (S (length f)) by lia.
  replace (Nat.min (S (length f)) (length f + S (length v)))
    with (S (length f)) by lia.
  replace (Nat.max (S (length f)) (length f + S (length v)))
    with (length f + S (length v))%nat by lia.
  replace (length f + S (length v) - S (length f))%nat with (length v) by lia.
  replace (S (length f)) with (length (f ++ [c])) by (rewrite length_app; simpl; lia).
  replace (f ++ c :: v) with ((f ++ [c]) ++ v) by (now rewrite <- app_assoc).
  rewrite skipn_app, skipn_all, Nat.sub_diag. simpl. apply firstn_all.
Qed.

(** C9, as amended: a line with a colon that does not start with one is
    split at its first colon; the field is the trimmed text before it, the
    value the text after it trimmed on both sides, so the value carried by
    the record yielded has neither leading nor trailing white space. *)
Theorem processLine_splits_at_first_colon (f v : jsstring) :
  f <> [] -> ~ In 58%N f ->
  SSE.processLine (f ++ SSE.colon ++ v) =
    SSE.fieldRecords (JS.trim f) (JS.trim v)
  /\ (JS.trim f = JS.lit "event" ->
      SSE.processLine (f ++ SSE.colon ++ v) = [SSE.EventEvent (JS.trim v)])
  /\ (JS.trim f = JS.lit "id" ->
      SSE.processLine (f ++ SSE.colon ++ v) = [SSE.IdEvent (JS.trim v)])
  /\ JS.trimStart (JS.trim v) = JS.trim v
  /\ JS.trimEnd (JS.trim v) = JS.trim v.
Proof.
  intros Hne Hf.
  assert (Hline : SSE.processLine (f ++ SSE.colon ++ v) =
                  SSE.fieldRecords (JS.trim f) (JS.trim v)).
  { change (f ++ SSE.colon ++ v) with (f ++ 58%N :: v).
    assert (Hb : JS.truthy (JS.trim (f ++ 58%N :: v)) = true).
    { assert (Hin : In 58%N (JS.trim (f ++ 58%N :: v))).
      { apply trim_keeps; [|reflexivity]. apply in_or_app. right. now left. }
      destruct (JS.trim (f ++ 58%N :: v)); [contradiction|reflexivity]. }
    unfold SSE.processLine, SSE.colon. rewrite Hb. cbn [negb].
    rewrite indexOf_single_app by assumption.
    destruct f as [|x f']; [congruence|].
    rewrite <- app_comm_cons, startsWith_single.
    destruct (N.eqb_spec 58%N x) as [Hx|Hx];
      [exfalso; apply Hf; left; now symmetry|].
    destruct (Z.eqb_spec (Z.of_nat (length (x :: f'))) (-1)); [lia|].
    now rewrite app_comm_cons, substring_before, substring_after. }
  repeat split.
  - exact Hline.
  - intros H. rewrite Hline, H. reflexivity.
  - intros H. rewrite Hline, H. reflexivity.
  - apply trimStart_trim.
  - apply trimEnd_trim.
Qed.

(** A witness of C9 as amended: the line [event: foo] followed by two
    blanks. *)
Lemma processLine_splits_at_first_colon_witness :
  SSE.processLine (JS.lit "event" ++ SSE.colon ++ JS.lit " foo  ") =
    [SSE.EventEvent (JS.lit "foo")].
Proof.
  exact (proj1 (proj2 (@processLine_splits_at_first_colon
                         (JS.lit "event") (JS.lit " foo  ")
                         ltac:(discriminate)
                         ltac:(vm_compute; intuition discriminate)))
           eq_refl).
Defined.

(** C9 as stated fails: the blanks after the value of [event: foo  ] are
    removed, so the record does not carry the left-trimmed value. *)
Lemma value_trailing_blanks_removed :
  SSE.processLine (JS.lit "event: foo  ") = [SSE.EventEvent (JS.lit "foo")]
  /\ JS.trimStart (JS.lit " foo  ") = JS.lit "foo  "
  /\ SSE.processLine (JS.lit "event: foo  ")
     <> [SSE.EventEvent (JS.trimStart (JS.lit " foo  "))].
Proof. repeat split; vm_compute; discriminate. Qed.

(** C8: [parseInt] never throws, so a line with field [retry] always
    yields a record; for a value that is no integer the record carries
    [NaN]. *)
Theorem retry_record_always_yielded :
  (forall value, SSE.fieldRecords (JS.lit "retry") value =
                 [SSE.RetryEvent (SSE.parseInt value)])
  /\ SSE.processLine (JS.lit "retry: abc") = [SSE.RetryEvent SSE.NaN]
  /\ SSE.iterEvents Utf8.decoder
       (Some [list_byte_of_string "retry: abc"; [Byte.x0a]])
     = Some [SSE.RetryEvent SSE.NaN].
Proof. repeat split. Qed.

(** [parseInt] gives doubles: an integer above [2^53] is rounded, a run of
    digits too long gives [Infinity], and the sign is kept on a zero. *)
Lemma parseInt_gives_doubles :
  SSE.parseInt (JS.lit "9007199254740993") =
  SSE.parseInt (JS.lit "9007199254740992")
  /\ SSE.parseInt (JS.lit "1" ++ repeat 48%N 309) =
     SpecFloat.S754_infinity false
  /\ SSE.parseInt (JS.lit "-0") = SpecFloat.S754_zero true
  /\ SSE.parseInt (JS.lit " 12px") =
     SpecFloat.binary_normalize 53 1024 12 0 false.
Proof. repeat split; vm_compute; reflexivity. Qed.

(** ** Arguments normalisation *)

(** A text that starts with a double quote parses, if at all, to a
    string. *)
Lemma parse_quoted_is_string (s : jsstring) (w : JSON.value) :
  JS.startsWith s Reassembly.quote = true ->
  JSON.parse s = Some w -> exists u, w = JSON.Str u.
Proof.
  intros Hq Hp. unfold JSON.parse in Hp.
  destruct s as [|c r]; [discriminate|].
  unfold Reassembly.quote in Hq. rewrite startsWith_single in Hq.
  apply N.eqb_eq in Hq. subst c.
  cbn [length Nat.mul Nat.add JSON.parse_value] in Hp.
  change (JSON.skip_ws (34%N :: r)) with (34%N :: r) in Hp.
  cbn [N.eqb Pos.eqb] in Hp.
  destruct (JSON.parse_chars r []) as [[t r']|]; [|discriminate].
  destruct (JSON.skip_ws r'); [|discriminate].
  inversion Hp. now exists t.
Qed.

(** C5, as amended: the four outcomes of the normalisation of a string
    [s], and the outcome for a value that is no string. *)
Theorem finalArgs_outcomes (s : jsstring) :
  (JS.startsWith s Reassembly.quote && JS.endsWith s Reassembly.quote = false ->
   JSON.parse s <> None ->
   Reassembly.finalArgs (JSON.Str s) = s)
  /\ (forall u,
        JS.startsWith s Reassembly.quote && JS.endsWith s Reassembly.quote = true ->
        JSON.parse s = Some (JSON.Str u) -> JSON.parse u <> None ->
        Reassembly.finalArgs (JSON.Str s) = u)
  /\ (forall u,
        JS.startsWith s Reassembly.quote && JS.endsWith s Reassembly.quote = true ->
        JSON.parse s = Some (JSON.Str u) -> JSON.parse u = None ->
        Reassembly.finalArgs (JSON.Str s) = Reassembly.empty_object)
  /\ (JSON.parse s = None ->
      Reassembly.finalArgs (JSON.Str s) = Reassembly.empty_object)
  /\ (forall v, (forall t, v <> JSON.Str t) ->
        Reassembly.finalArgs v = Reassembly.empty_object).
Proof.
  unfold Reassembly.finalArgs.
  repeat split.
  - intros Hq Hp. rewrite Hq.
    destruct (JS.eqb s Reassembly.empty_object) eqn:He.
    + apply eqb_eq in He. rewrite andb_false_r. now subst.
    + destruct s; [exfalso; apply Hp; reflexivity|].
      cbn [JS.truthy negb andb].
      destruct (JSON.parse (c :: s)); congruence.
  - intros u Hq Hp Hu. rewrite Hq, Hp.
    destruct (JS.truthy s && negb (JS.eqb s Reassembly.empty_object)) eqn:Hg.
    + destruct (JSON.parse u); congruence.
    + exfalso. destruct s as [|c r]; [discriminate|].
      cbn [JS.truthy andb] in Hg. apply negb_false_iff, eqb_eq in Hg.
      rewrite Hg in Hq. discriminate.
  - intros u Hq Hp Hu. rewrite Hq, Hp, Hu.
    now destruct (JS.truthy s && negb (JS.eqb s Reassembly.empty_object)).
  - intros Hp. rewrite Hp.
    now destruct (JS.truthy s && negb (JS.eqb s Reassembly.empty_object)),
      (JS.startsWith s Reassembly.quote && JS.endsWith s Reassembly.quote).
  - intros v Hv. destruct v; try reflexivity. now elim (Hv s0).
Qed.

(** A witness of C5 as amended: the quoted text ["{\"x\":1}"] is unescaped
    once. *)
Lemma finalArgs_outcomes_witness :
  Reassembly.finalArgs
    (JSON.Str (Reassembly.quote ++ JS.lit "{\" ++ Reassembly.quote ++ JS.lit "x\"
                 ++ Reassembly.quote ++ JS.lit ":1}" ++ Reassembly.quote))
  = JS.lit "{" ++ Reassembly.quote ++ JS.lit "x" ++ Reassembly.quote ++ JS.lit ":1}".
Proof.
  apply (proj1 (proj2 (finalArgs_outcomes _))).
  - reflexivity.
  - reflexivity.
  - vm_compute. discriminate.
Defined.

(** C5 as stated fails: the texts ["abc"] and ["1"], quotes included, are
    valid JSON texts, and neither is used unchanged. *)
Lemma valid_json_text_not_kept :
  JSON.parse (Reassembly.quote ++ JS.lit "abc" ++ Reassembly.quote)
    = Some (JSON.Str (JS.lit "abc"))
  /\ Reassembly.finalArgs
       (JSON.Str (Reassembly.quote ++ JS.lit "abc" ++ Reassembly.quote))
     = JS.lit "{}"
  /\ JSON.parse (Reassembly.quote ++ JS.lit "1" ++ Reassembly.quote)
     = Some (JSON.Str (JS.lit "1"))
  /\ Reassembly.finalArgs
       (JSON.Str (Reassembly.quote ++ JS.lit "1" ++ Reassembly.quote))
     = JS.lit "1".
Proof. repeat split. Qed.

(** ** Sorting the fragment indices *)

Lemma insert_sorted_perm k l : Permutation (insert_sorted k l) (k :: l).
Proof.
  induction l as [|x r IH]; simpl; [reflexivity|].
  destruct (k <? x)%Z; [reflexivity|].
  rewrite IH. apply perm_swap.
Qed.

Lemma sort_indices_perm l : Permutation (sort_indices l) l.
Proof.
  induction l as [|k r IH]; simpl; [reflexivity|].
  rewrite insert_sorted_perm. now constructor.
Qed.

Lemma insert_sorted_sorted k l :
  StronglySorted Z.le l -> StronglySorted Z.le (insert_sorted k l).
Proof.
  induction 1 as [|x r Hs IH Hx]; simpl.
  - repeat constructor.
  - destruct (Z.ltb_spec k x).
    + constructor; [now constructor|].
      constructor; [lia|].
      eapply Forall_impl; [|exact Hx]. intros; simpl in *; lia.
    + constructor; [exact IH|].
      eapply Permutation_Forall; [symmetry; apply insert_sorted_perm|].
      constructor; [lia|exact Hx].
Qed.

Lemma sort_indices_sorted l : StronglySorted Z.le (sort_indices l).
Proof.
  induction l; simpl; [constructor|now apply insert_sorted_sorted].
Qed.

(** An ascending list is determined by its elements. *)
Lemma sorted_perm_eq (l1 l2 : list Z) :
  StronglySorted Z.le l1 -> StronglySorted Z.le l2 ->
  Permutation l1 l2 -> l1 = l2.
Proof.
  intros H1; revert l2; induction H1 as [|a l1 Hs IH Ha]; intros l2 H2 Hp.
  - now apply Permutation_nil in Hp.
  - destruct H2 as [|b l2 Hs2 Hb].
    + symmetry in Hp. now apply Permutation_nil in Hp.
    + assert (a = b).
      { assert (In a (b :: l2)) as [->|Hin]
          by (eapply Permutation_in; [exact Hp|now left]); [reflexivity|].
        assert (In b (a :: l1)) as [->|Hin']
          by (eapply Permutation_in; [symmetry; exact Hp|now left]);
          [reflexivity|].
        rewrite Forall_forall in Ha, Hb.
        specialize (Ha _ Hin'). specialize (Hb _ Hin). lia. }
      subst b. f_equal. apply IH; [assumption|].
      eapply Permutation_cons_inv; exact Hp.
Qed.

Lemma sort_indices_permutation l1 l2 :
  Permutation l1 l2 -> sort_indices l1 = sort_indices l2.
Proof.
  intros Hp. apply sorted_perm_eq; try apply sort_indices_sorted.
  now rewrite !sort_indices_perm.
Qed.

(** ** The fragment map *)

Lemma get_set (m : NumMap.t) k v k' :
  NumMap.get (NumMap.set m k v) k' =
  if (k =? k')%Z then Some v else NumMap.get m k'.
Proof.
  induction m as [|[x y] r IH]; simpl.
  - reflexivity.
  - destruct (Z.eqb_spec x k) as [->|Hne]; simpl.
    + destruct (Z.eqb_spec k k'); reflexivity.
    + rewrite IH. destruct (Z.eqb_spec x k'), (Z.eqb_spec k k');
        try reflexivity; congruence.
Qed.

Lemma get_in_keys (m : NumMap.t) k :
  In k (NumMap.keys m) <-> NumMap.get m k <> None.
Proof.
  induction m as [|[x y] r IH]; simpl.
  - tauto.
  - destruct (Z.eqb_spec x k); [intuition congruence|].
    rewrite <- IH. intuition congruence.
Qed.

Lemma keys_set (m : NumMap.t) k v :
  NumMap.keys (NumMap.set m k v) =
  match NumMap.get m k with
  | Some _ => NumMap.keys m
  | None => NumMap.keys m ++ [k]
  end.
Proof.
  unfold NumMap.keys.
  induction m as [|[x y] r IH]; simpl; [reflexivity|].
  destruct (Z.eqb_spec x k); simpl; [reflexivity|].
  rewrite IH. now destruct (NumMap.get r k).
Qed.

Lemma same_entries_refl m : same_entries m m.
Proof. split; reflexivity. Qed.

Lemma same_entries_trans m1 m2 m3 :
  same_entries m1 m2 -> same_entries m2 m3 -> same_entries m1 m3.
Proof.
  intros [P1 G1] [P2 G2]. split; [now rewrite P1|].
  intros k. now rewrite G1.
Qed.

Lemma set_same_entries m m' k v :
  same_entries m m' -> same_entries (NumMap.set m k v) (NumMap.set m' k v).
Proof.
  intros [P G]. split.
  - rewrite !keys_set, G.
    destruct (NumMap.get m' k); [assumption|].
    now apply Permutation_app_tail.
  - intros k'. now rewrite !get_set, G.
Qed.

Lemma set_swap m k1 v1 k2 v2 :
  k1 <> k2 ->
  same_entries (NumMap.set (NumMap.set m k1 v1) k2 v2)
               (NumMap.set (NumMap.set m k2 v2) k1 v1).
Proof.
  intros Hne. split.
  - rewrite !keys_set, !get_set.
    destruct (Z.eqb_spec k1 k2); [congruence|].
    destruct (Z.eqb_spec k2 k1); [congruence|].
    destruct (NumMap.get m k1), (NumMap.get m k2); try reflexivity.
    rewrite <- !app_assoc. apply Permutation_app_head. apply perm_swap.
  - intros k. rewrite !get_set.
    destruct (Z.eqb_spec k1 k), (Z.eqb_spec k2 k); try reflexivity; congruence.
Qed.

(** The content array depends on the entries only. *)
Lemma contentArray_same_entries m m' :
  same_entries m m' -> Reassembly.contentArray m = Reassembly.contentArray m'.
Proof.
  intros [P G]. unfold Reassembly.contentArray.
  rewrite (sort_indices_permutation P).
  apply map_ext. intros k. now rewrite G.
Qed.

Lemma resolve_same_entries E m m' :
  same_entries m m' -> Reassembly.resolve E m = Reassembly.resolve E m'.
Proof.
  intros H. unfold Reassembly.resolve, Reassembly.fullContent.
  now rewrite (contentArray_same_entries H).
Qed.

(** ** Feeding fragments to a run *)

Lemma feed_fragments E fragments : forall st,
  Stream.toolCallFragments (feed E st fragments) =
  fold_left store fragments (Stream.toolCallFragments st).
Proof.
  induction fragments as [|[k v] r IH]; intros st; [reflexivity|].
  unfold feed in *. cbn [fold_left]. rewrite IH. f_equal.
  unfold Stream._processContent, store, fragment_payload. cbn.
  rewrite andb_false_r.
  destruct (Stream.hasTools st), v; reflexivity.
Qed.

Lemma feed_aggregate_fragments E fragments : forall st,
  NonStream.nsToolCallFragments (feed_aggregate E st fragments) =
  fold_left store fragments (NonStream.nsToolCallFragments st).
Proof.
  induction fragments as [|[k v] r IH]; intros st; [reflexivity|].
  unfold feed_aggregate in *. cbn [fold_left]. rewrite IH. f_equal.
  unfold NonStream.turn, store, fragment_payload. cbn.
  destruct v; cbn; [|reflexivity].
  now rewrite andb_false_r.
Qed.

Lemma store_same_entries m m' x :
  same_entries m m' -> same_entries (store m x) (store m' x).
Proof.
  intros H. unfold store. destruct (JS.truthy (snd x)); [|assumption].
  now apply set_same_entries.
Qed.

Lemma fold_store_same_entries l : forall m m',
  same_entries m m' ->
  same_entries (fold_left store l m) (fold_left store l m').
Proof.
  induction l as [|x l IH]; intros m m' H; [assumption|].
  simpl. apply IH. now apply store_same_entries.
Qed.

Lemma fold_store_permutation l1 l2 :
  Permutation l1 l2 -> NoDup (map fst l1) ->
  forall m, same_entries (fold_left store l1 m) (fold_left store l2 m).
Proof.
  induction 1 as [|x l1 l2 Hp IH|x y l|l1 l2 l3 Hp1 IH1 Hp2 IH2];
    intros Hnd m.
  - apply same_entries_refl.
  - simpl. apply IH. now inversion Hnd.
  - simpl. apply fold_store_same_entries.
    assert (fst x <> fst y).
    { inversion Hnd as [|? ? Hin _]; subst. intros Heq. apply Hin.
      left. now symmetry. }
    unfold store.
    destruct (JS.truthy (snd x)), (JS.truthy (snd y));
      try apply same_entries_refl.
    apply set_swap. congruence.
  - eapply same_entries_trans; [apply IH1; assumption|].
    apply IH2. eapply Permutation_NoDup; [|exact Hnd].
    now apply Permutation_map.
Qed.

(** ** The texts by ascending index *)

Lemma feed_aggregate_state E fragments : forall ns,
  feed_aggregate E ns fragments =
  NonStream.set_nsToolCallFragments ns
    (fold_left store fragments (NonStream.nsToolCallFragments ns)).
Proof.
  induction fragments as [|[k v] r IH]; intros ns.
  - cbn [fold_left feed_aggregate]. now destruct ns.
  - unfold feed_aggregate in *. cbn [fold_left]. rewrite IH.
    destruct ns as [tools us fr fin full].
    unfold NonStream.turn, store, fragment_payload, payload.
    cbn [data delta_content edit_content phase phase_eqb negb andb fst snd
         edit_index JS.truthy usage finish_reason done].
    destruct v; [|reflexivity].
    cbn. now rewrite andb_false_r.
Qed.

Lemma processContent_fragment E st f :
  Stream._processContent E st (fragment_payload f) false =
  ([], {| Stream.hasTools := true;
          Stream.bufferedContent := Stream.bufferedContent st;
          Stream.toolCalls := Stream.toolCalls st;
          Stream.streamEnded := Stream.streamEnded st;
          Stream.toolUsage := Stream.toolUsage st;
          Stream.toolCallFragments := store (Stream.toolCallFragments st) f;
          Stream.toolCallFinishReceived := Stream.toolCallFinishReceived st |}).
Proof.
  destruct st as [h bc tc se tu tf fr]. destruct f as [k v].
  unfold Stream._processContent, fragment_payload, payload, store.
  cbn [data delta_content edit_content phase phase_eqb negb andb fst snd
       edit_index JS.or_else JS.truthy].
  rewrite andb_false_r.
  destruct h, v; reflexivity.
Qed.

Lemma feed_keeps E fragments : forall st,
  Stream.bufferedContent (feed E st fragments) = Stream.bufferedContent st
  /\ Stream.toolUsage (feed E st fragments) = Stream.toolUsage st.
Proof.
  induction fragments as [|f r IH]; intros st; [split; reflexivity|].
  unfold feed in *. cbn [fold_left]. rewrite processContent_fragment.
  cbn [snd]. destruct (IH {| Stream.hasTools := true;
          Stream.bufferedContent := Stream.bufferedContent st;
          Stream.toolCalls := Stream.toolCalls st;
          Stream.streamEnded := Stream.streamEnded st;
          Stream.toolUsage := Stream.toolUsage st;
          Stream.toolCallFragments := store (Stream.toolCallFragments st) f;
          Stream.toolCallFinishReceived := Stream.toolCallFinishReceived st |})
    as [H1 H2].
  split; [exact H1|exact H2].
Qed.

Lemma same_entries_size m m' :
  same_entries m m' -> NumMap.size m = NumMap.size m'.
Proof.
  intros [Hk _]. apply Permutation_length in Hk.
  unfold NumMap.size, NumMap.keys in *. now rewrite !length_map in Hk.
Qed.

Lemma fullContent_same_entries m m' :
  same_entries m m' -> Reassembly.fullContent m = Reassembly.fullContent m'.
Proof.
  intros H. unfold Reassembly.fullContent.
  now rewrite (contentArray_same_entries H).
Qed.

Lemma fold_store_filter l : forall m,
  fold_left store l m =
  fold_left store (filter (fun f => JS.truthy (snd f)) l) m.
Proof.
  induction l as [|f l IH]; intros m; [reflexivity|].
  cbn [fold_left filter]. destruct (JS.truthy (snd f)) eqn:Hf.
  - cbn [fold_left]. apply IH.
  - unfold store at 2. rewrite Hf. apply IH.
Qed.

Lemma set_fresh (m : NumMap.t) k v :
  NumMap.get m k = None -> NumMap.set m k v = m ++ [(k, v)].
Proof.
  induction m as [|[k' v'] m IH]; intros H; [reflexivity|].
  cbn [NumMap.get NumMap.set app] in *.
  destruct (k' =? k)%Z; [discriminate|]. now rewrite IH.
Qed.

Lemma get_app_fresh (m : NumMap.t) k v k' :
  k <> k' -> NumMap.get (m ++ [(k, v)]) k' = NumMap.get m k'.
Proof.
  intros Hk. induction m as [|[a b] m IH]; cbn [app NumMap.get].
  - destruct (Z.eqb_spec k k'); [congruence|reflexivity].
  - now rewrite IH.
Qed.

Lemma fold_store_ascending l : forall m,
  Forall (fun f => JS.truthy (snd f) = true) l ->
  NoDup (map fst l) ->
  (forall f, In f l -> NumMap.get m (fst f) = None) ->
  fold_left store l m = m ++ l.
Proof.
  induction l as [|[k v] l IH]; intros m Ht Hnd Hfresh.
  - cbn [fold_left]. now rewrite app_nil_r.
  - inversion Ht as [|? ? Hv Ht']; subst.
    inversion Hnd as [|? ? Hk Hnd']; subst.
    cbn [fold_left]. unfold store at 2. cbn [fst snd] in *. rewrite Hv.
    rewrite set_fresh by (apply (Hfresh (k, v)); now left).
    rewrite IH; try assumption.
    + now rewrite <- app_assoc.
    + intros [k' v'] Hin. cbn [fst].
      rewrite get_app_fresh.
      * apply (Hfresh (k', v')). now right.
      * intros ->. apply Hk. now apply (in_map fst) in Hin.
Qed.

Lemma sorted_lt_le l : StronglySorted Z.lt l -> StronglySorted Z.le l.
Proof.
  induction 1 as [|a l Hs IH Ha]; constructor; [assumption|].
  eapply Forall_impl; [|exact Ha]. intros; lia.
Qed.

Lemma sorted_lt_nodup l : StronglySorted Z.lt l -> NoDup l.
Proof.
  induction 1 as [|a l Hs IH Ha]; constructor; [|assumption].
  intros Hin. rewrite Forall_forall in Ha. specialize (Ha _ Hin). lia.
Qed.

Lemma get_nodup (l : NumMap.t) :
  NoDup (map fst l) ->
  map (fun k => match NumMap.get l k with Some c => c | None => [] end)
      (map fst l) = map snd l.
Proof.
  induction l as [|[k v] l IH]; intros Hnd; [reflexivity|].
  inversion Hnd as [|? ? Hk Hnd']; subst.
  cbn [map fst snd NumMap.get]. rewrite Z.eqb_refl. f_equal.
  rewrite <- (IH Hnd'). apply map_ext_in. intros k' Hin.
  destruct (Z.eqb_spec k k'); [subst; contradiction|reflexivity].
Qed.

(** The texts of the fragments received enter the reassembly by ascending
    index. *)
Lemma contentArray_ascending fragments ascending :
  Permutation ascending (filter (fun f => JS.truthy (snd f)) fragments) ->
  StronglySorted Z.lt (map fst ascending) ->
  Reassembly.contentArray (fold_left store fragments []) = map snd ascending.
Proof.
  intros Hp Hs.
  assert (Hnd : NoDup (map fst ascending)) by now apply sorted_lt_nodup.
  assert (Ht : Forall (fun f => JS.truthy (snd f) = true) ascending).
  { apply Forall_forall. intros f Hin.
    apply (Permutation_in _ Hp), filter_In in Hin. tauto. }
  rewrite fold_store_filter.
  rewrite <- (contentArray_same_entries
                (@fold_store_permutation _ _ Hp Hnd [])).
  rewrite fold_store_ascending by (assumption || reflexivity).
  cbn [app]. unfold Reassembly.contentArray, NumMap.keys.
  rewrite (sorted_perm_eq (sort_indices_sorted (map fst ascending))
             (sorted_lt_le Hs) (sort_indices_perm (map fst ascending))).
  now apply get_nodup.
Qed.

Lemma fullContent_first m :
  Reassembly.fullContent m =
  hd [] (Reassembly.tempArray (Reassembly.contentArray m)).
Proof.
  unfold Reassembly.fullContent.
  now destruct (Reassembly.tempArray (Reassembly.contentArray m)).
Qed.

(** C4: fragments with distinct indices, fed to a run in any order, give
    the same resolved invocations: in the streaming translator the same
    invocations and the same items sent for them, in the aggregate
    translator the same invocations recorded.  They are computed from the
    texts of the fragments taken by ascending index, of which only the
    first accumulated block is searched for invocations.  (The clock
    reading [now E], used for the ids of blocks that carry none, is the
    same on both sides.) *)
Theorem resolve_arrival_order (E : Env) (st : Stream.State)
  (ns : NonStream.State) (fragments1 fragments2 : list (Z * jsstring)) :
  Permutation fragments1 fragments2 ->
  NoDup (map fst fragments1) ->
  Reassembly.resolve E (Stream.toolCallFragments (feed E st fragments1)) =
  Reassembly.resolve E (Stream.toolCallFragments (feed E st fragments2))
  /\ fst (Stream._processMultipleToolCalls E (feed E st fragments1)) =
     fst (Stream._processMultipleToolCalls E (feed E st fragments2))
  /\ NonStream.nsTools
       (NonStream._processNonStreamMultipleToolCalls E
          (feed_aggregate E ns fragments1)) =
     NonStream.nsTools
       (NonStream._processNonStreamMultipleToolCalls E
          (feed_aggregate E ns fragments2))
  /\ (forall ascending : list (Z * jsstring),
        Permutation ascending
          (filter (fun f => JS.truthy (snd f)) fragments1) ->
        StronglySorted Z.lt (map fst ascending) ->
        let first := hd [] (Reassembly.tempArray (map snd ascending)) in
        Reassembly.resolve E
          (Stream.toolCallFragments (feed E (Stream.initial true) fragments1))
        = Reassembly.collect E
            (Reassembly.glmBlocks (length first) first) []
        /\ NonStream.nsTools
             (NonStream._processNonStreamMultipleToolCalls E
                (feed_aggregate E NonStream.initial fragments1))
           = NonStream.record_blocks E
               (Reassembly.glmBlocks (length first) first) []).
Proof.
  intros Hp Hnd.
  assert (Hs : same_entries
                 (Stream.toolCallFragments (feed E st fragments1))
                 (Stream.toolCallFragments (feed E st fragments2))).
  { rewrite !feed_fragments. now apply fold_store_permutation. }
  assert (Ha : same_entries
                 (fold_left store fragments1 (NonStream.nsToolCallFragments ns))
                 (fold_left store fragments2 (NonStream.nsToolCallFragments ns)))
    by now apply fold_store_permutation.
  split; [now apply resolve_same_entries|].
  split.
  { unfold Stream._processMultipleToolCalls.
    rewrite (same_entries_size Hs), (resolve_same_entries E Hs).
    destruct (feed_keeps E fragments1 st) as [-> ->].
    destruct (feed_keeps E fragments2 st) as [-> ->].
    destruct (NumMap.size _ =? 0)%nat; [reflexivity|].
    now destruct (Reassembly.resolve E _). }
  split.
  { rewrite !feed_aggregate_state.
    unfold NonStream._processNonStreamMultipleToolCalls.
    cbn [NonStream.set_nsToolCallFragments NonStream.nsToolCallFragments
         NonStream.nsTools].
    rewrite (same_entries_size Ha), (fullContent_same_entries Ha).
    now destruct (NumMap.size _ =? 0)%nat. }
  intros ascending Hasc Hsorted first.
  pose proof (contentArray_ascending fragments1 Hasc Hsorted) as Hc.
  split.
  - rewrite feed_fragments. cbn [Stream.initial Stream.toolCallFragments].
    unfold Reassembly.resolve. rewrite fullContent_first, Hc. reflexivity.
  - rewrite feed_aggregate_state.
    cbn [NonStream.initial NonStream.nsToolCallFragments].
    unfold NonStream._processNonStreamMultipleToolCalls.
    cbn [NonStream.set_nsToolCallFragments NonStream.nsToolCallFragments
         NonStream.nsTools].
    rewrite fullContent_first, Hc. fold first.
    destruct (NumMap.size (fold_left store fragments1 []) =? 0)%nat eqn:Hz;
      [|reflexivity].
    apply Nat.eqb_eq in Hz. unfold NumMap.size in Hz.
    apply length_zero_iff_nil in Hz.
    assert (Hn : map snd ascending = []).
    { rewrite <- Hc, Hz. reflexivity. }
    subst first. rewrite Hn. reflexivity.
Qed.

(** A witness of C4: three fragments received in descending order of
    their indices; the first two hold one block, the third opens another,
    which is not read. *)
Lemma resolve_arrival_order_witness :
  Reassembly.resolve sample_env
    (Stream.toolCallFragments
       (feed sample_env (Stream.initial true)
          [(2%Z, scenario_block);
           (1%Z, skipn 40 scenario_block);
           (0%Z, firstn 40 scenario_block)])) =
  Reassembly.collect sample_env
    (Reassembly.glmBlocks
       (length (hd [] (Reassembly.tempArray
                         [firstn 40 scenario_block; skipn 40 scenario_block;
                          scenario_block])))
       (hd [] (Reassembly.tempArray
                 [firstn 40 scenario_block; skipn 40 scenario_block;
                  scenario_block])))
    [].
Proof.
  refine (proj1 (proj2 (proj2 (proj2
    (@resolve_arrival_order sample_env (Stream.initial true) NonStream.initial
       [(2%Z, scenario_block); (1%Z, skipn 40 scenario_block);
        (0%Z, firstn 40 scenario_block)]
       [(0%Z, firstn 40 scenario_block); (1%Z, skipn 40 scenario_block);
        (2%Z, scenario_block)]
       _ _)))
    [(0%Z, firstn 40 scenario_block); (1%Z, skipn 40 scenario_block);
     (2%Z, scenario_block)] _ _)).
  - change [(2%Z, scenario_block); (1%Z, skipn 40 scenario_block);
            (0%Z, firstn 40 scenario_block)]
      with (rev [(0%Z, firstn 40 scenario_block);
                 (1%Z, skipn 40 scenario_block); (2%Z, scenario_block)]).
    apply Permutation_sym, Permutation_rev.
  - repeat constructor; simpl; intuition discriminate.
  - change (filter _ _) with
      (rev [(0%Z, firstn 40 scenario_block);
            (1%Z, skipn 40 scenario_block); (2%Z, scenario_block)]).
    apply Permutation_rev.
  - repeat constructor.
Defined.

(** The run of the witness resolves to the invocation of the block of its
    first two fragments, and to nothing else. *)
Lemma resolve_first_block_only :
  Reassembly.resolve sample_env
    (Stream.toolCallFragments
       (feed sample_env (Stream.initial true)
          [(2%Z, scenario_block);
           (1%Z, skipn 40 scenario_block);
           (0%Z, firstn 40 scenario_block)])) =
  [scenario_invocation].
Proof. reflexivity. Qed.

(** ** The streaming translator *)

(** C7: [handle] passes its local [sentInitialAnswer] by value and never
    assigns it, so the initial-content treatment is given to every
    answer-phase payload that carries [edit_content] in non-tool mode, not
    only to the first: in any state of a run without tools such a payload
    has the text after its marker sent, and both payloads of the run below
    do. *)
Theorem initial_content_given_again (E : Env) :
  (forall st text,
     Stream.hasTools st = false ->
     Stream._processContent E st (answer_edit text) false =
     (if JS.truthy (Stream._extractEditContent text)
      then [Stream.content_chunk E (Stream._extractEditContent text)]
      else [],
      st))
  /\ fst (Stream.handle E false
            (Responded true
               [answer_edit (JS.lit "<details>a</details>X");
                answer_edit (JS.lit "<details>b</details>Y")]
               EndOfStream)) =
     [ChunkLine (createOpenAIResponseChunk E (PRIMARY_MODEL E)
                   (Some (role_delta Stream.assistant)) None);
      Stream.content_chunk E (JS.lit "X");
      Stream.content_chunk E (JS.lit "Y")].
Proof.
  split; [|reflexivity].
  intros st text Hh. unfold Stream._processContent, answer_edit, payload.
  cbn [data delta_content edit_content phase usage finish_reason
       phase_eqb negb andb JS.or_else JS.truthy JSON.truthy_opt
       Stream.is_stop].
  rewrite Hh. destruct text as [|c r]; [reflexivity|].
  cbn [JS.truthy negb andb].
  destruct (JS.truthy (Stream._extractEditContent (c :: r)));
    now rewrite ?app_nil_r.
Qed.

(** ** The aggregate translator *)

(** C3: the text of a payload of phase [other] that carries no usage is
    collected like answer text, so with no invocation present the message
    content is not the concatenation of the answer-phase text alone. *)
Theorem other_phase_text_in_content (E : Env) :
  NonStream.handle E false
    (Responded true
       [other_delta (JS.lit "x"); answer_delta (JS.lit "Hi"); done_payload]
       EndOfStream) =
  Some (NonStream.Completion
          {| NonStream.doc_created := (now E / 1000)%Z;
             NonStream.doc_model := PRIMARY_MODEL E;
             NonStream.message :=
               {| NonStream.msg_role := Stream.assistant;
                  NonStream.msg_content := Some (JS.lit "xHi");
                  NonStream.msg_tool_calls := None |};
             NonStream.doc_finish_reason := stop;
             NonStream.doc_usage := NonStream.zero_usage |}).
Proof. reflexivity. Qed.

(** ** Terminal sequences of a streaming run *)

Abbreviation plain := (Forall (fun i => is_terminal i = false)).

Lemma closed_plain out : plain out -> closed_at_most_once out.
Proof.
  intros H. exists out, []. rewrite app_nil_r. auto.
Qed.

Lemma closed_app out out' :
  plain out -> closed_at_most_once out' -> closed_at_most_once (out ++ out').
Proof.
  intros H (body & closing & -> & Hb & Hc).
  exists (out ++ body), closing. rewrite app_assoc. split; [reflexivity|].
  split; [|assumption]. apply Forall_app. auto.
Qed.

Lemma closed_terminal body c reason :
  plain body -> chunk_finish_reason c = Some reason ->
  closed_at_most_once (body ++ [ChunkLine c; DoneLine]).
Proof.
  intros Hb Hc. exists body, [ChunkLine c; DoneLine].
  repeat split; [assumption|]. right. econstructor; eassumption.
Qed.

Ltac break_ifs :=
  repeat match goal with
         | |- context [if ?b then _ else _] => destruct b
         | |- context [match ?o with Some _ => _ | None => _ end] => destruct o
         end.

Lemma processContent_plain E st d b :
  plain (fst (Stream._processContent E st d b)).
Proof.
  unfold Stream._processContent.
  break_ifs; cbn [fst]; try apply Forall_app;
    repeat first [split | constructor | reflexivity].
Qed.

Lemma tool_call_chunks_plain E l :
  plain (flat_map (Stream.tool_call_chunks E) l).
Proof.
  induction l as [|[i t] l IH]; simpl; [constructor|].
  repeat (constructor; [reflexivity|]). exact IH.
Qed.

Lemma buffered_chunks_plain E s : plain (Stream.buffered_chunks E s).
Proof.
  unfold Stream.buffered_chunks. break_ifs; repeat constructor.
Qed.

Lemma fallback_chunks_plain E l :
  plain (fst (Stream.fallback_chunks E l)).
Proof.
  induction l as [|[i t] l IH]; cbn [Stream.fallback_chunks fst];
    [constructor|].
  destruct (Stream.fallback_chunk E (i, t)) as [c|] eqn:Hc; [|constructor].
  destruct (Stream.fallback_chunks E l) as [out thrown]. cbn [fst] in *.
  constructor; [|exact IH].
  destruct t; inversion Hc; reflexivity.
Qed.

(** [_sendEndChunk] as [handle] runs it, case by case: when the loop over
    the invocations of the fallback extractor throws, the increments sent
    before are followed by the stop chunk and the sentinel of the [catch]
    clause. *)
Lemma sendEndChunk_cases E st :
  Stream._sendEndChunk E st =
  if Stream.streamEnded st then ([], st)
  else if Stream.hasTools st then
    match extractToolInvocations E (Stream.bufferedContent st) with
    | Some tcs =>
        (fst (Stream.fallback_chunks E (indexed 0 tcs))
           ++ [ChunkLine
                 (createOpenAIResponseChunk E (PRIMARY_MODEL E) None
                    (Some (if snd (Stream.fallback_chunks E (indexed 0 tcs))
                           then stop else tool_calls_reason)));
               DoneLine],
         Stream.set_streamEnded (Stream.set_toolCalls st (Some tcs)) true)
    | None =>
        ((if JS.truthy (removeToolJsonContent E (Stream.bufferedContent st))
          then [Stream.content_chunk E
                  (removeToolJsonContent E (Stream.bufferedContent st))]
          else [])
           ++ [ChunkLine
                 (createOpenAIResponseChunk E (PRIMARY_MODEL E) None
                    (Some stop));
               DoneLine],
         Stream.set_streamEnded (Stream.set_toolCalls st None) true)
    end
  else
    ([ChunkLine (createOpenAIResponseChunk E (PRIMARY_MODEL E) None
                   (Some stop));
      DoneLine],
     Stream.set_streamEnded st true).
Proof.
  unfold Stream._sendEndChunk, Stream._sendEndChunk_body.
  destruct (Stream.streamEnded st) eqn:Hs; [reflexivity|].
  destruct (Stream.hasTools st); [|reflexivity].
  destruct (extractToolInvocations E (Stream.bufferedContent st)) as [tcs|];
    [|reflexivity].
  destruct (Stream.fallback_chunks E (indexed 0 tcs)) as [out thrown].
  destruct thrown; [|reflexivity].
  unfold Stream.fault_close.
  cbn [Stream.streamEnded Stream.set_toolCalls fst snd]. now rewrite Hs.
Qed.

Lemma processMultipleToolCalls_closed E st :
  closed_at_most_once (fst (Stream._processMultipleToolCalls E st)).
Proof.
  unfold Stream._processMultipleToolCalls.
  destruct (NumMap.size (Stream.toolCallFragments st) =? 0)%nat;
    [apply closed_plain; constructor|].
  destruct (Reassembly.resolve E (Stream.toolCallFragments st)) as [|t ts];
    [apply closed_plain; constructor|].
  cbn [fst]. rewrite app_assoc.
  destruct (Stream.toolUsage st);
    (eapply closed_terminal;
     [apply Forall_app; split;
      [apply tool_call_chunks_plain|apply buffered_chunks_plain]
     |reflexivity]).
Qed.

Lemma sendEndChunk_closed E st :
  closed_at_most_once (fst (Stream._sendEndChunk E st)).
Proof.
  rewrite sendEndChunk_cases.
  destruct (Stream.streamEnded st); [apply closed_plain; constructor|].
  destruct (Stream.hasTools st).
  - destruct (extractToolInvocations E (Stream.bufferedContent st)).
    + cbn [fst]. eapply closed_terminal;
        [apply fallback_chunks_plain|reflexivity].
    + cbn [fst]. eapply closed_terminal; [|reflexivity].
      break_ifs; repeat constructor.
  - cbn [fst]. eapply (@closed_terminal []); [constructor|reflexivity].
Qed.

Lemma error_close_closed E st d :
  closed_at_most_once (fst (Stream.error_close E st d)).
Proof.
  unfold Stream.error_close, handleUpstreamError.
  destruct (Stream.streamEnded st); [apply closed_plain; constructor|].
  cbn [fst]. apply (@closed_terminal [] _ stop); [constructor|reflexivity].
Qed.

Lemma fault_close_closed E st :
  closed_at_most_once (fst (Stream.fault_close E st)).
Proof.
  unfold Stream.fault_close.
  destruct (Stream.streamEnded st); [apply closed_plain; constructor|].
  cbn [fst]. apply (@closed_terminal [] _ stop); [constructor|reflexivity].
Qed.

(** A turn that does not leave the loop yields no terminal item; a turn
    that leaves it yields at most one terminal sequence, at its end. *)
Lemma turn_closed E st d b :
  closed_at_most_once (fst (fst (Stream.turn E st d b)))
  /\ (snd (Stream.turn E st d b) = false ->
      plain (fst (fst (Stream.turn E st d b)))).
Proof.
  unfold Stream.turn.
  destruct (Stream._hasError d).
  - cbn [fst snd]. split; [apply error_close_closed|discriminate].
  - pose proof (processContent_plain E st d b) as Hp.
    destruct (Stream._processContent E st d b) as [out1 st1]. cbn [fst] in Hp.
    destruct (Stream.streamEnded st1);
      [cbn [fst snd]; split; [now apply closed_plain|discriminate]|].
    match goal with
    | |- context [if ?c then _ else _] => destruct c
    end.
    + pose proof (processMultipleToolCalls_closed E st1) as Hc.
      destruct (Stream._processMultipleToolCalls E st1) as [out2 st2].
      cbn [fst snd] in *. split; [now apply closed_app|discriminate].
    + match goal with
      | |- context [if ?c then _ else _] => destruct c
      end; [|cbn [fst snd]; split; [now apply closed_plain|auto]].
      match goal with
      | |- context [if ?c then _ else _] => destruct c
      end.
      * pose proof (processMultipleToolCalls_closed E st1) as Hc.
        destruct (Stream._processMultipleToolCalls E st1) as [out2 st2].
        cbn [fst snd] in *. split; [now apply closed_app|discriminate].
      * pose proof (sendEndChunk_closed E st1) as Hc.
        destruct (Stream._sendEndChunk E st1) as [out2 st2].
        cbn [fst snd] in *. split; [now apply closed_app|discriminate].
Qed.

Lemma loop_closed E payloads ending b : forall st,
  closed_at_most_once (fst (Stream.loop E st payloads ending b)).
Proof.
  induction payloads as [|d rest IH]; intros st.
  - simpl. destruct ending; [apply closed_plain; constructor|].
    apply fault_close_closed.
  - cbn [Stream.loop].
    destruct (turn_closed E st d b) as [Hc Hp].
    destruct (Stream.turn E st d b) as [[out st1] leave].
    cbn [fst snd] in *. destruct leave; [exact Hc|].
    specialize (IH st1).
    destruct (Stream.loop E st1 rest ending b) as [out' st2].
    cbn [fst] in *. apply closed_app; auto.
Qed.

Lemma closed_counts out :
  closed_at_most_once out ->
  length (filter is_finish out) <= 1 /\ length (filter is_done_line out) <= 1.
Proof.
  intros (body & closing & -> & Hb & Hc).
  rewrite !filter_app, !length_app.
  assert (Hf : filter is_finish body = [] /\ filter is_done_line body = []).
  { induction Hb as [|i l Hi _ [IH1 IH2]]; [split; reflexivity|].
    unfold is_terminal in Hi. apply orb_false_iff in Hi as [H1 H2].
    simpl. rewrite H1, H2. auto. }
  destruct Hf as [-> ->].
  destruct Hc as [->|Ht]; [simpl; lia|].
  destruct Ht as [c reason Hr]. simpl. rewrite Hr. simpl. lia.
Qed.

Lemma handle_closed E hasTools call :
  closed_at_most_once (fst (Stream.handle E hasTools call)).
Proof.
  unfold Stream.handle. destruct call as [|[|] payloads ending].
  - apply closed_plain. repeat constructor.
  - pose proof (@loop_closed E payloads ending false
                  (Stream.initial hasTools)) as Hl.
    cbv zeta.
    destruct (Stream.loop E (Stream.initial hasTools) payloads ending false)
      as [out st1].
    cbn [fst] in *.
    apply (@closed_app [_] out); [repeat constructor|exact Hl].
  - apply closed_plain. repeat constructor.
Qed.

Lemma processContent_streamEnded E st d b :
  Stream.streamEnded (snd (Stream._processContent E st d b)) =
  Stream.streamEnded st.
Proof.
  destruct st as [h bc tc se tu tf fr].
  unfold Stream._processContent. cbn.
  break_ifs; reflexivity.
Qed.

(** C1: whatever the upstream call gives, a streaming run yields at most
    one terminal sequence, and nothing after it: its items are items that
    are neither a finish-reason chunk nor the sentinel, followed by nothing
    or by one finish-reason chunk and the sentinel.  Once the stream has
    ended, each of the closes (normal end, error payload, fault) is a
    no-op, and a turn of the loop sends no terminal item and leaves the
    loop, so the reassembly is not reached again; every close that sends
    its sequence sets the flag. *)
Theorem at_most_one_terminal_sequence (E : Env) (hasTools : bool)
  (call : UpstreamCall) :
  closed_at_most_once (fst (Stream.handle E hasTools call))
  /\ length (filter is_finish (fst (Stream.handle E hasTools call))) <= 1
  /\ length (filter is_done_line (fst (Stream.handle E hasTools call))) <= 1
  /\ (forall st d,
        Stream.streamEnded st = true ->
        Stream._sendEndChunk E st = ([], st)
        /\ Stream.error_close E st d = ([], st)
        /\ Stream.fault_close E st = ([], st))
  /\ (forall st d b,
        Stream.streamEnded st = true ->
        Forall (fun i => is_terminal i = false)
          (fst (fst (Stream.turn E st d b)))
        /\ snd (Stream.turn E st d b) = true)
  /\ (forall st d,
        Stream.streamEnded (snd (Stream._sendEndChunk E st)) = true
        /\ Stream.streamEnded (snd (Stream.error_close E st d)) = true
        /\ Stream.streamEnded (snd (Stream.fault_close E st)) = true
        /\ (fst (Stream._processMultipleToolCalls E st) <> [] ->
            Stream.streamEnded (snd (Stream._processMultipleToolCalls E st))
            = true)).
Proof.
  pose proof (handle_closed E hasTools call) as H.
  split; [exact H|].
  split; [apply (closed_counts H)|].
  split; [apply (closed_counts H)|].
  split; [|split].
  - intros st d Hs. rewrite sendEndChunk_cases.
    unfold Stream.error_close, Stream.fault_close.
    rewrite Hs. auto.
  - intros st d b Hs. unfold Stream.turn.
    destruct (Stream._hasError d).
    + unfold Stream.error_close. rewrite Hs. cbn. auto.
    + pose proof (processContent_plain E st d b) as Hp.
      pose proof (processContent_streamEnded E st d b) as He.
      destruct (Stream._processContent E st d b) as [out1 st1].
      cbn [fst snd] in *. rewrite He, Hs. cbn. auto.
  - intros st d. rewrite sendEndChunk_cases.
    unfold Stream.error_close, Stream.fault_close,
      Stream._processMultipleToolCalls.
    split; [|split; [|split]].
    + destruct (Stream.streamEnded st) eqn:Hs; [exact Hs|].
      destruct (Stream.hasTools st);
        [destruct (extractToolInvocations E (Stream.bufferedContent st))|];
        reflexivity.
    + destruct (Stream.streamEnded st) eqn:Hs; [exact Hs|reflexivity].
    + destruct (Stream.streamEnded st) eqn:Hs; [exact Hs|reflexivity].
    + destruct (NumMap.size (Stream.toolCallFragments st) =? 0)%nat;
        [intros Hn; now elim Hn|].
      destruct (Reassembly.resolve E (Stream.toolCallFragments st));
        [intros Hn; now elim Hn|reflexivity].
Qed.

(** ** The error check *)

Lemma hasError_present d :
  Stream._hasError d = true <->
  error d <> None \/ data_error (data d) <> None
  \/ exists i, inner (data d) = Some i /\ inner_error i <> None.
Proof.
  unfold Stream._hasError.
  destruct (error d); [intuition congruence|].
  destruct (data_error (data d)); [intuition congruence|].
  destruct (inner (data d)) as [i|].
  - destruct (inner_error i) eqn:Hi.
    + split; [|reflexivity]. intros _. right. right. exists i.
      split; [reflexivity|congruence].
    + split; [discriminate|].
      intros [H|[H|(i' & Hi' & H)]]; try congruence;
        inversion Hi'; subst; congruence.
  - split; [discriminate|].
    intros [H|[H|(i' & Hi' & H)]]; congruence.
Qed.

(** The payloads after one with an error are never read. *)
Lemma loop_stops_at_error E d b pre : forall st post ending,
  Stream._hasError d = true ->
  Stream.loop E st (pre ++ d :: post) ending b =
  Stream.loop E st (pre ++ [d]) EndOfStream b.
Proof.
  induction pre as [|p pre IH]; intros st post ending Hd.
  - cbn [app Stream.loop]. unfold Stream.turn. rewrite Hd. reflexivity.
  - cbn [app Stream.loop].
    destruct (Stream.turn E st p b) as [[out st1] leave].
    destruct leave; [reflexivity|].
    now rewrite (IH st1 post ending Hd).
Qed.

(** The error check of the streaming translator: an error is present when
    the top-level, the data-level or the nested inner error is set, and is
    looked up in that order; a payload with an error ends the loop at once,
    before its content is processed and whatever follows it; the close it
    sends is one stop chunk and the sentinel, and nothing when the stream
    has ended already, so a run holds at most one such close. *)
Theorem error_check_short_circuits (E : Env) (st : Stream.State)
  (d : UpstreamData) (b : bool) :
  (Stream._hasError d = true <->
   error d <> None \/ data_error (data d) <> None
   \/ exists i, inner (data d) = Some i /\ inner_error i <> None)
  /\ (forall e, error d = Some e -> Stream._getError d = Some e)
  /\ (forall e, error d = None -> data_error (data d) = Some e ->
        Stream._getError d = Some e)
  /\ (forall i, error d = None -> data_error (data d) = None ->
        inner (data d) = Some i -> Stream._getError d = inner_error i)
  /\ (Stream._hasError d = true ->
      forall rest ending,
        Stream.loop E st (d :: rest) ending b = Stream.error_close E st d)
  /\ (Stream._hasError d = true ->
      forall hasTools pre post ending,
        Stream.handle E hasTools (Responded true (pre ++ d :: post) ending) =
        Stream.handle E hasTools (Responded true (pre ++ [d]) EndOfStream))
  /\ (Stream.streamEnded st = false ->
      Stream.error_close E st d =
      ([ChunkLine (createOpenAIResponseChunk E (PRIMARY_MODEL E) None
                     (Some stop));
        DoneLine],
       Stream.set_streamEnded st true))
  /\ (Stream.streamEnded st = true -> Stream.error_close E st d = ([], st))
  /\ (forall hasTools call,
        length (filter is_done_line (fst (Stream.handle E hasTools call))) <= 1).
Proof.
  split; [apply hasError_present|].
  unfold Stream._getError.
  split; [intros e ->; reflexivity|].
  split; [intros e -> ->; reflexivity|].
  split; [intros i -> -> ->; reflexivity|].
  split.
  { intros Hd rest ending. cbn [Stream.loop]. unfold Stream.turn.
    rewrite Hd. now destruct (Stream.error_close E st d). }
  split.
  { intros Hd hasTools pre post ending. unfold Stream.handle.
    now rewrite (@loop_stops_at_error E d false pre _ post ending Hd). }
  split; [intros Hs; unfold Stream.error_close; now rewrite Hs|].
  split; [intros Hs; unfold Stream.error_close; now rewrite Hs|].
  intros hasTools call.
  apply (closed_counts (handle_closed E hasTools call)).
Qed.

(** An instance: the payload after the error payload is not read, and the
    run is closed once. *)
Lemma error_check_short_circuits_witness :
  Stream.loop sample_env (Stream.initial false)
    [answer_with_error (JS.lit "x") {| detail := JS.lit "boom"; code := 500 |};
     answer_delta (JS.lit "y")]
    EndOfStream false =
  ([ChunkLine (createOpenAIResponseChunk sample_env (PRIMARY_MODEL sample_env)
                 None (Some stop));
    DoneLine],
   Stream.set_streamEnded (Stream.initial false) true).
Proof.
  rewrite (proj1 (proj2 (proj2 (proj2 (proj2
             (@error_check_short_circuits sample_env (Stream.initial false)
                (answer_with_error (JS.lit "x")
                   {| detail := JS.lit "boom"; code := 500 |})
                false)))))
             eq_refl).
  reflexivity.
Defined.

(** C6: the aggregate translator makes no error check.  A turn of its loop
    does not read the error fields of the payload: it does to a payload
    what it does to the same payload without them, and so does a whole
    run.  On the run below the streaming translator stops at the payload
    with the error and closes, while the aggregate translator collects the
    text of that payload and of the one after it and returns them in a
    document with finish reason [stop]. *)
Theorem aggregate_has_no_error_check (E : Env) :
  (forall hasTools st d,
     NonStream.turn E hasTools st d =
     NonStream.turn E hasTools st (without_error d))
  /\ (forall hasTools payloads ending,
        NonStream.handle E hasTools (Responded true payloads ending) =
        NonStream.handle E hasTools
          (Responded true (map without_error payloads) ending))
  /\ Stream._hasError
       (answer_with_error (JS.lit "x") {| detail := JS.lit "boom"; code := 500 |})
     = true
  /\ fst (Stream.handle E false (Responded true error_run EndOfStream)) =
     role_chunk E :: stop_close E
  /\ NonStream.handle E false (Responded true error_run EndOfStream) =
     Some (NonStream.Completion
             {| NonStream.doc_created := (now E / 1000)%Z;
                NonStream.doc_model := PRIMARY_MODEL E;
                NonStream.message :=
                  {| NonStream.msg_role := Stream.assistant;
                     NonStream.msg_content := Some (JS.lit "xy");
                     NonStream.msg_tool_calls := None |};
                NonStream.doc_finish_reason := stop;
                NonStream.doc_usage := NonStream.zero_usage |}).
Proof.
  assert (Hturn : forall hasTools st d,
             NonStream.turn E hasTools st d =
             NonStream.turn E hasTools st (without_error d))
    by reflexivity.
  split; [exact Hturn|].
  split.
  { intros hasTools payloads ending.
    unfold NonStream.handle, NonStream.collected.
    generalize NonStream.initial as st.
    induction payloads as [|d rest IH]; intros st; [reflexivity|].
    cbn [map NonStream.loop]. rewrite <- Hturn.
    destruct (NonStream.turn E hasTools st d) as [st1 leave].
    destruct leave; [reflexivity|]. apply IH. }
  split; [reflexivity|].
  split; reflexivity.
Qed.

(** ** Tool mode *)

Lemma phase_eqb_eq a b : phase_eqb a b = true <-> a = b.
Proof. destruct a, b; simpl; split; congruence. Qed.

Lemma processContent_tool_call E st d b :
  phase (data d) = ToolCall ->
  Stream.hasTools (snd (Stream._processContent E st d b)) = true.
Proof.
  intros Hp. unfold Stream._processContent. rewrite Hp. cbn [phase_eqb negb].
  rewrite andb_false_r.
  destruct (Stream.hasTools st) eqn:Hh, (JS.truthy (edit_content (data d)));
    cbn; auto.
Qed.

Lemma processContent_keeps_tools E st d b :
  Stream.hasTools st = true ->
  Stream.hasTools (snd (Stream._processContent E st d b)) = true.
Proof.
  intros Hh. destruct st as [h bc tc se tu tf fr]. cbn in Hh. subst h.
  unfold Stream._processContent. cbn.
  break_ifs; reflexivity.
Qed.

Lemma processMultipleToolCalls_tools E st :
  Stream.hasTools (snd (Stream._processMultipleToolCalls E st)) =
  Stream.hasTools st.
Proof.
  unfold Stream._processMultipleToolCalls.
  destruct (NumMap.size (Stream.toolCallFragments st) =? 0)%nat;
    [reflexivity|].
  destruct (Reassembly.resolve E (Stream.toolCallFragments st)); reflexivity.
Qed.

Lemma sendEndChunk_tools E st :
  Stream.hasTools (snd (Stream._sendEndChunk E st)) = Stream.hasTools st.
Proof.
  rewrite sendEndChunk_cases.
  destruct (Stream.streamEnded st); [reflexivity|].
  destruct (Stream.hasTools st) eqn:Hh; [|cbn; exact Hh].
  destruct (extractToolInvocations E (Stream.bufferedContent st)); cbn;
    exact Hh.
Qed.

(** What the rest of a turn does to the tool-mode flag once
    [_processContent] has returned. *)
Lemma turn_tools E st d b :
  Stream._hasError d = false ->
  Stream.hasTools (snd (fst (Stream.turn E st d b))) =
  Stream.hasTools (snd (Stream._processContent E st d b)).
Proof.
  intros He. unfold Stream.turn. rewrite He.
  destruct (Stream._processContent E st d b) as [out1 st1]. cbn [snd].
  destruct (Stream.streamEnded st1); [reflexivity|].
  repeat match goal with
         | |- context [if ?c then _ else _] => destruct c
         end;
    try reflexivity;
    try (pose proof (processMultipleToolCalls_tools E st1) as Ht;
         destruct (Stream._processMultipleToolCalls E st1); exact Ht).
  pose proof (sendEndChunk_tools E st1) as Ht.
  destruct (Stream._sendEndChunk E st1). exact Ht.
Qed.

Lemma turn_keeps_tools E st d b :
  Stream.hasTools st = true ->
  Stream.hasTools (snd (fst (Stream.turn E st d b))) = true.
Proof.
  intros Hh. destruct (Stream._hasError d) eqn:He.
  - unfold Stream.turn, Stream.error_close. rewrite He.
    destruct (Stream.streamEnded st); exact Hh.
  - rewrite turn_tools by assumption.
    now apply processContent_keeps_tools.
Qed.

Lemma loop_keeps_tools E payloads ending b : forall st,
  Stream.hasTools st = true ->
  Stream.hasTools (snd (Stream.loop E st payloads ending b)) = true.
Proof.
  induction payloads as [|d rest IH]; intros st Hh.
  - simpl. destruct ending; [exact Hh|].
    unfold Stream.fault_close. destruct (Stream.streamEnded st); exact Hh.
  - cbn [Stream.loop].
    pose proof (@turn_keeps_tools E st d b Hh) as Ht.
    destruct (Stream.turn E st d b) as [[out st1] leave]. cbn [fst snd] in Ht.
    destruct leave; [exact Ht|].
    specialize (IH st1 Ht).
    destruct (Stream.loop E st1 rest ending b). exact IH.
Qed.

(** C10, as amended: a payload of phase [tool_call] that passes the error
    check switches the run into tool mode, also when it was built with
    tools disabled; no later turn switches it back; and in tool mode an
    answer-phase payload has nothing sent by [_processContent]: its text is
    appended to the buffer when the payload carries no finish value, and is
    dropped when it carries one. *)
Theorem tool_mode_is_permanent (E : Env) (st : Stream.State)
  (d : UpstreamData) (b : bool) :
  (phase (data d) = ToolCall -> Stream._hasError d = false ->
   Stream.hasTools (snd (Stream._processContent E st d b)) = true
   /\ Stream.hasTools (snd (fst (Stream.turn E st d b))) = true)
  /\ (Stream.hasTools st = true ->
      Stream.hasTools (snd (fst (Stream.turn E st d b))) = true
      /\ forall payloads ending,
           Stream.hasTools (snd (Stream.loop E st payloads ending b)) = true)
  /\ (Stream.hasTools st = true -> phase (data d) = Answer ->
      fst (Stream._processContent E st d b) = []
      /\ Stream.bufferedContent (snd (Stream._processContent E st d b)) =
         Stream.bufferedContent st
           ++ (if JSON.truthy_opt (finish_reason (data d)) then []
               else JS.or_else (delta_content (data d))
                      (edit_content (data d)))).
Proof.
  split; [|split].
  - intros Hp He. split; [now apply processContent_tool_call|].
    rewrite turn_tools by assumption. now apply processContent_tool_call.
  - intros Hh. split; [now apply turn_keeps_tools|].
    intros payloads ending. now apply loop_keeps_tools.
  - intros Hh Hp. destruct st as [h bc tc se tu tf fr]. cbn in Hh. subst h.
    unfold Stream._processContent. rewrite Hp.
    cbn [phase_eqb negb andb].
    destruct (JS.or_else (delta_content (data d)) (edit_content (data d)))
      as [|c r] eqn:Hc;
      destruct (JSON.truthy_opt (finish_reason (data d))) eqn:Hf;
      destruct (usage (data d)), (Stream.is_stop (finish_reason (data d)));
      cbn; rewrite ?app_nil_r; auto.
Qed.

(** A witness of C10 as amended: a run built without tools receives a
    fragment, then answer text. *)
Lemma tool_mode_is_permanent_witness :
  fst (Stream._processContent sample_env
         (snd (Stream._processContent sample_env (Stream.initial false)
                 (fragment_payload (0%Z, Reassembly.block_open)) false))
         (answer_delta (JS.lit "Hi")) false) = []
  /\ Stream.bufferedContent
       (snd (Stream._processContent sample_env
               (snd (Stream._processContent sample_env (Stream.initial false)
                       (fragment_payload (0%Z, Reassembly.block_open)) false))
               (answer_delta (JS.lit "Hi")) false)) = JS.lit "Hi".
Proof.
  exact (proj2 (proj2
    (@tool_mode_is_permanent sample_env
       (snd (Stream._processContent sample_env (Stream.initial false)
               (fragment_payload (0%Z, Reassembly.block_open)) false))
       (answer_delta (JS.lit "Hi")) false)) eq_refl eq_refl).
Defined.

(** C10 as stated fails: in tool mode the text of an answer-phase payload
    that carries a finish value is not appended to the buffer. *)
Lemma finished_answer_text_not_buffered :
  Stream.hasTools
    (snd (Stream._processContent sample_env (Stream.initial false)
            (fragment_payload (0%Z, Reassembly.block_open)) false)) = true
  /\ Stream._processContent sample_env
       (snd (Stream._processContent sample_env (Stream.initial false)
               (fragment_payload (0%Z, Reassembly.block_open)) false))
       (answer_finished (JS.lit "x") (JSON.Str (JS.lit "tool_calls"))) false =
     ([], snd (Stream._processContent sample_env (Stream.initial false)
                 (fragment_payload (0%Z, Reassembly.block_open)) false))
  /\ Stream.bufferedContent
       (snd (Stream._processContent sample_env
               (snd (Stream._processContent sample_env (Stream.initial false)
                       (fragment_payload (0%Z, Reassembly.block_open)) false))
               (answer_finished (JS.lit "x") (JSON.Str (JS.lit "tool_calls")))
               false)) = [].
Proof. repeat split. Qed.

(** ** The scenarios of the spec *)

(** Scenario A of the spec: an answer payload and a done payload, no
    tools: the role chunk, the content chunk, the stop chunk, the
    sentinel. *)
Theorem scenario_A (E : Env) :
  fst (Stream.handle E false
         (Responded true [answer_delta (JS.lit "Hi"); done_payload]
            EndOfStream)) =
  [ChunkLine (createOpenAIResponseChunk E (PRIMARY_MODEL E)
                (Some (role_delta Stream.assistant)) None);
   Stream.content_chunk E (JS.lit "Hi");
   ChunkLine (createOpenAIResponseChunk E (PRIMARY_MODEL E) None (Some stop));
   DoneLine].
Proof. reflexivity. Qed.

(** Scenario B of the spec: tool mode, the block cut into two fragments
    with indices 0 and 1, then a done payload: the started chunk, the
    arguments chunk, the finish chunk with reason [tool_calls], the
    sentinel. *)
Theorem scenario_B (E : Env) :
  fst (Stream.handle E true
         (Responded true
            [fragment_payload (0%Z, firstn 40 scenario_block);
             fragment_payload (1%Z, skipn 40 scenario_block);
             done_payload]
            EndOfStream)) =
  ChunkLine (createOpenAIResponseChunk E (PRIMARY_MODEL E)
               (Some (role_delta Stream.assistant)) None)
  :: Stream.tool_call_chunks E (0%nat, scenario_invocation)
  ++ [ChunkLine (createOpenAIResponseChunk E (PRIMARY_MODEL E) None
                   (Some tool_calls_reason));
      DoneLine].
Proof. reflexivity. Qed.

(** ** The document of the aggregate translator *)

Lemma turn_without_tools E st d :
  NonStream.nsTools (fst (NonStream.turn E false st d)) = NonStream.nsTools st.
Proof.
  unfold NonStream.turn. cbv zeta. cbn [andb].
  rewrite !andb_false_r. cbn [andb]. break_ifs; reflexivity.
Qed.

Lemma loop_without_tools E payloads ending : forall st st',
  NonStream.loop E false st payloads ending = Some st' ->
  NonStream.nsTools st' = NonStream.nsTools st.
Proof.
  induction payloads as [|d rest IH]; intros st st' H.
  - simpl in H. destruct ending; [|discriminate]. now inversion H.
  - cbn [NonStream.loop] in H.
    pose proof (turn_without_tools E st d) as Ht.
    destruct (NonStream.turn E false st d) as [st1 leave]. cbn [fst] in Ht.
    destruct leave.
    + inversion H; subst. exact Ht.
    + rewrite (IH _ _ H). exact Ht.
Qed.

(** Invocations are only ever recorded by a run with tools enabled. *)
Lemma tools_need_hasTools E hasTools payloads ending st :
  NonStream.collected E hasTools payloads ending = Some st ->
  NonStream.nsTools (NonStream.last_check E hasTools st) <> [] ->
  hasTools = true.
Proof.
  intros Hc Hn. destruct hasTools; [reflexivity|].
  exfalso. apply Hn. unfold NonStream.last_check.
  rewrite andb_false_r. cbn [andb].
  apply (@loop_without_tools E payloads ending NonStream.initial st Hc).
Qed.

(** X3, the mutual exclusion of the final document: with resolved invocations
    the content is null, the finish reason is [tool_calls] and the
    invocations form the tool-call list; without, the content is the
    concatenation of the collected text and the finish reason is [stop]. *)
Theorem aggregate_document (E : Env) (hasTools : bool)
  (payloads : list UpstreamData) (ending : Ending) (st : NonStream.State) :
  NonStream.collected E hasTools payloads ending = Some st ->
  (NonStream.nsTools (NonStream.last_check E hasTools st) <> [] ->
   NonStream.msg_content (NonStream.message (NonStream.build E hasTools st))
     = None
   /\ NonStream.doc_finish_reason (NonStream.build E hasTools st)
      = tool_calls_reason
   /\ NonStream.msg_tool_calls
        (NonStream.message (NonStream.build E hasTools st))
      = Some (map NonStream.tool_call_out
                (NonStream.nsTools (NonStream.last_check E hasTools st))))
  /\ (NonStream.nsTools (NonStream.last_check E hasTools st) = [] ->
      NonStream.msg_content (NonStream.message (NonStream.build E hasTools st))
        = Some (JS.join [] (NonStream.fullContent st))
      /\ NonStream.doc_finish_reason (NonStream.build E hasTools st) = stop
      /\ NonStream.msg_tool_calls
           (NonStream.message (NonStream.build E hasTools st)) = None).
Proof.
  intros Hc. split.
  - intros Hn.
    pose proof (@tools_need_hasTools E hasTools payloads ending st Hc Hn).
    subst hasTools.
    unfold NonStream.build. cbn [andb].
    destruct (NonStream.nsTools (NonStream.last_check E true st)) eqn:Ht;
      [congruence|]. cbn. auto.
  - intros Hn. unfold NonStream.build. rewrite Hn. cbn [length Nat.ltb Nat.leb].
    rewrite andb_false_r. cbn. auto.
Qed.

(** A witness of X3: the two fragments of the block of scenario B, then an answer
    payload with finish value [stop]. *)
Lemma aggregate_document_witness :
  NonStream.msg_content
    (NonStream.message (NonStream.build sample_env true scenario_state)) = None
  /\ NonStream.doc_finish_reason (NonStream.build sample_env true scenario_state)
     = tool_calls_reason
  /\ NonStream.msg_tool_calls
       (NonStream.message (NonStream.build sample_env true scenario_state))
     = Some (map NonStream.tool_call_out
               (NonStream.nsTools
                  (NonStream.last_check sample_env true scenario_state))).
Proof.
  exact (proj1 (@aggregate_document sample_env true scenario_payloads
                  EndOfStream scenario_state eq_refl)
           ltac:(vm_compute; discriminate)).
Defined.

(** ** The text collected by the aggregate translator *)

Lemma processNonStream_fullContent E st :
  NonStream.fullContent (NonStream._processNonStreamMultipleToolCalls E st) =
  NonStream.fullContent st.
Proof.
  unfold NonStream._processNonStreamMultipleToolCalls.
  destruct (NumMap.size (NonStream.nsToolCallFragments st) =? 0)%nat;
    reflexivity.
Qed.

Lemma turn_collects E hasTools st d :
  NonStream.fullContent (fst (NonStream.turn E hasTools st d)) =
  NonStream.fullContent st ++ collected_text E hasTools d
  /\ snd (NonStream.turn E hasTools st d) = ends_loop hasTools d.
Proof.
  destruct st as [tools us fr fin full].
  unfold NonStream.turn, collected_text, ends_loop, passed_over.
  cbv zeta.
  destruct (hasTools && phase_eqb (phase (data d)) ToolCall
            && JS.truthy (edit_content (data d))).
  { cbn. now rewrite app_nil_r. }
  cbn [orb].
  destruct (phase (data d)) eqn:Hp; cbn [phase_eqb andb orb negb];
    try (destruct (JSON.truthy_opt (finish_reason (data d)));
         [cbn;
          destruct (usage (data d)), (Stream.is_stop (finish_reason (data d)));
          cbn; now rewrite app_nil_r|]);
    try (destruct (usage (data d)); [cbn; now rewrite app_nil_r|]);
    cbn [orb negb andb];
    repeat match goal with
           | |- context [if ?c then _ else _] => destruct c
           | |- context [match ?o with Some _ => _ | None => _ end] =>
               destruct o
           end;
    cbn; rewrite ?processNonStream_fullContent; cbn;
    rewrite ?app_nil_r, ?orb_false_r, ?orb_true_r; auto.
Qed.

Lemma loop_collects E hasTools payloads ending : forall st st',
  NonStream.loop E hasTools st payloads ending = Some st' ->
  NonStream.fullContent st' =
  NonStream.fullContent st
    ++ flat_map (collected_text E hasTools) (payloads_read hasTools payloads).
Proof.
  induction payloads as [|d rest IH]; intros st st' H.
  - simpl in H. destruct ending; [|discriminate].
    inversion H; subst. simpl. now rewrite app_nil_r.
  - cbn [NonStream.loop] in H.
    destruct (turn_collects E hasTools st d) as [Hc Hl].
    destruct (NonStream.turn E hasTools st d) as [st1 leave].
    cbn [fst snd] in *. subst leave. cbn [payloads_read].
    destruct (ends_loop hasTools d).
    + inversion H; subst. simpl. now rewrite app_nil_r.
    + rewrite (IH _ _ H), Hc. cbn [flat_map]. now rewrite app_assoc.
Qed.

(** X4: the text collected by the aggregate loop is, in arrival order, the
    delta text of every payload read that is not passed over: answer text
    as it is, thinking text after the thinking transform, and the text of
    any other phase as well; the phase is not tested further. *)
Theorem aggregate_collected_text (E : Env) (hasTools : bool)
  (payloads : list UpstreamData) (ending : Ending) (st : NonStream.State) :
  NonStream.collected E hasTools payloads ending = Some st ->
  NonStream.fullContent st =
  flat_map (collected_text E hasTools) (payloads_read hasTools payloads).
Proof.
  intros H. apply loop_collects in H. exact H.
Qed.

(** A witness of X4: the run of C3. *)
Lemma aggregate_collected_text_witness :
  NonStream.fullContent
    (match NonStream.collected sample_env false
             [other_delta (JS.lit "x"); answer_delta (JS.lit "Hi");
              done_payload] EndOfStream
     with Some st => st | None => NonStream.initial end) =
  [JS.lit "x"; JS.lit "Hi"].
Proof.
  exact (@aggregate_collected_text sample_env false
           [other_delta (JS.lit "x"); answer_delta (JS.lit "Hi"); done_payload]
           EndOfStream _ eq_refl).
Defined.

(** ** More on the lexer *)

Lemma fieldRecords_flagged field value :
  Forall flagged_right (SSE.fieldRecords field value).
Proof.
  unfold SSE.fieldRecords.
  destruct (JS.eqb field (JS.lit "data")).
  - destruct (negb (JS.truthy (JS.trim value))); [constructor|].
    destruct (JSON.parse value) eqn:Hp; repeat constructor; auto.
  - repeat match goal with
           | |- context [if ?c then _ else _] => destruct c
           end; repeat constructor.
Qed.

Lemma processLine_flagged line : Forall flagged_right (SSE.processLine line).
Proof.
  unfold SSE.processLine.
  repeat match goal with
         | |- context [if ?c then _ else _] => destruct c
         end; try constructor.
  apply fieldRecords_flagged.
Qed.

Lemma iterEvents_loop_flagged D chunks : forall ds buffer,
  Forall flagged_right (SSE.iterEvents_loop D ds buffer chunks).
Proof.
  induction chunks as [|c rest IH]; intros ds buffer; cbn [SSE.iterEvents_loop].
  - constructor.
  - destruct (decode D ds c) as [ds' text].
    apply Forall_app. split; [|apply IH].
    apply Forall_flat_map, Forall_forall. intros l _.
    apply processLine_flagged.
Qed.

Lemma or_else_same (s : jsstring) : JS.or_else s s = s.
Proof. destruct s; reflexivity. Qed.

Lemma jsonData_flagged l :
  Forall flagged_right l -> flat_map SSE.jsonData l = filter is_data l.
Proof.
  induction 1 as [|e l He _ IH]; [reflexivity|].
  cbn [flat_map filter]. rewrite IH.
  destruct e as [data raw [|]| | |]; try reflexivity.
  destruct He as [-> Hp]. cbn [SSE.jsonData is_data].
  rewrite or_else_same, Hp. reflexivity.
Qed.

(** X5: without a validator [iterJsonData] yields exactly the data records
    of [iterEvents], unchanged: the parse it tries again on a record flagged
    as not JSON is applied to the text whose parse has just failed, so it
    never succeeds. *)
Theorem iterJsonData_is_iterDataOnly (D : TextDecoder)
  (body : option (list (list Byte.byte))) :
  SSE.iterJsonData D body = SSE.iterDataOnly D body.
Proof.
  unfold SSE.iterJsonData, SSE.iterDataOnly, SSE.iterEvents.
  destruct body as [chunks|]; [|reflexivity].
  cbn [option_map]. f_equal.
  apply jsonData_flagged, iterEvents_loop_flagged.
Qed.

(** *** White space at the end of a line *)

Lemma trimStart_blank_app (w s : jsstring) :
  Forall (fun c => JS.isWhiteSpace c = true) w ->
  JS.trimStart (w ++ s) = JS.trimStart s.
Proof.
  induction 1 as [|c w Hc _ IH]; [reflexivity|].
  simpl. now rewrite Hc.
Qed.

Lemma trimEnd_app_blank (s w : jsstring) :
  Forall (fun c => JS.isWhiteSpace c = true) w ->
  JS.trimEnd (s ++ w) = JS.trimEnd s.
Proof.
  intros Hw. unfold JS.trimEnd. rewrite rev_app_distr.
  rewrite trimStart_blank_app; [reflexivity|].
  now apply Forall_rev.
Qed.

Lemma trimStart_app_blank (s w : jsstring) :
  Forall (fun c => JS.isWhiteSpace c = true) w ->
  JS.trimStart (s ++ w) = JS.trimStart s ++ w
  \/ JS.trimStart (s ++ w) = [] /\ JS.trimStart s = [].
Proof.
  intros Hw. induction s as [|c s IH].
  - right. split; [|reflexivity].
    cbn [app]. pose proof (@trimStart_blank_app w [] Hw) as H.
    now rewrite app_nil_r in H.
  - simpl. destruct (JS.isWhiteSpace c); [exact IH|]. now left.
Qed.

Lemma trim_app_blank (s w : jsstring) :
  Forall (fun c => JS.isWhiteSpace c = true) w ->
  JS.trim (s ++ w) = JS.trim s.
Proof.
  intros Hw. unfold JS.trim.
  destruct (trimStart_app_blank s Hw) as [->|[-> ->]]; [|reflexivity].
  now apply trimEnd_app_blank.
Qed.

Lemma indexOf_single_none c (s : jsstring) :
  ~ In c s -> JS.indexOf s [c] = (-1)%Z.
Proof.
  induction s as [|x s IH]; intros Hs; [reflexivity|].
  cbn [JS.indexOf]. rewrite startsWith_single.
  destruct (N.eqb_spec c x) as [->|Hx]; [exfalso; apply Hs; now left|].
  rewrite IH by (intros H; apply Hs; now right). reflexivity.
Qed.

(** The first occurrence of a code unit. *)
Lemma first_occurrence (c : N) (s : jsstring) :
  In c s -> exists f v, s = f ++ c :: v /\ ~ In c f.
Proof.
  induction s as [|x s IH]; [contradiction|].
  intros Hin. destruct (N.eq_dec x c) as [->|Hx].
  - exists [], s. auto.
  - destruct Hin as [Heq|Hin]; [congruence|].
    destruct (IH Hin) as (f & v & -> & Hf).
    exists (x :: f), v. split; [reflexivity|].
    intros [H|H]; [congruence|auto].
Qed.

(** A line with a colon after a non-empty colon-free text. *)
Lemma processLine_colon (f v : jsstring) :
  f <> [] -> ~ In 58%N f ->
  SSE.processLine (f ++ 58%N :: v) =
  SSE.fieldRecords (JS.trim f) (JS.trim v).
Proof.
  intros Hne Hf.
  assert (Hb : JS.truthy (JS.trim (f ++ 58%N :: v)) = true).
  { assert (Hin : In 58%N (JS.trim (f ++ 58%N :: v))).
    { apply trim_keeps; [|reflexivity]. apply in_or_app. right. now left. }
    destruct (JS.trim (f ++ 58%N :: v)); [contradiction|reflexivity]. }
  unfold SSE.processLine, SSE.colon. rewrite Hb. cbn [negb].
  rewrite indexOf_single_app by assumption.
  destruct f as [|x f']; [congruence|].
  rewrite <- app_comm_cons, startsWith_single.
  destruct (N.eqb_spec 58%N x) as [Hx|Hx];
    [exfalso; apply Hf; left; now symmetry|].
  destruct (Z.eqb_spec (Z.of_nat (length (x :: f'))) (-1)); [lia|].
  now rewrite app_comm_cons, substring_before, substring_after.
Qed.

(** A line without colon yields nothing. *)
Lemma processLine_no_colon (line : jsstring) :
  ~ In 58%N line -> SSE.processLine line = [].
Proof.
  intros H. unfold SSE.processLine, SSE.colon.
  rewrite indexOf_single_none by assumption.
  destruct (negb (JS.truthy (JS.trim line))); [reflexivity|].
  now destruct (JS.startsWith line [58%N]).
Qed.

(** A line that starts with a colon is a comment. *)
Lemma processLine_comment (v : jsstring) : SSE.processLine (58%N :: v) = [].
Proof.
  unfold SSE.processLine, SSE.colon. rewrite startsWith_single.
  now destruct (negb (JS.truthy (JS.trim (58%N :: v)))).
Qed.

(** X6: white space at the end of a line changes nothing: the line yields
    the records it yields without it.  In particular a line that ends in a
    carriage return, as in a stream with CR LF line ends, is read like the
    line without it. *)
Theorem processLine_trailing_blank (line w : jsstring) :
  Forall (fun c => JS.isWhiteSpace c = true) w ->
  SSE.processLine (line ++ w) = SSE.processLine line.
Proof.
  intros Hw.
  assert (Hnc : ~ In 58%N w).
  { intros Hin. rewrite Forall_forall in Hw. now specialize (Hw _ Hin). }
  destruct (in_dec N.eq_dec 58%N line) as [Hin|Hnone].
  - destruct (first_occurrence _ _ Hin) as (f & v & -> & Hf).
    rewrite <- app_assoc, <- app_comm_cons.
    destruct f as [|x f].
    + cbn [app]. now rewrite !processLine_comment.
    + rewrite !processLine_colon by (assumption || discriminate).
      now rewrite trim_app_blank.
  - rewrite (processLine_no_colon line) by assumption.
    apply processLine_no_colon. intros H. apply in_app_or in H. tauto.
Qed.

Lemma processLine_carriage_return_witness :
  SSE.processLine (JS.lit "id: 7" ++ [13%N]) = SSE.processLine (JS.lit "id: 7").
Proof.
  apply (@processLine_trailing_blank (JS.lit "id: 7") [13%N]).
  repeat constructor.
Defined.

(** X7: the records are forward-only: reading further chunks leaves the
    records already yielded as they are and appends to them the records of
    the lines completed since; these are read from the line left pending
    followed by the text of the further chunks. *)
Theorem iterEvents_incremental (D : TextDecoder)
  (chunks more : list (list Byte.byte)) :
  SSE.iterEvents D (Some (chunks ++ more)) =
  option_map
    (fun yielded =>
       yielded ++
       flat_map SSE.processLine
         (removelast
            (JS.split
               (pending_line D chunks
                  ++ snd (decode D (decoder_state D chunks) (concat more)))
               SSE.newline)))
    (SSE.iterEvents D (Some chunks)).
Proof.
  unfold SSE.iterEvents, pending_line, decoder_state. cbn [option_map]. f_equal.
  rewrite !iterEvents_loop_lines by auto. cbn [app].
  rewrite concat_app, decode_app. cbn [snd].
  rewrite split_app_newline, removelast_app by apply split_go_not_nil.
  now rewrite flat_map_app.
Qed.

(** X8: a data line is never lost to a parse error: when the value is not
    blank the line yields exactly one data record, whose raw text is the
    trimmed value; the record carries the parsed value and the JSON flag
    when the value parses, and the raw text with the flag off when it does
    not.  A data line with a blank value yields nothing. *)
Theorem data_line_record (f v : jsstring) :
  ~ In 58%N f -> JS.trim f = JS.lit "data" ->
  SSE.processLine (f ++ SSE.colon ++ v) =
  match JS.trim v with
  | [] => []
  | _ :: _ =>
      match JSON.parse (JS.trim v) with
      | Some data => [SSE.DataEvent data (JS.trim v) true]
      | None => [SSE.DataEvent (JSON.Str (JS.trim v)) (JS.trim v) false]
      end
  end.
Proof.
  intros Hf Hd.
  assert (Hne : f <> []) by (intros ->; discriminate).
  change (f ++ SSE.colon ++ v) with (f ++ 58%N :: v).
  rewrite processLine_colon by assumption. rewrite Hd.
  unfold SSE.fieldRecords. cbn [JS.eqb JS.lit].
  change (JS.eqb (JS.lit "data") (JS.lit "data")) with true. cbv iota.
  pose proof (trimStart_trim v) as H1. pose proof (trimEnd_trim v) as H2.
  assert (Ht : JS.trim (JS.trim v) = JS.trim v).
  { unfold JS.trim at 1. now rewrite H1, H2. }
  rewrite Ht. now destruct (JS.trim v).
Qed.

Lemma data_line_record_witness :
  SSE.processLine (JS.lit "data" ++ SSE.colon ++ JS.lit " {oops ") =
  [SSE.DataEvent (JSON.Str (JS.lit "{oops")) (JS.lit "{oops") false].
Proof.
  exact (@data_line_record (JS.lit "data") (JS.lit " {oops ")
           ltac:(vm_compute; intuition discriminate) eq_refl).
Defined.

(** X9: the text after the last line feed is never read as a line, not even
    when the stream ends: the records are those of the lines that a line
    feed completes, and a last line without line feed is lost. *)
Theorem unterminated_line_dropped (D : TextDecoder)
  (chunks : list (list Byte.byte)) (text tail : jsstring) :
  snd (decode D (dinit D) (concat chunks)) = text ++ [10%N] ++ tail ->
  ~ In 10%N tail ->
  SSE.iterEvents D (Some chunks) =
  Some (flat_map SSE.processLine (JS.split text SSE.newline)).
Proof.
  intros Ht Htail. unfold SSE.iterEvents. f_equal.
  rewrite iterEvents_loop_lines by auto. cbn [app] in *. rewrite Ht.
  f_equal.
  change (text ++ 10%N :: tail) with (text ++ [10%N] ++ tail).
  rewrite app_assoc, split_app_newline.
  rewrite (split_app_newline text).
  pose proof (@last_split_go_single_free 10%N text [] (fun H => H)) as Hl.
  fold (JS.split text SSE.newline) in Hl.
  set (l := last (JS.split text SSE.newline) []) in *.
  assert (Hs : JS.split (l ++ [10%N]) SSE.newline = [l; []]).
  { unfold JS.split, SSE.newline.
    rewrite split_go_single_free by assumption.
    rewrite app_nil_r. cbn. now rewrite rev_involutive. }
  rewrite Hs.
  set (R := removelast (JS.split text SSE.newline)).
  assert (H1 : removelast (R ++ [l; []]) = R ++ [l]).
  { rewrite removelast_app by discriminate. reflexivity. }
  assert (H2 : last (R ++ [l; []]) [] = []).
  { change [l; []] with ([l] ++ [@nil N]).
    rewrite app_assoc. apply last_last. }
  rewrite H1, H2. cbn [app].
  rewrite split_free_newline by assumption.
  rewrite removelast_app by discriminate. cbn [removelast].
  rewrite app_nil_r.
  pose proof (split_go_not_nil SSE.newline 0 [] text) as Hne.
  fold (JS.split text SSE.newline) in Hne.
  subst l R. symmetry. apply app_removelast_last. exact Hne.
Qed.

Lemma unterminated_line_dropped_witness :
  SSE.iterEvents Utf8.decoder
    (Some [[Byte.x69; Byte.x64; Byte.x3a; Byte.x31; Byte.x0a;
            Byte.x69; Byte.x64; Byte.x3a; Byte.x32]]) =
  Some (flat_map SSE.processLine (JS.split (JS.lit "id:1") SSE.newline)).
Proof.
  apply (@unterminated_line_dropped Utf8.decoder _ (JS.lit "id:1")
           (JS.lit "id:2")).
  - reflexivity.
  - vm_compute. intuition discriminate.
Defined.

(** ** The arguments of resolved invocations *)

Lemma parse_empty_object :
  JSON.parse Reassembly.empty_object = Some (JSON.Obj []).
Proof. reflexivity. Qed.

Lemma finalArgs_parses (v : JSON.value) : is_json_text (Reassembly.finalArgs v).
Proof.
  unfold is_json_text, Reassembly.finalArgs.
  destruct v as [| | |s| |]; try (eexists; apply parse_empty_object).
  destruct (JS.truthy s && negb (JS.eqb s Reassembly.empty_object));
    [|eexists; apply parse_empty_object].
  destruct (JS.startsWith s Reassembly.quote && JS.endsWith s Reassembly.quote).
  - destruct (JSON.parse s) as [[| | |u| |]|];
      try (eexists; apply parse_empty_object).
    destruct (JSON.parse u) eqn:Hu; [eauto|eexists; apply parse_empty_object].
  - destruct (JSON.parse s) eqn:Hs; [eauto|eexists; apply parse_empty_object].
Qed.

Lemma parseBlock_arguments E n b t :
  Reassembly.parseBlock E n b = Some t -> is_json_text (tool_arguments t).
Proof.
  unfold Reassembly.parseBlock.
  destruct (JSON.parse b) as [parsed|]; [|discriminate].
  destruct (Reassembly.metadata_of parsed) as [metadata|]; [|discriminate].
  intros H. inversion H; subst. apply finalArgs_parses.
Qed.

Lemma collect_arguments E blocks : forall acc,
  Forall (fun t => is_json_text (tool_arguments t)) acc ->
  Forall (fun t => is_json_text (tool_arguments t))
    (Reassembly.collect E blocks acc).
Proof.
  induction blocks as [|b r IH]; intros acc Hacc; cbn [Reassembly.collect].
  - exact Hacc.
  - destruct (Reassembly.parseBlock E (length acc) b) as [t|] eqn:Hb.
    + apply IH, Forall_app. split; [exact Hacc|].
      constructor; [|constructor]. exact (parseBlock_arguments _ _ _ Hb).
    + now apply IH.
Qed.

(** ** The arguments sent *)

Lemma sent_arguments_app a b :
  sent_arguments (a ++ b) = sent_arguments a ++ sent_arguments b.
Proof. unfold sent_arguments. apply flat_map_app. Qed.

Lemma sent_arguments_tool_call_chunks E l :
  Forall (fun it => tool_arguments (snd it) <> []) l ->
  filter JS.truthy (sent_arguments (flat_map (Stream.tool_call_chunks E) l)) =
  map (fun it => tool_arguments (snd it)) l.
Proof.
  induction 1 as [|[i t] l Ht _ IH]; [reflexivity|].
  cbn [flat_map map snd]. rewrite sent_arguments_app, filter_app, IH.
  cbn [snd] in Ht.
  unfold Stream.tool_call_chunks, sent_arguments.
  cbn -[JS.lit filter]. rewrite !app_nil_r.
  change (JSON.get _ (JS.lit "arguments")) with (Some (JSON.Str (@nil N))).
  destruct (tool_arguments t) eqn:Ha; [congruence|reflexivity].
Qed.

Lemma sent_arguments_buffered_chunks E s :
  sent_arguments (Stream.buffered_chunks E s) = [].
Proof. unfold Stream.buffered_chunks. break_ifs; reflexivity. Qed.

Lemma map_snd_indexed (A : Type) (l : list A) : forall i,
  map snd (indexed i l) = l.
Proof.
  induction l as [|x l IH]; intros i; [reflexivity|].
  cbn [indexed map snd]. now rewrite IH.
Qed.

Lemma is_json_text_not_empty s : is_json_text s -> s <> [].
Proof. intros [j Hj] ->. discriminate Hj. Qed.

(** X10: the arguments texts the streaming translator sends for the
    fragments of a run are, the empty text of each chunk that starts an
    invocation apart, the arguments of the invocations resolved from the
    fragments, unchanged and in order; and each of them is a text that
    [JSON.parse] accepts, whatever the blocks hold. *)
Theorem resolved_arguments_are_json (E : Env) (st : Stream.State) :
  filter JS.truthy
    (sent_arguments (fst (Stream._processMultipleToolCalls E st))) =
  map tool_arguments (Reassembly.resolve E (Stream.toolCallFragments st))
  /\ Forall (fun t => is_json_text (tool_arguments t))
       (Reassembly.resolve E (Stream.toolCallFragments st)).
Proof.
  assert (Hj : Forall (fun t => is_json_text (tool_arguments t))
                 (Reassembly.resolve E (Stream.toolCallFragments st))).
  { unfold Reassembly.resolve. apply collect_arguments. constructor. }
  split; [|exact Hj].
  unfold Stream._processMultipleToolCalls.
  destruct (NumMap.size (Stream.toolCallFragments st) =? 0)%nat eqn:Hz.
  { apply Nat.eqb_eq in Hz. unfold NumMap.size in Hz.
    apply length_zero_iff_nil in Hz. rewrite Hz. reflexivity. }
  destruct (Reassembly.resolve E (Stream.toolCallFragments st)) as [|t ts]
    eqn:Hr; [reflexivity|].
  cbn [fst]. rewrite !sent_arguments_app, !filter_app.
  rewrite sent_arguments_buffered_chunks.
  rewrite sent_arguments_tool_call_chunks.
  - rewrite <- map_map, map_snd_indexed.
    destruct (Stream.toolUsage st); cbn; now rewrite app_nil_r.
  - apply Forall_forall. intros [i t'] Hin. cbn [snd].
    apply is_json_text_not_empty.
    rewrite Forall_forall in Hj. apply Hj.
    apply (in_map snd) in Hin. now rewrite map_snd_indexed in Hin.
Qed.

(** ** Invariants of the invocations the aggregate translator records *)

Section RecordedInvariant.

Variable E : Env.
Variable P : list ToolInvocation -> Prop.
Hypothesis P_step : forall tools n b t,
  P tools ->
  Reassembly.parseBlock E n b = Some t ->
  existsb (fun t' => NonStream.sameValueZero (tool_id t') (tool_id t)) tools
    = false ->
  P (tools ++ [t]).

Lemma record_blocks_inv blocks : forall tools,
  P tools -> P (NonStream.record_blocks E blocks tools).
Proof.
  induction blocks as [|b r IH]; intros tools Ht; cbn [NonStream.record_blocks].
  - exact Ht.
  - destruct (Reassembly.parseBlock E (length tools) b) as [t|] eqn:Hb;
      [|now apply IH].
    destruct (existsb _ tools) eqn:Hex; [now apply IH|].
    apply IH. exact (P_step _ _ Ht Hb Hex).
Qed.

Lemma processNonStream_inv st :
  P (NonStream.nsTools st) ->
  P (NonStream.nsTools (NonStream._processNonStreamMultipleToolCalls E st)).
Proof.
  intros H. unfold NonStream._processNonStreamMultipleToolCalls.
  destruct (NumMap.size (NonStream.nsToolCallFragments st) =? 0)%nat;
    [exact H|].
  cbn [NonStream.set_nsTools NonStream.nsTools]. now apply record_blocks_inv.
Qed.

Lemma turn_inv hasTools st d :
  P (NonStream.nsTools st) ->
  P (NonStream.nsTools (fst (NonStream.turn E hasTools st d))).
Proof.
  intros H. destruct st as [tools us fr fin full]. cbn [NonStream.nsTools] in H.
  unfold NonStream.turn. cbv zeta.
  repeat match goal with
         | |- context [if ?c then _ else _] => destruct c
         | |- context [match usage ?d with Some _ => _ | None => _ end] =>
             destruct (usage d)
         end;
    cbn [fst NonStream.nsTools NonStream.set_nsUsage NonStream.set_fullContent
         NonStream.set_nsToolCallFragments
         NonStream.set_nsToolCallFinishReceived];
    try exact H; apply processNonStream_inv; exact H.
Qed.

Lemma loop_inv hasTools payloads ending : forall st st',
  P (NonStream.nsTools st) ->
  NonStream.loop E hasTools st payloads ending = Some st' ->
  P (NonStream.nsTools st').
Proof.
  induction payloads as [|d rest IH]; intros st st' Hs H.
  - simpl in H. destruct ending; [|discriminate]. now inversion H; subst.
  - cbn [NonStream.loop] in H.
    pose proof (turn_inv hasTools st d Hs) as Ht.
    destruct (NonStream.turn E hasTools st d) as [st1 leave]. cbn [fst] in Ht.
    destruct leave; [now inversion H; subst|].
    exact (IH _ _ Ht H).
Qed.

Lemma recorded_inv hasTools payloads ending st :
  P [] ->
  NonStream.collected E hasTools payloads ending = Some st ->
  P (NonStream.nsTools (NonStream.last_check E hasTools st)).
Proof.
  intros H0 Hc. unfold NonStream.collected in Hc.
  apply loop_inv in Hc; [|exact H0].
  unfold NonStream.last_check.
  destruct (_ && _); [now apply processNonStream_inv|exact Hc].
Qed.

End RecordedInvariant.

(** Ids that are numbers are compared as doubles: two literals that denote
    the same double are the same id, and so are the two zeros. *)
Lemma number_ids_compared_as_doubles :
  NonStream.sameValueZero
    (JSON.Num {| JSON.neg := false; JSON.mant := 9007199254740992;
                 JSON.expo := 0 |})
    (JSON.Num {| JSON.neg := false; JSON.mant := 9007199254740993;
                 JSON.expo := 0 |}) = true
  /\ NonStream.sameValueZero
       (JSON.Num {| JSON.neg := false; JSON.mant := 1; JSON.expo := -1 |})
       (JSON.Num {| JSON.neg := false; JSON.mant := 10000000000000001;
                    JSON.expo := -17 |}) = true
  /\ NonStream.sameValueZero
       (JSON.Num {| JSON.neg := false; JSON.mant := 0; JSON.expo := 0 |})
       (JSON.Num {| JSON.neg := true; JSON.mant := 0; JSON.expo := 0 |}) = true
  /\ NonStream.sameValueZero
       (JSON.Num {| JSON.neg := false; JSON.mant := 9007199254740992;
                    JSON.expo := 0 |})
       (JSON.Num {| JSON.neg := false; JSON.mant := 9007199254740994;
                    JSON.expo := 0 |}) = false
  /\ NonStream.sameValueZero
       (JSON.Num {| JSON.neg := false; JSON.mant := 1; JSON.expo := 0 |})
       (JSON.Str (JS.lit "1")) = false.
Proof. repeat split; vm_compute; reflexivity. Qed.

(** X11: no two tool calls of the aggregated document carry the same id: an
    invocation whose id has been recorded before is not recorded again,
    over all the times the fragments are processed during a run. *)
Theorem aggregate_ids_distinct (E : Env) (hasTools : bool)
  (payloads : list UpstreamData) (ending : Ending) (st : NonStream.State) :
  NonStream.collected E hasTools payloads ending = Some st ->
  distinct_ids (NonStream.nsTools (NonStream.last_check E hasTools st)).
Proof.
  apply (@recorded_inv E distinct_ids); [|constructor].
  intros tools n b t Ht _ Hex. unfold distinct_ids in *.
  induction Ht as [|a l Ha Hl IH]; cbn [app].
  - constructor; constructor.
  - cbn [existsb] in Hex. apply orb_false_elim in Hex as [Hat Hex].
    constructor; [|now apply IH].
    apply Forall_app. split; [exact Ha|]. constructor; [exact Hat|constructor].
Qed.
Lemma aggregate_ids_distinct_witness :
  distinct_ids
    (NonStream.nsTools (NonStream.last_check sample_env true repeated_state)).
Proof.
  exact (@aggregate_ids_distinct sample_env true repeated_payloads EndOfStream
           repeated_state eq_refl).
Defined.

Lemma or_default_truthy o d :
  JSON.truthy d = true -> JSON.truthy (Reassembly.or_default o d) = true.
Proof.
  intros Hd. unfold Reassembly.or_default.
  destruct o as [v|]; [|exact Hd].
  destruct (JSON.truthy v) eqn:Hv; assumption.
Qed.

Lemma parseBlock_name E n b t :
  Reassembly.parseBlock E n b = Some t -> JSON.truthy (tool_name t) = true.
Proof.
  unfold Reassembly.parseBlock.
  destruct (JSON.parse b) as [parsed|]; [|discriminate].
  destruct (Reassembly.metadata_of parsed) as [metadata|]; [|discriminate].
  intros H. inversion H; subst. cbn [tool_name].
  now apply or_default_truthy.
Qed.

Lemma tool_call_out_recorded t :
  JSON.truthy (tool_name t) = true -> is_json_text (tool_arguments t) ->
  NonStream.tool_call_out t = recorded_out t.
Proof.
  intros Hn [j Hj]. unfold NonStream.tool_call_out, recorded_out.
  assert (Ha : JS.or_else (tool_arguments t) Reassembly.empty_object
               = tool_arguments t).
  { destruct (tool_arguments t); [discriminate Hj|reflexivity]. }
  rewrite Ha, Hj. cbn [Reassembly.or_default]. now rewrite Hn.
Qed.

(** X12: the tool calls of the aggregated document carry the name and the
    arguments exactly as they were recorded when the blocks were resolved:
    the default name and the second validation of the arguments in the
    final map never apply. *)
Theorem aggregate_tool_calls_as_recorded (E : Env) (hasTools : bool)
  (payloads : list UpstreamData) (ending : Ending) (st : NonStream.State) :
  NonStream.collected E hasTools payloads ending = Some st ->
  map NonStream.tool_call_out
    (NonStream.nsTools (NonStream.last_check E hasTools st)) =
  map recorded_out (NonStream.nsTools (NonStream.last_check E hasTools st)).
Proof.
  intros Hc. apply map_ext_in. intros t Hin.
  assert (Hall : Forall (fun t => JSON.truthy (tool_name t) = true
                                  /\ is_json_text (tool_arguments t))
                   (NonStream.nsTools (NonStream.last_check E hasTools st))).
  { revert Hc.
    apply (@recorded_inv E
             (Forall (fun t => JSON.truthy (tool_name t) = true
                               /\ is_json_text (tool_arguments t))));
      [|constructor].
    intros tools n b t' Ht Hb _. apply Forall_app. split; [exact Ht|].
    constructor; [|constructor]. split.
    - exact (parseBlock_name _ _ _ Hb).
    - exact (parseBlock_arguments _ _ _ Hb). }
  rewrite Forall_forall in Hall. destruct (Hall _ Hin) as [Hn Ha].
  now apply tool_call_out_recorded.
Qed.

Lemma aggregate_tool_calls_as_recorded_witness :
  map NonStream.tool_call_out
    (NonStream.nsTools (NonStream.last_check sample_env true scenario_state)) =
  map recorded_out
    (NonStream.nsTools (NonStream.last_check sample_env true scenario_state)).
Proof.
  exact (@aggregate_tool_calls_as_recorded sample_env true scenario_payloads
           EndOfStream scenario_state eq_refl).
Defined.

(** ** Only the first block that is opened is resolved *)

Lemma tempArray_flush contents :
  Reassembly.tempArray contents =
  flush (fold_left Reassembly.glue contents ([], [])).
Proof.
  unfold Reassembly.tempArray, flush.
  now destruct (fold_left Reassembly.glue contents ([], [])).
Qed.

Lemma startsWith_nil_false p : p <> [] -> JS.startsWith [] p = false.
Proof. destruct p; [congruence|reflexivity]. Qed.

Lemma endsWith_nil_false p : p <> [] -> JS.endsWith [] p = false.
Proof.
  intros Hp. unfold JS.endsWith. apply startsWith_nil_false.
  intros H. apply Hp. destruct p; [reflexivity|].
  simpl in H. now destruct (rev p).
Qed.

Lemma glue_opener st o :
  opens_block o = true -> Reassembly.glue st o = (flush st, JS.trim o).
Proof.
  intros Ho. destruct st as [arr tc]. unfold Reassembly.glue, flush.
  unfold opens_block in Ho. now rewrite Ho.
Qed.

Lemma opener_truthy o : opens_block o = true -> JS.truthy (JS.trim o) = true.
Proof.
  unfold opens_block. destruct (JS.trim o); [|reflexivity].
  now rewrite startsWith_nil_false.
Qed.

Lemma glue_keeps_truthy st c :
  JS.truthy (snd st) = true -> JS.truthy (snd (Reassembly.glue st c)) = true.
Proof.
  destruct st as [arr tc]. cbn [snd]. intros Ht.
  unfold Reassembly.glue.
  destruct (JS.startsWith (JS.trim c) Reassembly.block_prefix) eqn:Ho.
  - cbn [snd]. now apply opener_truthy.
  - rewrite Ht. cbn [andb].
    destruct (JS.endsWith (JS.trim c) Reassembly.block_close) eqn:Hc;
      [|exact Ht].
    cbn [snd]. destruct (JS.trim c).
    + now rewrite endsWith_nil_false in Hc.
    + now destruct (hd [] (JS.split tc Reassembly.result_marker)).
Qed.

Lemma fold_glue_keeps_truthy contents : forall st,
  JS.truthy (snd st) = true ->
  JS.truthy (snd (fold_left Reassembly.glue contents st)) = true.
Proof.
  induction contents as [|c r IH]; intros st Hs; [exact Hs|].
  cbn [fold_left]. now apply IH, glue_keeps_truthy.
Qed.

Lemma fold_glue_opened contents : forall st,
  Exists (fun c => opens_block c = true) contents ->
  JS.truthy (snd (fold_left Reassembly.glue contents st)) = true.
Proof.
  induction contents as [|c r IH]; intros st Hex; [inversion Hex|].
  cbn [fold_left]. inversion Hex as [? ? Hc|? ? Hr]; subst.
  - apply fold_glue_keeps_truthy. rewrite glue_opener by assumption.
    now apply opener_truthy.
  - now apply IH.
Qed.

Lemma glue_extends st c :
  exists extra, fst (Reassembly.glue st c) = fst st ++ extra.
Proof.
  destruct st as [arr tc]. unfold Reassembly.glue.
  destruct (JS.startsWith (JS.trim c) Reassembly.block_prefix).
  - destruct (JS.truthy tc); cbn [fst]; [now exists [tc]|].
    exists []. now rewrite app_nil_r.
  - destruct (_ && _); exists []; cbn [fst]; now rewrite app_nil_r.
Qed.

Lemma fold_glue_extends contents : forall st,
  exists extra, fst (fold_left Reassembly.glue contents st) = fst st ++ extra.
Proof.
  induction contents as [|c r IH]; intros st.
  - exists []. simpl. now rewrite app_nil_r.
  - cbn [fold_left]. destruct (IH (Reassembly.glue st c)) as [e1 H1].
    destruct (glue_extends st c) as [e2 H2].
    exists (e2 ++ e1). now rewrite H1, H2, app_assoc.
Qed.

Lemma firstn_1_app (A : Type) (l l' : list A) :
  l <> [] -> firstn 1 (l ++ l') = firstn 1 l.
Proof. destruct l; [congruence|reflexivity]. Qed.

(** X13: only the first block that is opened is resolved.  Once a fragment
    has opened a block, everything from the next opening fragment on is
    left out of the text in which blocks are looked for, whatever it
    holds. *)
Theorem later_blocks_discarded (fragments : NumMap.t)
  (pre post : list jsstring) (opener : jsstring) :
  Reassembly.contentArray fragments = pre ++ opener :: post ->
  Exists (fun c => opens_block c = true) pre ->
  opens_block opener = true ->
  Reassembly.fullContent fragments =
  JS.join SSE.newline (firstn 1 (Reassembly.tempArray pre)).
Proof.
  intros Hc Hpre Ho. unfold Reassembly.fullContent. rewrite Hc. f_equal.
  rewrite !tempArray_flush, fold_left_app. cbn [fold_left].
  rewrite glue_opener by assumption.
  set (A := flush (fold_left Reassembly.glue pre ([], []))).
  assert (HA : A <> []).
  { subst A. unfold flush.
    rewrite (fold_glue_opened ([], []) Hpre). now destruct (fst _). }
  destruct (fold_glue_extends post (A, JS.trim opener)) as [extra He].
  cbn [fst] in He. unfold flush at 1. rewrite He.
  destruct (JS.truthy _); rewrite <- ?app_assoc; now apply firstn_1_app.
Qed.

Lemma later_blocks_discarded_witness :
  Reassembly.fullContent [(0%Z, scenario_block); (1%Z, scenario_block)] =
  JS.join SSE.newline (firstn 1 (Reassembly.tempArray [scenario_block])).
Proof.
  apply (@later_blocks_discarded [(0%Z, scenario_block); (1%Z, scenario_block)]
           [scenario_block] [] scenario_block).
  - reflexivity.
  - constructor. reflexivity.
  - reflexivity.
Defined.

(** ** How a streaming run ends *)

Lemma processContent_finishReceived E st d b :
  Stream.is_stop (finish_reason (data d)) = false ->
  Stream.toolCallFinishReceived (snd (Stream._processContent E st d b)) =
  Stream.toolCallFinishReceived st.
Proof.
  intros Hs. destruct st as [h bc tc se tu tf fr].
  unfold Stream._processContent. rewrite Hs. cbn.
  break_ifs; reflexivity.
Qed.

Lemma quiet_turn E st d b :
  quiet d = true ->
  Stream.streamEnded st = false ->
  Stream.toolCallFinishReceived st = false ->
  Stream.turn E st d b =
  (Stream._processContent E st d b, false)
  /\ Stream.streamEnded (snd (Stream._processContent E st d b)) = false
  /\ Stream.toolCallFinishReceived (snd (Stream._processContent E st d b))
     = false.
Proof.
  unfold quiet. intros Hq Hse Hfr.
  apply andb_prop in Hq as [Hq H4]. apply andb_prop in Hq as [Hq H3].
  apply andb_prop in Hq as [H1 H2].
  apply negb_true_iff in H1, H2, H3, H4.
  pose proof (processContent_streamEnded E st d b) as Pse.
  pose proof (@processContent_finishReceived E st d b H4) as Pfr.
  rewrite Hse in Pse. rewrite Hfr in Pfr.
  unfold Stream.turn. rewrite H1.
  destruct (Stream._processContent E st d b) as [out1 st1]. cbn [snd] in *.
  rewrite Pse, Pfr, H2, H3. cbn [andb orb]. auto.
Qed.

Lemma loop_quiet E payloads b : forall st,
  forallb quiet payloads = true ->
  Stream.streamEnded st = false ->
  Stream.toolCallFinishReceived st = false ->
  plain (fst (Stream.loop E st payloads EndOfStream b))
  /\ fst (Stream.loop E st payloads Fault b) =
     fst (Stream.loop E st payloads EndOfStream b) ++ stop_close E.
Proof.
  induction payloads as [|d rest IH]; intros st Hq Hse Hfr.
  - cbn [Stream.loop]. unfold Stream.fault_close. rewrite Hse.
    split; [constructor|reflexivity].
  - cbn [forallb] in Hq. apply andb_prop in Hq as [Hd Hrest].
    destruct (@quiet_turn E st d b Hd Hse Hfr) as (Ht & Hse1 & Hfr1).
    cbn [Stream.loop]. rewrite Ht.
    pose proof (processContent_plain E st d b) as Hp.
    destruct (Stream._processContent E st d b) as [out1 st1].
    cbn [fst snd] in *.
    destruct (IH st1 Hrest Hse1 Hfr1) as [IH1 IH2].
    destruct (Stream.loop E st1 rest EndOfStream b) as [oe se].
    destruct (Stream.loop E st1 rest Fault b) as [ofl sf].
    cbn [fst] in *. subst ofl. split.
    + apply Forall_app. now split.
    + now rewrite app_assoc.
Qed.

(** X14: a stream that ends without a done payload, an error or the finish
    value [stop] is handed down without finish chunk and without sentinel:
    the items of the run hold no terminal item.  When reading the upstream
    fails instead of ending, the same items are followed by the stop chunk
    and the sentinel. *)
Theorem stream_without_done_is_not_closed (E : Env) (hasTools : bool)
  (payloads : list UpstreamData) :
  forallb quiet payloads = true ->
  Forall (fun i => is_terminal i = false)
    (fst (Stream.handle E hasTools (Responded true payloads EndOfStream)))
  /\ fst (Stream.handle E hasTools (Responded true payloads Fault)) =
     fst (Stream.handle E hasTools (Responded true payloads EndOfStream))
       ++ stop_close E.
Proof.
  intros Hq. unfold Stream.handle.
  destruct (@loop_quiet E payloads false (Stream.initial hasTools) Hq
              eq_refl eq_refl) as [H1 H2].
  destruct (Stream.loop E (Stream.initial hasTools) payloads EndOfStream false)
    as [oe se].
  destruct (Stream.loop E (Stream.initial hasTools) payloads Fault false)
    as [ofl sf].
  cbn [fst] in *. subst ofl. split; [|reflexivity].
  constructor; [reflexivity|exact H1].
Qed.

Lemma stream_without_done_is_not_closed_witness :
  Forall (fun i => is_terminal i = false)
    (fst (Stream.handle sample_env false
            (Responded true [answer_delta (JS.lit "Hi")] EndOfStream)))
  /\ fst (Stream.handle sample_env false
            (Responded true [answer_delta (JS.lit "Hi")] Fault)) =
     fst (Stream.handle sample_env false
            (Responded true [answer_delta (JS.lit "Hi")] EndOfStream))
       ++ stop_close sample_env.
Proof.
  exact (@stream_without_done_is_not_closed sample_env false
           [answer_delta (JS.lit "Hi")] eq_refl).
Defined.

Lemma loop_error_like_fault E e b pre : forall st rest ending,
  Stream._hasError e = true ->
  Stream.loop E st (pre ++ e :: rest) ending b = Stream.loop E st pre Fault b.
Proof.
  induction pre as [|d pre IH]; intros st rest ending He.
  - cbn [app Stream.loop]. unfold Stream.turn. rewrite He.
    unfold Stream.error_close, Stream.fault_close, handleUpstreamError.
    now destruct (Stream.streamEnded st).
  - cbn [app Stream.loop].
    destruct (Stream.turn E st d b) as [[out st1] leave].
    destruct leave; [reflexivity|]. now rewrite IH.
Qed.

(** X15: an error payload ends a stream exactly as a failure to read the
    upstream does at the same place: the items of the run are those of the
    run in which the payloads before the error are followed by a fault.
    Nothing of the error is handed down, and the payloads after it are not
    read. *)
Theorem error_payload_closes_like_fault (E : Env) (hasTools : bool)
  (pre rest : list UpstreamData) (e : UpstreamData) (ending : Ending) :
  Stream._hasError e = true ->
  Stream.handle E hasTools (Responded true (pre ++ e :: rest) ending) =
  Stream.handle E hasTools (Responded true pre Fault).
Proof.
  intros He. unfold Stream.handle. now rewrite loop_error_like_fault.
Qed.

Lemma error_payload_closes_like_fault_witness :
  Stream.handle sample_env false
    (Responded true
       ([answer_delta (JS.lit "Hi")]
          ++ answer_with_error [] {| detail := JS.lit "boom"; code := 500 |}
          :: [answer_delta (JS.lit "more")])
       EndOfStream) =
  Stream.handle sample_env false
    (Responded true [answer_delta (JS.lit "Hi")] Fault).
Proof.
  exact (@error_payload_closes_like_fault sample_env false
           [answer_delta (JS.lit "Hi")] [answer_delta (JS.lit "more")]
           (answer_with_error [] {| detail := JS.lit "boom"; code := 500 |})
           EndOfStream eq_refl).
Defined.
(** ** Fragments followed by a done payload *)

Lemma loop_fragments E tail ending fragments : forall st,
  Stream.streamEnded st = false ->
  Stream.toolCallFinishReceived st = false ->
  Stream.loop E st (map fragment_payload fragments ++ tail) ending false =
  Stream.loop E (feed E st fragments) tail ending false.
Proof.
  induction fragments as [|f frs IH]; intros st Hse Hfr; [reflexivity|].
  cbn [map app Stream.loop].
  destruct (@quiet_turn E st (fragment_payload f) false eq_refl Hse Hfr)
    as (Ht & Hse1 & Hfr1).
  rewrite Ht. unfold feed in *. cbn [fold_left].
  rewrite processContent_fragment in *. cbn [fst snd] in *.
  rewrite IH by assumption.
  now destruct (Stream.loop E _ tail ending false).
Qed.

Lemma feed_state E fragments : forall st,
  fragments <> [] ->
  feed E st fragments =
  {| Stream.hasTools := true;
     Stream.bufferedContent := Stream.bufferedContent st;
     Stream.toolCalls := Stream.toolCalls st;
     Stream.streamEnded := Stream.streamEnded st;
     Stream.toolUsage := Stream.toolUsage st;
     Stream.toolCallFragments :=
       fold_left store fragments (Stream.toolCallFragments st);
     Stream.toolCallFinishReceived := Stream.toolCallFinishReceived st |}.
Proof.
  induction fragments as [|f frs IH]; intros st Hne; [congruence|].
  unfold feed in *. cbn [fold_left].
  rewrite processContent_fragment. cbn [snd].
  destruct frs as [|g frs]; [reflexivity|].
  rewrite IH by discriminate. reflexivity.
Qed.

(** The items of a run that receives fragments and then a done payload. *)
Lemma fragments_then_done E hasTools fragments rest ending :
  fragment_map fragments <> [] ->
  fst (Stream.handle E hasTools
         (Responded true
            (map fragment_payload fragments ++ done_payload :: rest) ending)) =
  role_chunk E ::
  match Reassembly.resolve E (fragment_map fragments) with
  | [] => []
  | _ :: _ =>
      flat_map (Stream.tool_call_chunks E)
        (indexed 0 (Reassembly.resolve E (fragment_map fragments)))
        ++ tool_calls_close E
  end.
Proof.
  intros Hm.
  assert (Hne : fragments <> []) by (intros ->; now apply Hm).
  unfold Stream.handle.
  rewrite loop_fragments by reflexivity.
  rewrite feed_state by assumption.
  cbn [Stream.initial Stream.bufferedContent Stream.toolCalls
       Stream.streamEnded Stream.toolUsage Stream.toolCallFragments
       Stream.toolCallFinishReceived].
  fold (fragment_map fragments).
  destruct (fragment_map fragments) as [|p m] eqn:Em; [congruence|].
  cbn [Stream.loop]. unfold Stream.turn.
  change (Stream._hasError done_payload) with false. cbv iota.
  unfold Stream._processContent, Stream._processMultipleToolCalls.
  cbn -[Reassembly.resolve flat_map indexed createOpenAIResponseChunk].
  destruct (Reassembly.resolve E (p :: m)) as [|t ts]; reflexivity.
Qed.

(** X16: when the fragments a run has received hold no block that
    resolves, the done payload ends the run without any close: after the
    role chunk nothing is sent, neither a finish chunk nor the sentinel. *)
Theorem unresolved_fragments_leave_stream_open (E : Env) (hasTools : bool)
  (fragments : list (Z * jsstring)) (rest : list UpstreamData)
  (ending : Ending) :
  fragment_map fragments <> [] ->
  Reassembly.resolve E (fragment_map fragments) = [] ->
  fst (Stream.handle E hasTools
         (Responded true
            (map fragment_payload fragments ++ done_payload :: rest) ending)) =
  [role_chunk E].
Proof.
  intros Hm Hr. rewrite fragments_then_done by assumption. now rewrite Hr.
Qed.

Lemma unresolved_fragments_leave_stream_open_witness :
  fst (Stream.handle sample_env true
         (Responded true
            (map fragment_payload [(0%Z, JS.lit "<glm_block view=")]
               ++ done_payload :: [])
            EndOfStream)) =
  [role_chunk sample_env].
Proof.
  apply (@unresolved_fragments_leave_stream_open sample_env true
           [(0%Z, JS.lit "<glm_block view=")] [] EndOfStream).
  - discriminate.
  - reflexivity.
Defined.

(** X2: fragments that resolve, followed by a done payload: after the role
    chunk the run sends, for each invocation in order, the chunk that
    starts it and the chunk with its arguments, then the finish chunk with
    reason [tool_calls] and the sentinel; the payloads after the done
    payload are not read. *)
Theorem resolved_fragments_stream (E : Env) (hasTools : bool)
  (fragments : list (Z * jsstring)) (rest : list UpstreamData)
  (ending : Ending) :
  Reassembly.resolve E (fragment_map fragments) <> [] ->
  fst (Stream.handle E hasTools
         (Responded true
            (map fragment_payload fragments ++ done_payload :: rest) ending)) =
  role_chunk E ::
  flat_map (Stream.tool_call_chunks E)
    (indexed 0 (Reassembly.resolve E (fragment_map fragments)))
    ++ tool_calls_close E.
Proof.
  intros Hr.
  assert (Hm : fragment_map fragments <> []).
  { intros Hm. apply Hr. now rewrite Hm. }
  rewrite fragments_then_done by assumption.
  destruct (Reassembly.resolve E (fragment_map fragments)); congruence.
Qed.

Lemma resolved_fragments_stream_witness :
  fst (Stream.handle sample_env true
         (Responded true
            (map fragment_payload
               [(1%Z, skipn 40 scenario_block); (0%Z, firstn 40 scenario_block)]
               ++ done_payload :: [answer_delta (JS.lit "late")])
            Fault)) =
  role_chunk sample_env ::
  flat_map (Stream.tool_call_chunks sample_env)
    (indexed 0
       (Reassembly.resolve sample_env
          (fragment_map
             [(1%Z, skipn 40 scenario_block); (0%Z, firstn 40 scenario_block)])))
    ++ tool_calls_close sample_env.
Proof.
  apply (@resolved_fragments_stream sample_env true
           [(1%Z, skipn 40 scenario_block); (0%Z, firstn 40 scenario_block)]
           [answer_delta (JS.lit "late")] Fault).
  vm_compute. discriminate.
Defined.
(** ** Answer text without tools *)

Lemma processContent_answer E st text b :
  Stream.hasTools st = false ->
  Stream._processContent E st (answer_delta text) b =
  (if JS.truthy text then [Stream.content_chunk E text] else [], st).
Proof.
  intros Hh. destruct st as [h bc tc se tu tf fr]. cbn in Hh. subst h.
  unfold Stream._processContent, answer_delta, payload.
  cbn [data delta_content edit_content phase phase_eqb negb andb fst snd
       usage finish_reason Stream.is_stop JSON.truthy_opt Stream.hasTools].
  rewrite or_else_nil. rewrite !andb_true_r.
  destruct text as [|c t]; [reflexivity|].
  cbn [JS.truthy negb]. cbv iota. rewrite andb_false_r. reflexivity.
Qed.

Lemma loop_answers E tail ending b texts : forall st,
  Stream.hasTools st = false ->
  Stream.streamEnded st = false ->
  Stream.toolCallFinishReceived st = false ->
  Stream.loop E st (map answer_delta texts ++ tail) ending b =
  (map (Stream.content_chunk E) (filter JS.truthy texts)
     ++ fst (Stream.loop E st tail ending b),
   snd (Stream.loop E st tail ending b)).
Proof.
  induction texts as [|text texts IH]; intros st Hh Hse Hfr.
  - cbn [map filter app]. now destruct (Stream.loop E st tail ending b).
  - cbn [map app Stream.loop].
    destruct (@quiet_turn E st (answer_delta text) b eq_refl Hse Hfr)
      as (Ht & _).
    rewrite Ht, processContent_answer by assumption.
    rewrite IH by assumption. cbn [filter].
    destruct (JS.truthy text); reflexivity.
Qed.

Lemma loop_done E st rest ending b :
  Stream.hasTools st = false ->
  Stream.streamEnded st = false ->
  Stream.toolCallFinishReceived st = false ->
  fst (Stream.loop E st (done_payload :: rest) ending b) = stop_close E.
Proof.
  intros Hh Hse Hfr. destruct st as [h bc tc se tu tf fr].
  cbn in Hh, Hse, Hfr. subst h se fr. reflexivity.
Qed.

Lemma answer_stream_items E texts rest ending :
  fst (Stream.handle E false
         (Responded true (map answer_delta texts ++ done_payload :: rest)
            ending)) =
  role_chunk E ::
  map (Stream.content_chunk E) (filter JS.truthy texts) ++ stop_close E.
Proof.
  unfold Stream.handle. rewrite loop_answers by reflexivity.
  cbn [fst]. now rewrite loop_done.
Qed.

(** X1: without tools, answer texts followed by a done payload give the
    role chunk, one content chunk for each text that is not empty, in
    order, the chunk with finish reason [stop] and the sentinel; what
    comes after the done payload is not read. *)
Theorem answer_stream (E : Env) (texts : list jsstring)
  (rest : list UpstreamData) (ending : Ending) :
  fst (Stream.handle E false
         (Responded true (map answer_delta texts ++ done_payload :: rest)
            ending)) =
  role_chunk E ::
  map (Stream.content_chunk E) (filter JS.truthy texts) ++ stop_close E.
Proof. apply answer_stream_items. Qed.

(** ** One run, both translators *)

Lemma streamed_content_app a b :
  streamed_content (a ++ b) = streamed_content a ++ streamed_content b.
Proof. unfold streamed_content. now rewrite map_app, concat_app. Qed.

Lemma streamed_content_chunks E texts :
  streamed_content (map (Stream.content_chunk E) texts) = concat texts.
Proof.
  unfold streamed_content. rewrite map_map. f_equal.
  induction texts as [|t r IH]; [reflexivity|].
  cbn [map]. now rewrite IH.
Qed.

Lemma concat_filter_truthy texts : concat (filter JS.truthy texts) = concat texts.
Proof.
  induction texts as [|t r IH]; [reflexivity|].
  cbn [filter]. destruct t; cbn [JS.truthy concat app]; [exact IH|].
  now rewrite IH.
Qed.

Lemma join_nil_concat texts : JS.join [] texts = concat texts.
Proof.
  induction texts as [|t r IH]; [reflexivity|].
  cbn [JS.join concat]. destruct r as [|t' r'].
  - cbn [concat]. now rewrite app_nil_r.
  - cbn [app]. now rewrite IH.
Qed.

Lemma aggregate_loop_answers E tail ending texts : forall st,
  NonStream.loop E false st (map answer_delta texts ++ tail) ending =
  NonStream.loop E false
    (NonStream.set_fullContent st
       (NonStream.fullContent st ++ filter JS.truthy texts))
    tail ending.
Proof.
  induction texts as [|text texts IH]; intros st.
  - cbn [map filter app]. rewrite app_nil_r. now destruct st.
  - cbn [map app NonStream.loop filter].
    destruct st as [tools us fr fin full].
    destruct text as [|c t].
    + cbn -[NonStream.loop]. rewrite andb_false_r. cbn -[NonStream.loop].
      now rewrite IH.
    + cbn -[NonStream.loop]. rewrite andb_false_r. cbn -[NonStream.loop].
      rewrite IH. cbn [NonStream.set_fullContent NonStream.fullContent
                       NonStream.nsTools NonStream.nsUsage
                       NonStream.nsToolCallFragments
                       NonStream.nsToolCallFinishReceived].
      now rewrite <- app_assoc.
Qed.

(** X17: without tools both translators hand down the same answer: for
    answer texts followed by a done payload the aggregate translator
    returns a document with finish reason [stop] and no tool calls whose
    content is the text of the content chunks of the streaming run,
    joined. *)
Theorem stream_and_aggregate_agree (E : Env) (texts : list jsstring)
  (rest : list UpstreamData) (ending : Ending) :
  exists doc,
    NonStream.handle E false
      (Responded true (map answer_delta texts ++ done_payload :: rest) ending)
    = Some (NonStream.Completion doc)
    /\ NonStream.msg_content (NonStream.message doc) =
       Some (streamed_content
               (fst (Stream.handle E false
                       (Responded true
                          (map answer_delta texts ++ done_payload :: rest)
                          ending))))
    /\ NonStream.msg_tool_calls (NonStream.message doc) = None
    /\ NonStream.doc_finish_reason doc = stop.
Proof.
  rewrite answer_stream_items.
  unfold NonStream.handle, NonStream.collected.
  rewrite aggregate_loop_answers.
  cbn [NonStream.loop]. cbn -[NonStream.build streamed_content].
  eexists. split; [reflexivity|].
  unfold NonStream.build. cbn -[streamed_content].
  split; [|split; reflexivity].
  f_equal. rewrite join_nil_concat.
  change (role_chunk E :: ?l) with ([role_chunk E] ++ l).
  rewrite !streamed_content_app, streamed_content_chunks.
  cbn. now rewrite app_nil_r, concat_filter_truthy.
Qed.
(** ** Where usage is handed down *)

Abbreviation usage_free :=
  (Forall (fun i => match i with
                    | ChunkLine c => chunk_usage c = None
                    | _ => True
                    end)).

Lemma usage_free_ok out :
  usage_free out -> Forall usage_on_tool_calls_only out.
Proof.
  apply Forall_impl. intros [c| |m] H; cbn; auto. congruence.
Qed.

Lemma processContent_usage_free E st d b :
  usage_free (fst (Stream._processContent E st d b)).
Proof.
  unfold Stream._processContent.
  break_ifs; cbn [fst]; try apply Forall_app;
    repeat first [split | constructor | reflexivity].
Qed.

Lemma tool_call_chunks_usage_free E l :
  usage_free (flat_map (Stream.tool_call_chunks E) l).
Proof.
  induction l as [|[i t] r IH]; [constructor|].
  cbn [flat_map]. apply Forall_app. split; [|exact IH].
  repeat constructor.
Qed.

Lemma buffered_chunks_usage_free E s : usage_free (Stream.buffered_chunks E s).
Proof.
  unfold Stream.buffered_chunks. break_ifs; repeat constructor.
Qed.

Lemma fallback_chunks_usage_free E l :
  usage_free (fst (Stream.fallback_chunks E l)).
Proof.
  induction l as [|[i t] l IH]; cbn [Stream.fallback_chunks fst];
    [constructor|].
  destruct (Stream.fallback_chunk E (i, t)) as [c|] eqn:Hc; [|constructor].
  destruct (Stream.fallback_chunks E l) as [out thrown]. cbn [fst] in *.
  constructor; [|exact IH].
  destruct t; inversion Hc; reflexivity.
Qed.

Lemma processMultipleToolCalls_usage E st :
  Forall usage_on_tool_calls_only (fst (Stream._processMultipleToolCalls E st)).
Proof.
  unfold Stream._processMultipleToolCalls.
  destruct (NumMap.size (Stream.toolCallFragments st) =? 0)%nat;
    [constructor|].
  destruct (Reassembly.resolve E (Stream.toolCallFragments st)) as [|t ts];
    [constructor|].
  cbn [fst]. apply Forall_app. split;
    [apply usage_free_ok, tool_call_chunks_usage_free|].
  apply Forall_app. split;
    [apply usage_free_ok, buffered_chunks_usage_free|].
  constructor; [|constructor; [exact I|constructor]].
  destruct (Stream.toolUsage st); cbn; auto.
Qed.

Lemma sendEndChunk_usage_free E st :
  usage_free (fst (Stream._sendEndChunk E st)).
Proof.
  rewrite sendEndChunk_cases.
  destruct (Stream.streamEnded st); [constructor|].
  destruct (Stream.hasTools st).
  - destruct (extractToolInvocations E (Stream.bufferedContent st)).
    + cbn [fst]. apply Forall_app. split;
        [apply fallback_chunks_usage_free|repeat constructor].
    + cbn [fst]. apply Forall_app. split; [|repeat constructor].
      destruct (JS.truthy _); repeat constructor.
  - cbn [fst]. repeat constructor.
Qed.

Lemma turn_usage E st d b :
  Forall usage_on_tool_calls_only (fst (fst (Stream.turn E st d b))).
Proof.
  unfold Stream.turn.
  destruct (Stream._hasError d).
  - unfold Stream.error_close, handleUpstreamError.
    destruct (Stream.streamEnded st); cbn [fst];
      apply usage_free_ok; repeat constructor.
  - pose proof (processContent_usage_free E st d b) as Hp.
    apply usage_free_ok in Hp.
    destruct (Stream._processContent E st d b) as [out1 st1]. cbn [fst] in Hp.
    pose proof (processMultipleToolCalls_usage E st1) as Hm.
    pose proof (sendEndChunk_usage_free E st1) as Hs.
    apply usage_free_ok in Hs.
    destruct (Stream._processMultipleToolCalls E st1) as [out2 st2].
    destruct (Stream._sendEndChunk E st1) as [out3 st3].
    cbn [fst] in *.
    repeat match goal with
           | |- context [if ?c then _ else _] => destruct c
           end; cbn [fst]; try assumption; apply Forall_app; now split.
Qed.

Lemma loop_usage E payloads ending b : forall st,
  Forall usage_on_tool_calls_only (fst (Stream.loop E st payloads ending b)).
Proof.
  induction payloads as [|d rest IH]; intros st; cbn [Stream.loop].
  - destruct ending; [constructor|].
    unfold Stream.fault_close.
    destruct (Stream.streamEnded st); cbn [fst];
      apply usage_free_ok; repeat constructor.
  - pose proof (turn_usage E st d b) as Ht.
    destruct (Stream.turn E st d b) as [[out st1] leave]. cbn [fst] in Ht.
    destruct leave; [exact Ht|].
    specialize (IH st1).
    destruct (Stream.loop E st1 rest ending b) as [out' st2]. cbn [fst] in *.
    apply Forall_app. now split.
Qed.

(** X18: usage is handed down only on the finish chunk with reason
    [tool_calls]: no other item of a streaming run carries usage, so a
    stream that is closed with [stop] reports none, whatever usage the
    upstream has sent. *)
Theorem usage_only_with_tool_calls (E : Env) (hasTools : bool)
  (call : UpstreamCall) :
  Forall usage_on_tool_calls_only (fst (Stream.handle E hasTools call)).
Proof.
  unfold Stream.handle.
  destruct call as [|[|] payloads ending]; try (repeat constructor).
  pose proof (loop_usage E payloads ending false (Stream.initial hasTools))
    as Hl.
  destruct (Stream.loop E (Stream.initial hasTools) payloads ending false)
    as [out st]. cbn [fst] in *.
  constructor; [|exact Hl]. cbn. congruence.
Qed.

(** ** A fault while the aggregate translator reads *)

Lemma aggregate_loop_fault E hasTools payloads : forall st,
  NonStream.loop E hasTools st payloads Fault = None <->
  existsb (ends_loop hasTools) payloads = false.
Proof.
  induction payloads as [|d rest IH]; intros st; cbn [NonStream.loop existsb].
  - split; reflexivity.
  - destruct (turn_collects E hasTools st d) as [_ Hl].
    destruct (NonStream.turn E hasTools st d) as [st1 leave].
    cbn [snd] in Hl. subst leave.
    destruct (ends_loop hasTools d); cbn [orb]; [split; discriminate|].
    apply IH.
Qed.

(** X19: when reading the upstream fails, the aggregate translator returns
    no document at all, and its promise rejects, unless a payload read
    before the failure has ended the loop; the text collected so far is
    lost.  (The streaming translator closes its stream with [stop] in the
    same situation.) *)
Theorem aggregate_fault_rejects (E : Env) (hasTools : bool)
  (payloads : list UpstreamData) :
  NonStream.handle E hasTools (Responded true payloads Fault) = None <->
  existsb (ends_loop hasTools) payloads = false.
Proof.
  unfold NonStream.handle, NonStream.collected.
  rewrite <- (aggregate_loop_fault E hasTools payloads NonStream.initial).
  destruct (NonStream.loop E hasTools NonStream.initial payloads Fault);
    split; congruence.
Qed.

(** ** The usage of the aggregated document *)

Lemma processNonStream_usage E st :
  NonStream.nsUsage (NonStream._processNonStreamMultipleToolCalls E st) =
  NonStream.nsUsage st.
Proof.
  unfold NonStream._processNonStreamMultipleToolCalls.
  destruct (NumMap.size (NonStream.nsToolCallFragments st) =? 0)%nat;
    reflexivity.
Qed.

Lemma turn_usage_reported E hasTools st d :
  NonStream.nsUsage (fst (NonStream.turn E hasTools st d)) =
  match reported_usage hasTools d with
  | Some u => Some u
  | None => NonStream.nsUsage st
  end.
Proof.
  destruct st as [tools us fr fin full].
  unfold NonStream.turn, reported_usage. cbv zeta.
  destruct (hasTools && phase_eqb (phase (data d)) ToolCall
            && JS.truthy (edit_content (data d))); [reflexivity|].
  destruct (phase (data d)); cbn [phase_eqb andb orb];
    destruct (usage (data d));
    repeat match goal with
           | |- context [if ?c then _ else _] => destruct c
           end;
    cbn; rewrite ?processNonStream_usage; reflexivity.
Qed.

Lemma loop_usage_reported E hasTools payloads ending : forall st st',
  NonStream.loop E hasTools st payloads ending = Some st' ->
  NonStream.nsUsage st' =
  latest (NonStream.nsUsage st)
    (map (reported_usage hasTools) (payloads_read hasTools payloads)).
Proof.
  induction payloads as [|d rest IH]; intros st st' H.
  - simpl in H. destruct ending; [|discriminate]. now inversion H; subst.
  - cbn [NonStream.loop] in H.
    pose proof (turn_usage_reported E hasTools st d) as Hu.
    destruct (turn_collects E hasTools st d) as [_ Hl].
    destruct (NonStream.turn E hasTools st d) as [st1 leave].
    cbn [fst snd] in *. subst leave. cbn [payloads_read].
    destruct (ends_loop hasTools d).
    + inversion H; subst. unfold latest. cbn [map fold_left]. exact Hu.
    + rewrite (IH _ _ H). unfold latest. cbn [map fold_left]. now rewrite Hu.
Qed.

(** X20: the usage of the aggregated document is the one reported last by
    an answer payload or an other-phase payload among the payloads read,
    and three zeros when none has reported any; usage carried by a payload
    of another phase is not looked at. *)
Theorem aggregate_usage (E : Env) (hasTools : bool)
  (payloads : list UpstreamData) (ending : Ending) (st : NonStream.State) :
  NonStream.collected E hasTools payloads ending = Some st ->
  NonStream.doc_usage (NonStream.build E hasTools st) =
  match latest None
          (map (reported_usage hasTools) (payloads_read hasTools payloads))
  with
  | Some u => u
  | None => NonStream.zero_usage
  end.
Proof.
  intros H. apply loop_usage_reported in H.
  cbn [NonStream.initial NonStream.nsUsage] in H. rewrite <- H.
  assert (Hlc : NonStream.nsUsage (NonStream.last_check E hasTools st)
                = NonStream.nsUsage st).
  { unfold NonStream.last_check.
    destruct (_ && _); rewrite ?processNonStream_usage; reflexivity. }
  unfold NonStream.build. cbv zeta.
  destruct (hasTools
            && (0 <? length (NonStream.nsTools
                               (NonStream.last_check E hasTools st)))%nat);
    cbn [NonStream.doc_usage]; now rewrite Hlc.
Qed.

Lemma aggregate_usage_witness :
  NonStream.doc_usage (NonStream.build sample_env false usage_state) =
  usage_first.
Proof.
  rewrite (@aggregate_usage sample_env false usage_payloads EndOfStream
             usage_state eq_refl).
  reflexivity.
Defined.

(** ** The initial answer text *)

Lemma split_go_skip sep k cur s :
  JS.split_go sep k cur s = JS.split_go sep 0 cur (skipn k s).
Proof.
  revert k; induction s as [|c r IH]; intros k.
  - now destruct k.
  - destruct k as [|k]; [reflexivity|]. cbn [JS.split_go skipn]. apply IH.
Qed.

Lemma split_go_cut sep (s : jsstring) : forall cur,
  sep <> [] ->
  JS.split_go sep 0 cur s =
  match JS.cut sep s with
  | None => [rev cur ++ s]
  | Some (a, r) => (rev cur ++ a) :: JS.split_go sep 0 [] r
  end.
Proof.
  induction s as [|c r IH]; intros cur Hsep.
  - cbn [JS.split_go JS.cut]. rewrite startsWith_nil_false by assumption.
    now rewrite app_nil_r.
  - cbn [JS.split_go JS.cut].
    destruct (JS.startsWith (c :: r) sep) eqn:Hs.
    + rewrite app_nil_r, split_go_skip.
      destruct sep as [|x sep']; [congruence|].
      cbn [length skipn Nat.sub]. now rewrite Nat.sub_0_r.
    + rewrite IH by assumption.
      destruct (JS.cut sep r) as [[a b]|];
        cbn [rev]; now rewrite <- app_assoc.
Qed.

Lemma split_cut (s sep : jsstring) :
  sep <> [] ->
  JS.split s sep =
  match JS.cut sep s with
  | None => [s]
  | Some (a, r) => a :: JS.split r sep
  end.
Proof. intros H. unfold JS.split. now rewrite split_go_cut. Qed.

Lemma startsWith_app (s p : jsstring) :
  JS.startsWith s p = true -> s = p ++ skipn (length p) s.
Proof.
  revert s; induction p as [|x p IH]; intros s H; [reflexivity|].
  destruct s as [|c s]; [discriminate|].
  cbn [JS.startsWith] in H. apply andb_prop in H as [H1 H2].
  apply N.eqb_eq in H1. subst. cbn [length skipn app]. f_equal. now apply IH.
Qed.

Lemma cut_app sep (s : jsstring) : forall a r,
  JS.cut sep s = Some (a, r) -> s = a ++ sep ++ r.
Proof.
  induction s as [|c s IH]; intros a r H; cbn [JS.cut] in H.
  - destruct (JS.startsWith [] sep) eqn:Hs; [|discriminate].
    inversion H; subst. now apply startsWith_app.
  - destruct (JS.startsWith (c :: s) sep) eqn:Hs.
    + inversion H; subst. now apply startsWith_app.
    + destruct (JS.cut sep s) as [[a' r']|]; [|discriminate].
      inversion H; subst. cbn [app]. f_equal. now apply IH.
Qed.

(** X21: the initial answer text taken from an edit is the text between the
    first and the second closing tag of the details block, or all the text
    after the first when there is no second; it is empty when the edit
    holds no closing tag.  What stands before the first tag and after the
    second is left out. *)
Theorem extractEditContent_between (editContent : jsstring) :
  match JS.cut Stream.details_close editContent with
  | None => Stream._extractEditContent editContent = []
  | Some (before, r) =>
      editContent = before ++ Stream.details_close ++ r
      /\ match JS.cut Stream.details_close r with
         | None => Stream._extractEditContent editContent = r
         | Some (between, after) =>
             r = between ++ Stream.details_close ++ after
             /\ Stream._extractEditContent editContent = between
         end
  end.
Proof.
  unfold Stream._extractEditContent. cbv zeta.
  rewrite split_cut by discriminate.
  destruct (JS.cut Stream.details_close editContent) as [[before r]|] eqn:H1;
    [|reflexivity].
  split; [now apply cut_app|].
  rewrite split_cut by discriminate.
  destruct (JS.cut Stream.details_close r) as [[between after]|] eqn:H2.
  - split; [now apply cut_app|reflexivity].
  - reflexivity.
Qed.
(** ** Tool mode: nothing is streamed before the close *)

Lemma processContent_tool_mode E st d b :
  Stream.hasTools st = true -> fst (Stream._processContent E st d b) = [].
Proof.
  intros Hh. destruct st as [h bc tc se tu tf fr]. cbn in Hh. subst h.
  unfold Stream._processContent. cbv zeta.
  destruct (phase (data d)); cbn [phase_eqb andb negb];
    rewrite ?andb_false_r, ?andb_true_r;
    destruct (usage (data d));
    destruct (Stream.is_stop (finish_reason (data d)));
    destruct (JSON.truthy_opt (finish_reason (data d)));
    destruct (negb (JS.truthy (JS.or_else (delta_content (data d))
                                 (edit_content (data d)))));
    reflexivity.
Qed.

Lemma loop_tool_mode_quiet E payloads b : forall st,
  forallb quiet payloads = true ->
  Stream.hasTools st = true ->
  Stream.streamEnded st = false ->
  Stream.toolCallFinishReceived st = false ->
  fst (Stream.loop E st payloads EndOfStream b) = [].
Proof.
  induction payloads as [|d rest IH]; intros st Hq Hh Hse Hfr; [reflexivity|].
  cbn [forallb] in Hq. apply andb_prop in Hq as [Hd Hrest].
  destruct (@quiet_turn E st d b Hd Hse Hfr) as (Ht & Hse1 & Hfr1).
  cbn [Stream.loop]. rewrite Ht.
  pose proof (@processContent_tool_mode E st d b Hh) as Ho.
  pose proof (@processContent_keeps_tools E st d b Hh) as Hh1.
  destruct (Stream._processContent E st d b) as [out1 st1].
  cbn [fst snd] in *. subst out1.
  specialize (IH st1 Hrest Hh1 Hse1 Hfr1).
  destruct (Stream.loop E st1 rest EndOfStream b) as [o s]. cbn [fst] in *.
  now subst o.
Qed.

Lemma processContent_buffers E st d b :
  Stream.hasTools st = true ->
  Stream.bufferedContent (snd (Stream._processContent E st d b)) =
  Stream.bufferedContent st ++ buffered_text d.
Proof.
  intros Hh. destruct st as [h bc tc se tu tf fr]. cbn in Hh. subst h.
  unfold Stream._processContent, buffered_text. cbv zeta.
  destruct (JS.or_else (delta_content (data d)) (edit_content (data d)))
    as [|c t] eqn:Hc;
    destruct (phase (data d)); cbn [phase_eqb andb negb JS.truthy];
    destruct (usage (data d));
    destruct (Stream.is_stop (finish_reason (data d)));
    destruct (JSON.truthy_opt (finish_reason (data d)));
    destruct (JS.truthy (edit_content (data d)));
    cbn; rewrite ?app_nil_r; reflexivity.
Qed.

Lemma loop_tool_mode_buffer E payloads b : forall st,
  forallb quiet payloads = true ->
  Stream.hasTools st = true ->
  Stream.streamEnded st = false ->
  Stream.toolCallFinishReceived st = false ->
  Stream.bufferedContent (snd (Stream.loop E st payloads EndOfStream b)) =
  Stream.bufferedContent st ++ concat (map buffered_text payloads).
Proof.
  induction payloads as [|d rest IH]; intros st Hq Hh Hse Hfr.
  - cbn. now rewrite app_nil_r.
  - cbn [forallb] in Hq. apply andb_prop in Hq as [Hd Hrest].
    destruct (@quiet_turn E st d b Hd Hse Hfr) as (Ht & Hse1 & Hfr1).
    cbn [Stream.loop]. rewrite Ht.
    pose proof (@processContent_buffers E st d b Hh) as Hb.
    pose proof (@processContent_keeps_tools E st d b Hh) as Hh1.
    destruct (Stream._processContent E st d b) as [out1 st1].
    cbn [fst snd] in *.
    specialize (IH st1 Hrest Hh1 Hse1 Hfr1).
    destruct (Stream.loop E st1 rest EndOfStream b) as [o s]. cbn [snd] in *.
    rewrite IH, Hb. cbn [map concat]. now rewrite app_assoc.
Qed.

(** X22: with tools enabled nothing is streamed while the answer arrives:
    as long as no payload ends the run, only the role chunk has been sent,
    and the buffer of the run holds the texts of the answer payloads
    without finish value, joined in order, and nothing else; the text of a
    payload of any other phase, thinking text among it, is in neither. *)
Theorem tool_mode_streams_nothing_before_close (E : Env)
  (payloads : list UpstreamData) :
  forallb quiet payloads = true ->
  fst (Stream.handle E true (Responded true payloads EndOfStream)) =
  [role_chunk E]
  /\ Stream.bufferedContent
       (snd (Stream.handle E true (Responded true payloads EndOfStream))) =
     concat (map buffered_text payloads).
Proof.
  intros Hq. unfold Stream.handle.
  pose proof (@loop_tool_mode_quiet E payloads false (Stream.initial true) Hq
                eq_refl eq_refl eq_refl) as Hl.
  pose proof (@loop_tool_mode_buffer E payloads false (Stream.initial true) Hq
                eq_refl eq_refl eq_refl) as Hb.
  destruct (Stream.loop E (Stream.initial true) payloads EndOfStream false)
    as [o s]. cbn [fst snd] in *. subst o. split; [reflexivity|].
  cbn [Stream.set_streamEnded Stream.bufferedContent]. exact Hb.
Qed.

Lemma tool_mode_streams_nothing_before_close_witness :
  fst (Stream.handle sample_env true
         (Responded true
            [payload Thinking (JS.lit "hm") [] None false;
             answer_delta (JS.lit "Hi");
             other_delta (JS.lit "x");
             answer_delta (JS.lit "!")]
            EndOfStream)) =
  [role_chunk sample_env]
  /\ Stream.bufferedContent
       (snd (Stream.handle sample_env true
               (Responded true
                  [payload Thinking (JS.lit "hm") [] None false;
                   answer_delta (JS.lit "Hi");
                   other_delta (JS.lit "x");
                   answer_delta (JS.lit "!")]
                  EndOfStream))) =
     JS.lit "Hi!".
Proof.
  exact (@tool_mode_streams_nothing_before_close sample_env
           [payload Thinking (JS.lit "hm") [] None false;
            answer_delta (JS.lit "Hi");
            other_delta (JS.lit "x");
            answer_delta (JS.lit "!")] eq_refl).
Defined.

Lemma processContent_answer_buffered E st text b :
  Stream.hasTools st = true ->
  Stream._processContent E st (answer_delta text) b =
  ([], Stream.set_bufferedContent st (Stream.bufferedContent st ++ text)).
Proof.
  intros Hh. destruct st as [h bc tc se tu tf fr]. cbn in Hh. subst h.
  unfold Stream._processContent, answer_delta, payload.
  cbn [data delta_content edit_content phase phase_eqb negb andb fst snd
       usage finish_reason Stream.is_stop JSON.truthy_opt Stream.hasTools].
  rewrite or_else_nil. rewrite !andb_true_r.
  destruct text as [|c t].
  - cbn. now rewrite app_nil_r.
  - reflexivity.
Qed.

Lemma loop_answers_buffered E tail ending b texts : forall st,
  Stream.hasTools st = true ->
  Stream.streamEnded st = false ->
  Stream.toolCallFinishReceived st = false ->
  Stream.loop E st (map answer_delta texts ++ tail) ending b =
  Stream.loop E
    (Stream.set_bufferedContent st (Stream.bufferedContent st ++ concat texts))
    tail ending b.
Proof.
  induction texts as [|text texts IH]; intros st Hh Hse Hfr.
  - cbn [map concat app]. rewrite app_nil_r. now destruct st.
  - cbn [map app Stream.loop].
    destruct (@quiet_turn E st (answer_delta text) b eq_refl Hse Hfr)
      as (Ht & _).
    rewrite Ht, processContent_answer_buffered by assumption.
    rewrite IH by assumption.
    cbn [Stream.set_bufferedContent Stream.bufferedContent Stream.hasTools
         Stream.toolCalls Stream.streamEnded Stream.toolUsage
         Stream.toolCallFragments Stream.toolCallFinishReceived concat].
    rewrite <- app_assoc.
    now destruct (Stream.loop E _ tail ending b).
Qed.

(** X23: with tools enabled and no fragment received, the answer is not
    streamed but handed down at the done payload: the texts are joined and
    given to the fallback extractor.  When it returns an array, one chunk
    is sent for each element and the stream is closed with [tool_calls];
    but when an element is [null], reading it throws: the chunks of the
    elements before it are followed by the close with [stop] of the
    [catch] clause.  When it returns nothing, the joined text, after the
    removal of tool JSON, is sent as one content chunk (none when it is
    empty) and the stream is closed with [stop]. *)
Theorem buffered_answer_stream (E : Env) (texts : list jsstring)
  (rest : list UpstreamData) (ending : Ending) :
  fst (Stream.handle E true
         (Responded true (map answer_delta texts ++ done_payload :: rest)
            ending)) =
  role_chunk E ::
  match extractToolInvocations E (concat texts) with
  | Some tcs =>
      fst (Stream.fallback_chunks E (indexed 0 tcs))
        ++ (if snd (Stream.fallback_chunks E (indexed 0 tcs))
            then stop_close E else tool_calls_close E)
  | None =>
      (if JS.truthy (removeToolJsonContent E (concat texts))
       then [Stream.content_chunk E (removeToolJsonContent E (concat texts))]
       else [])
        ++ stop_close E
  end.
Proof.
  unfold Stream.handle. rewrite loop_answers_buffered by reflexivity.
  cbn [Stream.initial Stream.set_bufferedContent Stream.bufferedContent
       Stream.hasTools Stream.toolCalls Stream.streamEnded Stream.toolUsage
       Stream.toolCallFragments Stream.toolCallFinishReceived app].
  cbn [Stream.loop]. unfold Stream.turn.
  change (Stream._hasError done_payload) with false. cbv iota.
  unfold Stream._processContent.
  cbn -[createOpenAIResponseChunk indexed Stream._sendEndChunk].
  rewrite sendEndChunk_cases.
  cbn -[createOpenAIResponseChunk indexed Stream.fallback_chunks].
  destruct (extractToolInvocations E (concat texts)) as [tcs|];
    [|reflexivity].
  cbn -[createOpenAIResponseChunk indexed Stream.fallback_chunks].
  now destruct (snd (Stream.fallback_chunks E (indexed 0 tcs))).
Qed.

(** The elements after a [null] element are not reached: the run below
    sends the chunk of the first element and is closed with [stop]. *)
Lemma null_invocation_closes_with_stop (E : Env) (first last : JSON.value) :
  first <> JSON.Null ->
  exists c,
    Stream.fallback_chunk E (0%nat, first) = Some c
    /\ Stream.fallback_chunks E (indexed 0 [first; JSON.Null; last]) =
       ([c], true).
Proof.
  intros Hf. destruct first; try congruence;
    (eexists; split; reflexivity).
Qed.

(** ** Fragments in the aggregate translator *)

Lemma aggregate_turn_fragment E st f :
  NonStream.nsToolCallFinishReceived st = false ->
  NonStream.turn E true st (fragment_payload f) =
  (NonStream.set_nsToolCallFragments st
     (store (NonStream.nsToolCallFragments st) f), false).
Proof.
  intros Hf. destruct st as [tools us fr fin full]. cbn in Hf. subst fin.
  destruct f as [k v]. unfold NonStream.turn, fragment_payload, payload, store.
  cbn [data delta_content edit_content phase phase_eqb negb andb fst snd
       edit_index JS.truthy usage finish_reason done].
  destruct v; reflexivity.
Qed.

Lemma aggregate_loop_fragments E tail ending fragments : forall st,
  NonStream.nsToolCallFinishReceived st = false ->
  NonStream.loop E true st (map fragment_payload fragments ++ tail) ending =
  NonStream.loop E true
    (NonStream.set_nsToolCallFragments st
       (fold_left store fragments (NonStream.nsToolCallFragments st)))
    tail ending.
Proof.
  induction fragments as [|f frs IH]; intros st Hf.
  - cbn [map app fold_left]. now destruct st.
  - cbn [map app NonStream.loop fold_left].
    rewrite aggregate_turn_fragment by assumption.
    rewrite IH by assumption. reflexivity.
Qed.

(** With tools enabled, fragments followed by a done payload alone give
    the empty document, whatever the fragments hold. *)
Lemma aggregate_fragments_then_done (E : Env)
  (fragments : list (Z * jsstring)) (rest : list UpstreamData)
  (ending : Ending) :
  NonStream.handle E true
    (Responded true
       (map fragment_payload fragments ++ done_payload :: rest) ending) =
  Some (NonStream.Completion (empty_document E)).
Proof.
  unfold NonStream.handle, NonStream.collected.
  rewrite aggregate_loop_fragments by reflexivity.
  cbn [NonStream.loop]. reflexivity.
Qed.

Lemma aggregate_turn_without_stop E hasTools st d :
  signals_stop d = false ->
  NonStream.nsToolCallFinishReceived st = false ->
  NonStream.nsTools st = [] ->
  NonStream.nsToolCallFinishReceived (fst (NonStream.turn E hasTools st d))
    = false
  /\ NonStream.nsTools (fst (NonStream.turn E hasTools st d)) = [].
Proof.
  unfold signals_stop. intros Hs Hf Ht.
  destruct st as [tools us fr fin full]. cbn in Hf, Ht. subst fin tools.
  unfold NonStream.turn. cbv zeta.
  destruct (hasTools && phase_eqb (phase (data d)) ToolCall
            && JS.truthy (edit_content (data d))); [split; reflexivity|].
  destruct (phase (data d)); cbn [phase_eqb andb] in *; rewrite ?Hs;
    destruct (usage (data d));
    destruct (JSON.truthy_opt (finish_reason (data d)));
    destruct (JS.truthy (delta_content (data d)));
    cbn;
    try destruct (JS.truthy (transformThinkingContent E
                               (delta_content (data d))));
    try destruct (JS.truthy (delta_content (data d)));
    cbn; split; reflexivity.
Qed.

Lemma aggregate_loop_without_stop E hasTools payloads ending : forall st st',
  forallb (fun d => negb (signals_stop d)) payloads = true ->
  NonStream.nsToolCallFinishReceived st = false ->
  NonStream.nsTools st = [] ->
  NonStream.loop E hasTools st payloads ending = Some st' ->
  NonStream.nsToolCallFinishReceived st' = false
  /\ NonStream.nsTools st' = [].
Proof.
  induction payloads as [|d rest IH]; intros st st' Hq Hf Ht H.
  - simpl in H. destruct ending; [|discriminate]. inversion H; subst. auto.
  - cbn [forallb] in Hq. apply andb_prop in Hq as [Hd Hrest].
    apply negb_true_iff in Hd.
    destruct (@aggregate_turn_without_stop E hasTools st d Hd Hf Ht)
      as [Hf1 Ht1].
    cbn [NonStream.loop] in H.
    destruct (NonStream.turn E hasTools st d) as [st1 leave].
    cbn [fst] in *. destruct leave.
    + inversion H; subst. auto.
    + exact (IH _ _ Hrest Hf1 Ht1 H).
Qed.

(** X24: in the aggregate translator fragments are resolved only after an
    answer payload has carried the finish value [stop]: a run in which no
    payload does so returns a document without tool calls and with finish
    reason [stop], whatever fragments and other payloads it has read.
    (The streaming translator resolves the fragments of such a run at the
    done payload.) *)
Theorem aggregate_fragments_need_finish (E : Env) (hasTools : bool)
  (payloads : list UpstreamData) (ending : Ending)
  (doc : NonStream.Document) :
  forallb (fun d => negb (signals_stop d)) payloads = true ->
  NonStream.handle E hasTools (Responded true payloads ending) =
    Some (NonStream.Completion doc) ->
  NonStream.msg_tool_calls (NonStream.message doc) = None
  /\ NonStream.doc_finish_reason doc = stop.
Proof.
  intros Hq H. unfold NonStream.handle, NonStream.collected in H.
  destruct (NonStream.loop E hasTools NonStream.initial payloads ending)
    as [st|] eqn:Hl; [|discriminate].
  destruct (@aggregate_loop_without_stop E hasTools payloads ending
              NonStream.initial st Hq eq_refl eq_refl Hl) as [Hf Ht].
  inversion H; subst doc. unfold NonStream.build, NonStream.last_check.
  rewrite Hf. cbn [andb]. rewrite Ht. cbn [length Nat.ltb Nat.leb].
  rewrite andb_false_r. split; reflexivity.
Qed.

Lemma aggregate_fragments_need_finish_witness :
  NonStream.msg_tool_calls
    (NonStream.message (empty_document sample_env)) = None
  /\ NonStream.doc_finish_reason (empty_document sample_env) = stop.
Proof.
  apply (@aggregate_fragments_need_finish sample_env true
           [fragment_payload (0%Z, scenario_block);
            payload Thinking [] [] None false;
            done_payload]
           EndOfStream (empty_document sample_env)).
  - reflexivity.
  - reflexivity.
Defined.

Lemma collect_extends E blocks : forall acc,
  exists more, Reassembly.collect E blocks acc = acc ++ more.
Proof.
  induction blocks as [|b r IH]; intros acc; cbn [Reassembly.collect].
  - exists []. now rewrite app_nil_r.
  - destruct (Reassembly.parseBlock E (length acc) b) as [t|]; [|apply IH].
    destruct (IH (acc ++ [t])) as [more H]. exists (t :: more).
    rewrite H, <- app_assoc. reflexivity.
Qed.

Lemma distinct_ids_snoc_prefix acc t more :
  distinct_ids ((acc ++ [t]) ++ more) ->
  existsb (fun t' => NonStream.sameValueZero (tool_id t') (tool_id t)) acc
    = false.
Proof.
  unfold distinct_ids. induction acc as [|a acc IH]; intros H; [reflexivity|].
  cbn [app] in H. inversion H as [|? ? Ha Hr]; subst.
  cbn [existsb]. rewrite (IH Hr), orb_false_r.
  rewrite Forall_forall in Ha. apply Ha.
  rewrite <- app_assoc. apply in_or_app. right. now left.
Qed.

Lemma record_blocks_collect E blocks : forall acc,
  distinct_ids (Reassembly.collect E blocks acc) ->
  NonStream.record_blocks E blocks acc = Reassembly.collect E blocks acc.
Proof.
  induction blocks as [|b r IH]; intros acc Hd;
    cbn [NonStream.record_blocks Reassembly.collect] in *; [reflexivity|].
  destruct (Reassembly.parseBlock E (length acc) b) as [t|]; [|now apply IH].
  destruct (collect_extends E r (acc ++ [t])) as [more Hm].
  assert (Hex : existsb (fun t' => NonStream.sameValueZero (tool_id t')
                                     (tool_id t)) acc = false).
  { apply distinct_ids_snoc_prefix with (more := more). now rewrite <- Hm. }
  rewrite Hex. now apply IH.
Qed.

(** X25: with tools enabled, fragments followed by an answer payload with
    the finish value [stop] and a done payload give the document of the
    invocations the fragments resolve to, the same that the streaming
    translator sends for these fragments, when no two of them have the
    same id: content null, finish reason [tool_calls], one tool call for
    each invocation, in order. *)
Theorem aggregate_resolved_fragments (E : Env)
  (fragments : list (Z * jsstring)) (rest : list UpstreamData)
  (ending : Ending) :
  Reassembly.resolve E (fragment_map fragments) <> [] ->
  distinct_ids (Reassembly.resolve E (fragment_map fragments)) ->
  NonStream.handle E true
    (Responded true
       (map fragment_payload fragments
          ++ answer_finished [] (JSON.Str stop) :: done_payload :: rest)
       ending) =
  Some (NonStream.Completion
          (tool_calls_document E
             (Reassembly.resolve E (fragment_map fragments)))).
Proof.
  intros Hr Hd.
  assert (Hm : fragment_map fragments <> []).
  { intros Hm. apply Hr. now rewrite Hm. }
  unfold NonStream.handle, NonStream.collected.
  rewrite aggregate_loop_fragments by reflexivity.
  cbn [NonStream.initial NonStream.nsToolCallFragments fold_left].
  fold (fragment_map fragments).
  unfold Reassembly.resolve in *.
  pose proof (record_blocks_collect E _ [] Hd) as Hrec.
  set (m := fragment_map fragments) in *.
  set (blocks := Reassembly.glmBlocks
                   (length (Reassembly.fullContent m))
                   (Reassembly.fullContent m)) in *.
  destruct m as [|p m'] eqn:Em; [congruence|].
  cbn [NonStream.loop]. unfold NonStream.turn.
  cbn -[NonStream.build NonStream.record_blocks Reassembly.collect
        Reassembly.glmBlocks Reassembly.fullContent].
  unfold NonStream._processNonStreamMultipleToolCalls.
  cbn -[NonStream.build NonStream.record_blocks Reassembly.collect
        Reassembly.glmBlocks Reassembly.fullContent].
  fold blocks. rewrite Hrec.
  destruct (Reassembly.collect E blocks []) as [|t ts] eqn:Ec; [congruence|].
  reflexivity.
Qed.

Lemma aggregate_resolved_fragments_witness :
  NonStream.handle sample_env true
    (Responded true
       (map fragment_payload
          [(1%Z, skipn 40 scenario_block); (0%Z, firstn 40 scenario_block)]
          ++ answer_finished [] (JSON.Str stop) :: done_payload :: [])
       EndOfStream) =
  Some (NonStream.Completion
          (tool_calls_document sample_env
             (Reassembly.resolve sample_env
                (fragment_map
                   [(1%Z, skipn 40 scenario_block);
                    (0%Z, firstn 40 scenario_block)])))).
Proof.
  apply (@aggregate_resolved_fragments sample_env
           [(1%Z, skipn 40 scenario_block); (0%Z, firstn 40 scenario_block)]
           [] EndOfStream).
  - vm_compute. discriminate.
  - vm_compute. repeat constructor.
Defined.
